(** * Asha Sakhi: result parsing, ingestion and embedding front-end

    A shallow embedding of the Python sources
      - [api/nutrition.py]       (region extraction, diet-plan parser)
      - [api/search.py]          (scheme-record parser)
      - [api/pdf_upload.py]      (PDF ingestion)
      - [api/embedding_utils.py] (batched encoder)
    together with the properties stated about them.

    Python [str] values are modelled as lists of 8-bit characters holding
    the UTF-8 encoding of the text.  Character classes ([\s], [\d]), case
    folding and [strip]/[split] act on the ASCII range; every other byte is
    an ordinary non-space, non-digit, caseless character.  On ASCII text
    they are Python's own.

    [json.loads] comes twice: [Json.loads] is the decoder by its grammar,
    [Limits.loads] the decoder as CPython runs it, which can also end in
    [RecursionError] or in the [ValueError] of [int]. *)

From Stdlib Require Import Ascii String DecimalString List Bool Arith NArith ZArith Lia
  Permutation.
Import ListNotations.

Local Open Scope list_scope.

(** ** Python strings *)

Module Py.

Definition str : Type := list ascii.

Definition lit (s : string) : str := list_ascii_of_string s.

Definition code (c : ascii) : N := N_of_ascii c.

Definition eqc (a b : ascii) : bool := Ascii.eqb a b.

Fixpoint eqs (a b : str) : bool :=
  match a, b with
  | [], [] => true
  | x :: a', y :: b' => eqc x y && eqs a' b'
  | _, _ => false
  end.

(** [str.isspace] on the ASCII range: TAB..CR, FS..US and SPACE. *)
Definition is_space (c : ascii) : bool :=
  let n := code c in
  ((9 <=? n) && (n <=? 13) || (28 <=? n) && (n <=? 32))%N.

Definition is_digit (c : ascii) : bool :=
  let n := code c in ((48 <=? n) && (n <=? 57))%N.

Definition lower_char (c : ascii) : ascii :=
  let n := code c in
  if ((65 <=? n) && (n <=? 90))%N then ascii_of_N (n + 32) else c.

(** [s.lower()] *)
Definition lower (s : str) : str := map lower_char s.

(** [s.lstrip()], [s.rstrip()], [s.strip()] *)
Fixpoint lstrip (s : str) : str :=
  match s with
  | c :: s' => if is_space c then lstrip s' else s
  | [] => []
  end.

Definition rstrip (s : str) : str := rev (lstrip (rev s)).

Definition strip (s : str) : str := rstrip (lstrip s).

(** [s.startswith(p)] *)
Fixpoint startswith (p s : str) : bool :=
  match p, s with
  | [], _ => true
  | a :: p', b :: s' => eqc a b && startswith p' s'
  | _ :: _, [] => false
  end.

Definition endswith (p s : str) : bool := startswith (rev p) (rev s).

(** [s.find(sub)]: index of the first occurrence, [None] for [-1]. *)
Fixpoint find (sub s : str) : option nat :=
  if startswith sub s then Some 0
  else match s with
       | [] => None
       | _ :: s' => option_map S (find sub s')
       end.

(** [s.rfind(sub)]: index of the last occurrence, [None] for [-1]. *)
Fixpoint rfind (sub s : str) : option nat :=
  match s with
  | [] => if startswith sub [] then Some 0 else None
  | _ :: s' =>
      match rfind sub s' with
      | Some i => Some (S i)
      | None => if startswith sub s then Some 0 else None
      end
  end.

(** [sub in s] *)
Definition contains (sub s : str) : bool :=
  match find sub s with Some _ => true | None => false end.

(** [s.split(sep)] for a non-empty separator: the text is cut at every
    occurrence of [sep], scanning left to right without overlap.  [skip]
    counts the characters of a separator still to be dropped and [cur]
    holds the current piece in reverse.  (Python raises [ValueError] on an
    empty separator; every call site passes a non-empty literal.) *)
Fixpoint split_go (sep s : str) (skip : nat) (cur : str) : list str :=
  match s with
  | [] => [rev cur]
  | c :: s' =>
      match skip with
      | S n => split_go sep s' n cur
      | O =>
          if startswith sep s
          then rev cur :: split_go sep s' (length sep - 1) []
          else split_go sep s' 0 (c :: cur)
      end
  end.

Definition split (sep s : str) : list str := split_go sep s 0 [].

(** [s.split()]: the maximal runs of non-space characters. *)
Fixpoint words_go (s : str) (cur : str) : list str :=
  match s with
  | [] => match cur with [] => [] | _ => [rev cur] end
  | c :: s' =>
      if is_space c
      then match cur with
           | [] => words_go s' []
           | _ => rev cur :: words_go s' []
           end
      else words_go s' (c :: cur)
  end.

Definition words (s : str) : list str := words_go s [].

(** [sep.join(l)] *)
Fixpoint join (sep : str) (l : list str) : str :=
  match l with
  | [] => []
  | [x] => x
  | x :: l' => x ++ sep ++ join sep l'
  end.

End Py.

Import Py.

Declare Scope py_scope.
Delimit Scope py_scope with py.
Notation "'$' s" := (lit s) (at level 1, s at level 0, format "'$' s") : py_scope.
Local Open Scope py_scope.

(** ** Region extraction ([api/nutrition.py], lines 50-63) *)

Module Region.

Definition region_keywords : list str :=
  [$"region"; $"state"; $"city"; $"district"; $"area"; $"from"; $"lives in"].

Definition unknown : str := $"unknown".

(** The [for keyword in region_keywords] loop.  Falling out of an [if]
    moves on to the next keyword; only a non-empty [region_words] reaches
    the [break]. *)
Fixpoint region_loop (keywords : list str) (query : str) : str :=
  match keywords with
  | [] => unknown
  | keyword :: rest =>
      if contains keyword (lower query) then
        let parts := split keyword (lower query) in
        if 1 <? length parts then
          let region_part := strip (nth 1 parts []) in
          let region_words := words region_part in
          match region_words with
          | [] => region_loop rest query
          | w0 :: more =>
              match more with
              | [] => w0
              | w1 :: _ => w0 ++ $" " ++ w1
              end
          end
        else region_loop rest query
      else region_loop rest query
  end.

Definition extract_region (query : str) : str :=
  region_loop region_keywords query.

End Region.

(** ** Regular expressions ([re]): a backtracking matcher

    The fragment of Python's [re] that the sources use: literals,
    character classes, greedy and lazy repetition of a one-character
    item, capturing groups, alternation, positive lookahead and [$].
    Matching is by backtracking with the priorities of [re]: the left
    alternative first, a greedy repetition longest first, a lazy one
    shortest first. *)

Module Re.

Inductive cls : Type :=
| Dot                       (* [.]  *)
| Space                     (* [\s] *)
| Digit                     (* [\d] *)
| Ch (c : ascii)            (* one literal character *)
| Not (k : cls)             (* [[^k]] *)
| Or (a b : cls).           (* [[ab]] *)

Inductive regex : Type :=
| Lit (l : str)                 (* literal text *)
| Star (k : cls)                (* [k*]  *)
| StarLazy (k : cls)            (* [k*?] *)
| Plus (k : cls)                (* [k+]  *)
| Cat (a b : regex)
| Alt (a b : regex)             (* [a|b] *)
| Group (n : nat) (a : regex)   (* the n-th capturing group *)
| Ahead (a : regex)             (* [(?=a)] *)
| Eos.                          (* [$] *)

Record flags : Type := { IGNORECASE : bool; DOTALL : bool }.

Definition newline : ascii := ascii_of_N 10.

Fixpoint in_cls (fl : flags) (k : cls) (c : ascii) : bool :=
  match k with
  | Dot => DOTALL fl || negb (eqc c newline)
  | Space => is_space c
  | Digit => is_digit c
  | Ch x => if IGNORECASE fl then eqc (lower_char x) (lower_char c) else eqc x c
  | Not k' => negb (in_cls fl k' c)
  | Or a b => in_cls fl a c || in_cls fl b c
  end.

(** The text after the literal [l] at the head of [s], if it is there. *)
Fixpoint eat (fl : flags) (l s : str) : option str :=
  match l, s with
  | [], _ => Some s
  | x :: l', c :: s' => if in_cls fl (Ch x) c then eat fl l' s' else None
  | _ :: _, [] => None
  end.

(** Captures: the text of each group that took part in the match. *)
Definition captures : Type := list (nat * str).

Fixpoint group (caps : captures) (n : nat) : option str :=
  match caps with
  | [] => None
  | (i, t) :: caps' => if Nat.eqb i n then Some t else group caps' n
  end.

(** [m.group(1)] of a match in which group 1 took part. *)
Definition group1 (caps : captures) : str :=
  match group caps 1 with Some t => t | None => [] end.

(** What was consumed between [s] and its suffix [s']. *)
Definition consumed (s s' : str) : str := firstn (length s - length s') s.

(** [$] without MULTILINE: the end of the text, or just before a final
    newline. *)
Definition at_end (s : str) : bool :=
  match s with
  | [] => true
  | [c] => eqc c newline
  | _ => false
  end.

Section Matcher.
Variable fl : flags.

Section Repeat.
Context {R : Type}.
Variable k : cls.
Variable cont : str -> option R.

Fixpoint greedy (s : str) : option R :=
  match s with
  | c :: s' =>
      if in_cls fl k c
      then match greedy s' with
           | Some r => Some r
           | None => cont s
           end
      else cont s
  | [] => cont s
  end.

Fixpoint lazy (s : str) : option R :=
  match cont s with
  | Some r => Some r
  | None =>
      match s with
      | c :: s' => if in_cls fl k c then lazy s' else None
      | [] => None
      end
  end.
End Repeat.

(** [exec a s caps cont]: match [a] at the head of [s], then hand the
    rest of the text and the captures to [cont]; on failure of [cont]
    the next alternative of [a] is tried. *)
Fixpoint exec (a : regex) {R : Type} (s : str) (caps : captures)
         (cont : str -> captures -> option R) : option R :=
  match a with
  | Lit l =>
      match eat fl l s with
      | Some s' => cont s' caps
      | None => None
      end
  | Star k => greedy k (fun s' => cont s' caps) s
  | StarLazy k => lazy k (fun s' => cont s' caps) s
  | Plus k =>
      match s with
      | c :: s' =>
          if in_cls fl k c then greedy k (fun s'' => cont s'' caps) s'
          else None
      | [] => None
      end
  | Cat a1 a2 => exec a1 s caps (fun s' caps' => exec a2 s' caps' cont)
  | Alt a1 a2 =>
      match exec a1 s caps cont with
      | Some r => Some r
      | None => exec a2 s caps cont
      end
  | Group n a1 =>
      exec a1 s caps (fun s' caps' => cont s' ((n, consumed s s') :: caps'))
  | Ahead a1 =>
      match exec a1 s caps (fun _ caps' => Some caps') with
      | Some caps' => cont s caps'
      | None => None
      end
  | Eos => if at_end s then cont s caps else None
  end.

(** A match anchored at the head of [s]: the captures and the rest. *)
Definition match_here (a : regex) (s : str) : option (captures * str) :=
  exec a s [] (fun s' caps => Some (caps, s')).

(** [re.search]: the match at the leftmost position that has one. *)
Fixpoint search (a : regex) (s : str) : option captures :=
  match match_here a s with
  | Some (caps, _) => Some caps
  | None =>
      match s with
      | [] => None
      | _ :: s' => search a s'
      end
  end.

(** The pair (group 1, group 2) of a match. *)
Definition pair_of (caps : captures) : str * str :=
  (match group caps 1 with Some t => t | None => [] end,
   match group caps 2 with Some t => t | None => [] end).

(** [re.findall] for a pattern with two groups: the pairs
    (group 1, group 2) of the successive non-overlapping matches, left to
    right.  [skip] counts the characters of the last match still to be
    passed over.  (The patterns of the sources never match the empty
    text; an empty match would move on by one character here.) *)
Fixpoint findall_go (a : regex) (s : str) (skip : nat) : list (str * str) :=
  match skip with
  | S n =>
      match s with
      | [] => []
      | _ :: s' => findall_go a s' n
      end
  | O =>
      match match_here a s with
      | Some (caps, rest) =>
          pair_of caps ::
          match s with
          | [] => []
          | _ :: s' => findall_go a s' (length s - length rest - 1)
          end
      | None =>
          match s with
          | [] => []
          | _ :: s' => findall_go a s' 0
          end
      end
  end.

Definition findall (a : regex) (s : str) : list (str * str) :=
  findall_go a s 0.
End Matcher.

End Re.

Import Re.

Declare Scope re_scope.
Delimit Scope re_scope with re.
Bind Scope re_scope with regex.
Infix ">>" := Cat (at level 61, right associativity) : re_scope.
Infix "<|>" := Alt (at level 71, right associativity) : re_scope.
Local Open Scope re_scope.

(** ** Python dictionaries

    A [dict] keeps its keys in insertion order; assigning to a key that is
    already there replaces the value and keeps the key's position. *)

Module Dict.

Definition dict (V : Type) : Type := list (str * V).

Section Ops.
Context {V : Type}.

Fixpoint get (d : dict V) (k : str) : option V :=
  match d with
  | [] => None
  | (k', v) :: d' => if eqs k' k then Some v else get d' k
  end.

(** [d[k] = v] *)
Fixpoint set (d : dict V) (k : str) (v : V) : dict V :=
  match d with
  | [] => [(k, v)]
  | (k', v') :: d' =>
      if eqs k' k then (k', v) :: d' else (k', v') :: set d' k v
  end.

(** [k in d] *)
Definition mem (k : str) (d : dict V) : bool :=
  match get d k with Some _ => true | None => false end.

Definition keys (d : dict V) : list str := map fst d.
End Ops.

End Dict.

(** ** Scheme-record parser ([api/search.py], [parse_health_scheme]) *)

Module Search.

Definition re_flags : flags := {| IGNORECASE := true; DOTALL := false |}.

(** [<Label>:\s*([^\n]+)] *)
Definition labelled (label : string) : regex :=
  Lit $label >> Star Space >> Group 1 (Plus (Not (Ch newline))).

Definition patterns : list (str * regex) :=
  [ ($"state",              labelled "State:");
    ($"description",        labelled "Description:");
    ($"eligibility",        labelled "Eligibility:");
    ($"how_to_apply",       labelled "How to Apply:");
    ($"benefits",           labelled "Benefits:");
    ($"documents_required", labelled "Documents Required:");
    ($"contact_info",       labelled "Contact:") ].

Definition is_empty (v : str) : bool :=
  match v with [] => true | _ => false end.

(** One round of [for key, pattern in patterns.items()]. *)
Definition apply_pattern (content : str) (structured_data : Dict.dict str)
           (kp : str * regex) : Dict.dict str :=
  match search re_flags (snd kp) content with
  | Some caps => Dict.set structured_data (fst kp) (strip (group1 caps))
  | None => structured_data
  end.

Definition parse_health_scheme (content : str) : Dict.dict str :=
  let structured_data : Dict.dict str :=
    [ ($"scheme_name", []); ($"state", []); ($"description", []);
      ($"eligibility", []); ($"how_to_apply", []); ($"benefits", []);
      ($"documents_required", []); ($"contact_info", []) ] in
  let lines := split [newline] (strip content) in
  let structured_data :=
    match lines with
    | [] => structured_data
    | line0 :: _ => Dict.set structured_data $"scheme_name" (strip line0)
    end in
  let structured_data :=
    fold_left (apply_pattern content) patterns structured_data in
  let structured_data :=
    if forallb
         (fun kv : str * str =>
            if negb (eqs (fst kv) $"scheme_name")
               && negb (eqs (fst kv) $"result_id")
            then is_empty (snd kv) else true)
         structured_data
    then Dict.set structured_data $"raw_content" content
    else structured_data in
  let cleaned_data :=
    filter (fun kv : str * str => negb (is_empty (snd kv))) structured_data in
  cleaned_data.

(** The seven labelled fields, and what the pattern of a field extracts
    from [content]: the stripped first capture, or the initial empty
    string when the pattern does not match. *)
Definition labelled_fields : list str := map fst patterns.

Definition extracted (content : str) (pattern : regex) : str :=
  match search re_flags pattern content with
  | Some caps => strip (group1 caps)
  | None => []
  end.

Definition raw_content : str := $"raw_content".

(** The dict after the pattern loop, written out, and the two closing
    steps applied to it. *)
Definition after_patterns (content : str) : Dict.dict str :=
  [ ($"scheme_name",
      match split [newline] (strip content) with
      | [] => []
      | line0 :: _ => strip line0
      end);
    ($"state",              extracted content (labelled "State:"));
    ($"description",        extracted content (labelled "Description:"));
    ($"eligibility",        extracted content (labelled "Eligibility:"));
    ($"how_to_apply",       extracted content (labelled "How to Apply:"));
    ($"benefits",           extracted content (labelled "Benefits:"));
    ($"documents_required", extracted content (labelled "Documents Required:"));
    ($"contact_info",       extracted content (labelled "Contact:")) ].

Definition finish (content : str) (structured_data : Dict.dict str) : Dict.dict str :=
  filter (fun kv : str * str => negb (is_empty (snd kv)))
    (if forallb
          (fun kv : str * str =>
             if negb (eqs (fst kv) $"scheme_name")
                && negb (eqs (fst kv) $"result_id")
             then is_empty (snd kv) else true)
          structured_data
     then Dict.set structured_data $"raw_content" content
     else structured_data).

(** Whether all seven labelled fields extracted empty. *)
Definition fields_empty (content : str) : bool :=
  forallb (fun kp : str * regex => is_empty (extracted content (snd kp))) patterns.

(** A label is recognised when its pattern matches somewhere. *)
Definition recognised (content : str) (pattern : regex) : bool :=
  match search re_flags pattern content with
  | Some _ => true
  | None => false
  end.

End Search.

(** ** JSON ([json.loads], [json.dumps])

    The decoder follows CPython's scanner: [raw_decode] between optional
    whitespace, strict strings (no raw control character), the number
    grammar, and the three non-standard constants.  A decoded object is a
    [dict]: a repeated key keeps its first position and its last value.
    Numbers are kept as their lexeme. *)

Module Json.

#[warnings="-register-all"]
Inductive value : Type :=
| Null
| Bool (b : bool)
| Num (lexeme : str)
| Str (s : str)
| Arr (items : list value)
| Obj (members : Dict.dict value).

(** Outcome of a scanning step: a result, a decode error, or the recursion
    budget ran out (which [loads] below never lets happen). *)
Inductive res (A : Type) : Type :=
| Done (a : A)
| Bad
| Out.
Arguments Done {A} a.
Arguments Bad {A}.
Arguments Out {A}.

Definition quote : ascii := ascii_of_N 34.
Definition backslash : ascii := ascii_of_N 92.

Definition is_ws (c : ascii) : bool :=
  let n := code c in ((n =? 32) || (n =? 9) || (n =? 10) || (n =? 13))%N.

Fixpoint skip_ws (s : str) : str :=
  match s with
  | c :: s' => if is_ws c then skip_ws s' else s
  | [] => []
  end.

Definition hex_val (c : ascii) : option N :=
  let n := code c in
  if ((48 <=? n) && (n <=? 57))%N then Some (n - 48)%N
  else if ((97 <=? n) && (n <=? 102))%N then Some (n - 87)%N
  else if ((65 <=? n) && (n <=? 70))%N then Some (n - 55)%N
  else None.

Definition hex4 (a b c d : ascii) : option N :=
  match hex_val a, hex_val b, hex_val c, hex_val d with
  | Some x, Some y, Some z, Some w => Some (((x * 16 + y) * 16 + z) * 16 + w)%N
  | _, _, _, _ => None
  end.

(** The UTF-8 bytes of a code point (a lone surrogate gets its three-byte
    form). *)
Definition utf8 (u : N) : str :=
  (if u <? 128 then [ascii_of_N u]
   else if u <? 2048 then
     [ascii_of_N (192 + u / 64); ascii_of_N (128 + u mod 64)]
   else if u <? 65536 then
     [ascii_of_N (224 + u / 4096); ascii_of_N (128 + (u / 64) mod 64);
      ascii_of_N (128 + u mod 64)]
   else
     [ascii_of_N (240 + u / 262144); ascii_of_N (128 + (u / 4096) mod 64);
      ascii_of_N (128 + (u / 64) mod 64); ascii_of_N (128 + u mod 64)])%N.

Definition is_high (u : N) : bool := ((55296 <=? u) && (u <=? 56319))%N.
Definition is_low (u : N) : bool := ((56320 <=? u) && (u <=? 57343))%N.
Definition join_surrogates (u u2 : N) : N :=
  (65536 + ((u - 55296) * 1024 + (u2 - 56320)))%N.

(** The one-character escapes: quote, backslash, slash, b, f, n, r, t. *)
Definition unescape (e : ascii) : option ascii :=
  let n := code e in
  (if n =? 34 then Some quote
   else if n =? 92 then Some backslash
   else if n =? 47 then Some e
   else if n =? 98 then Some (ascii_of_N 8)
   else if n =? 102 then Some (ascii_of_N 12)
   else if n =? 110 then Some (ascii_of_N 10)
   else if n =? 114 then Some (ascii_of_N 13)
   else if n =? 116 then Some (ascii_of_N 9)
   else None)%N.

Definition push (pre : str) (r : option (str * str)) : option (str * str) :=
  match r with
  | Some (t, rest) => Some (pre ++ t, rest)
  | None => None
  end.

(** [scanstring], entered after the opening quote: the decoded text and
    what follows the closing quote. *)
Fixpoint scanstring (s : str) : option (str * str) :=
  match s with
  | [] => None
  | c :: s1 =>
      if eqc c quote then Some ([], s1)
      else if eqc c backslash then
        match s1 with
        | [] => None
        | e :: s2 =>
            if eqc e (ascii_of_N 117) then
              match s2 with
              | h1 :: h2 :: h3 :: h4 :: s6 =>
                  match hex4 h1 h2 h3 h4 with
                  | None => None
                  | Some uni =>
                      if is_high uni then
                        match s6 with
                        | b :: u :: g1 :: g2 :: g3 :: g4 :: s12 =>
                            if eqc b backslash && eqc u (ascii_of_N 117) then
                              match hex4 g1 g2 g3 g4 with
                              | None => None
                              | Some uni2 =>
                                  if is_low uni2
                                  then push (utf8 (join_surrogates uni uni2))
                                            (scanstring s12)
                                  else push (utf8 uni) (scanstring s6)
                              end
                            else push (utf8 uni) (scanstring s6)
                        | _ => push (utf8 uni) (scanstring s6)
                        end
                      else push (utf8 uni) (scanstring s6)
                  end
              | _ => None
              end
            else
              match unescape e with
              | Some ch => push [ch] (scanstring s2)
              | None => None
              end
        end
      else if (code c <? 32)%N then None
      else push [c] (scanstring s1)
  end.

(** [NUMBER_RE]: an optional minus, then 0 or a digit string without a
    leading 0, then optionally a dot with digits, then optionally an
    exponent (e or E, an optional sign, digits).  An optional part that
    cannot be completed is left in the text. *)
Fixpoint digits (s : str) : str * str :=
  match s with
  | c :: s' =>
      if is_digit c then let (ds, rest) := digits s' in (c :: ds, rest)
      else ([], s)
  | [] => ([], [])
  end.

Definition int_part (s : str) : option (str * str) :=
  match s with
  | c :: s' =>
      if eqc c (ascii_of_N 48) then Some ([c], s')
      else if is_digit c then let (ds, rest) := digits s' in Some (c :: ds, rest)
      else None
  | [] => None
  end.

Definition frac_part (s : str) : str * str :=
  match s with
  | dot :: s' =>
      if eqc dot (ascii_of_N 46) then
        match digits s' with
        | ([], _) => ([], s)
        | (ds, rest) => (dot :: ds, rest)
        end
      else ([], s)
  | [] => ([], s)
  end.

Definition exp_part (s : str) : str * str :=
  match s with
  | e :: s' =>
      if eqc e (ascii_of_N 101) || eqc e (ascii_of_N 69) then
        let (sign, s'') :=
          match s' with
          | g :: t =>
              if eqc g (ascii_of_N 45) || eqc g (ascii_of_N 43)
              then ([g], t) else ([], s')
          | [] => ([], s')
          end in
        match digits s'' with
        | ([], _) => ([], s)
        | (ds, rest) => (e :: sign ++ ds, rest)
        end
      else ([], s)
  | [] => ([], s)
  end.

Definition match_number (s : str) : option (str * str) :=
  let (sign, s1) :=
    match s with
    | c :: t => if eqc c (ascii_of_N 45) then ([c], t) else ([], s)
    | [] => ([], s)
    end in
  match int_part s1 with
  | None => None
  | Some (i, s2) =>
      let (f, s3) := frac_part s2 in
      let (e, s4) := exp_part s3 in
      Some (sign ++ i ++ f ++ e, s4)
  end.

(** The constants, tried in the scanner's order around the number. *)
Definition keyword (w : string) (v : value) (s : str) : option (value * str) :=
  match eat {| IGNORECASE := false; DOTALL := false |} $w s with
  | Some rest => Some (v, rest)
  | None => None
  end.

Definition scan_atom (s : str) : option (value * str) :=
  match keyword "null" Null s with
  | Some r => Some r
  | None =>
  match keyword "true" (Bool true) s with
  | Some r => Some r
  | None =>
  match keyword "false" (Bool false) s with
  | Some r => Some r
  | None =>
  match match_number s with
  | Some (lexeme, rest) => Some (Num lexeme, rest)
  | None =>
  match keyword "NaN" (Num $"NaN") s with
  | Some r => Some r
  | None =>
  match keyword "Infinity" (Num $"Infinity") s with
  | Some r => Some r
  | None => keyword "-Infinity" (Num $"-Infinity") s
  end end end end end end.

(** [scan_once], [JSONObject] and [JSONArray].  [members] is entered after
    the opening quote of a key, [elements] at the start of an item. *)
Fixpoint scan_once (fuel : nat) (s : str) : res (value * str) :=
  match fuel with
  | O => Out
  | S fuel' =>
      match s with
      | [] => Bad
      | c :: s1 =>
          if eqc c quote then
            match scanstring s1 with
            | Some (t, rest) => Done (Str t, rest)
            | None => Bad
            end
          else if eqc c (ascii_of_N 123) then
            match skip_ws s1 with
            | c2 :: s2 =>
                if eqc c2 (ascii_of_N 125) then Done (Obj [], s2)
                else if eqc c2 quote then members fuel' s2 []
                else Bad
            | [] => Bad
            end
          else if eqc c (ascii_of_N 91) then
            match skip_ws s1 with
            | c2 :: s2 =>
                if eqc c2 (ascii_of_N 93) then Done (Arr [], s2)
                else elements fuel' (c2 :: s2) []
            | [] => Bad
            end
          else
            match scan_atom s with
            | Some r => Done r
            | None => Bad
            end
      end
  end

with members (fuel : nat) (s : str) (pairs : Dict.dict value)
  : res (value * str) :=
  match fuel with
  | O => Out
  | S fuel' =>
      match scanstring s with
      | None => Bad
      | Some (key, s1) =>
          match skip_ws s1 with
          | colon :: s2 =>
              if eqc colon (ascii_of_N 58) then
                match scan_once fuel' (skip_ws s2) with
                | Done (v, s3) =>
                    let pairs' := Dict.set pairs key v in
                    match skip_ws s3 with
                    | c :: s4 =>
                        if eqc c (ascii_of_N 125) then Done (Obj pairs', s4)
                        else if eqc c (ascii_of_N 44) then
                          match skip_ws s4 with
                          | q :: s5 =>
                              if eqc q quote then members fuel' s5 pairs'
                              else Bad
                          | [] => Bad
                          end
                        else Bad
                    | [] => Bad
                    end
                | Bad => Bad
                | Out => Out
                end
              else Bad
          | [] => Bad
          end
      end
  end

with elements (fuel : nat) (s : str) (values : list value)
  : res (value * str) :=
  match fuel with
  | O => Out
  | S fuel' =>
      match scan_once fuel' s with
      | Done (v, s1) =>
          let values' := values ++ [v] in
          match skip_ws s1 with
          | c :: s2 =>
              if eqc c (ascii_of_N 93) then Done (Arr values', s2)
              else if eqc c (ascii_of_N 44) then elements fuel' (skip_ws s2) values'
              else Bad
          | [] => Bad
          end
      | Bad => Bad
      | Out => Out
      end
  end.

Definition bom : str := [ascii_of_N 239; ascii_of_N 187; ascii_of_N 191].

(** [json.loads(s)]: [None] stands for [json.JSONDecodeError]. *)
Definition decode (fuel : nat) (s : str) : res value :=
  if startswith bom s then Bad
  else
    match scan_once fuel (skip_ws s) with
    | Done (v, rest) =>
        match skip_ws rest with
        | [] => Done v
        | _ :: _ => Bad
        end
    | Bad => Bad
    | Out => Out
    end.

Definition loads (s : str) : option value :=
  match decode (S (2 * length s)) s with
  | Done v => Some v
  | _ => None
  end.

End Json.

(** ** Exceptions and results *)

Inductive exn : Type :=
| ValueError
| TypeError
| AttributeError
| KeyError
| IndexError
| UpstreamError (tag : nat)    (* raised by a collaborator *)
| JSONDecodeError              (* [json.JSONDecodeError] *)
| RecursionError.

Inductive result (A : Type) : Type :=
| Return (a : A)
| Raise (e : exn).
Arguments Return {A} a.
Arguments Raise {A} e.

Definition bind {A B : Type} (r : result A) (f : A -> result B) : result B :=
  match r with
  | Return a => f a
  | Raise e => Raise e
  end.

Notation "'do' x <- r ; k" := (bind r (fun x => k))
  (at level 10, x name, r at level 100, k at level 200).

(** ** Diet-plan parser ([api/nutrition.py], lines 107-214) *)

Module Nutrition.

Import Json.

Definition COLLECTION_NAME : str := $"nutrition_data".

Record response : Type := {
  diet_plan : Dict.dict (Dict.dict value);
  region : str;
  note : option str
}.

Definition NOTE : str :=
  $"The diet plan could not be parsed as JSON and was manually structured.".

Definition not_specified : value := Str $"Not specified".

Definition default_day : Dict.dict value :=
  [ ($"breakfast", not_specified);
    ($"morning_snack", not_specified);
    ($"lunch", not_specified);
    ($"evening_snack", not_specified);
    ($"dinner", not_specified) ].

(** *** Stage 0: locating the JSON text *)

Definition json_flags : flags := {| IGNORECASE := false; DOTALL := true |}.

Definition fence : str := [ascii_of_N 96; ascii_of_N 96; ascii_of_N 96].

(** Three alternatives: a fence tagged json around group 1, a bare fence
    around group 2, and group 3 from the first opening brace to the last
    closing one. *)
Definition json_pattern : regex :=
  (Lit (fence ++ $"json") >> Star Space >> Group 1 (StarLazy Dot)
     >> Star Space >> Lit fence)
  <|> (Lit fence >> Star Space >> Group 2 (StarLazy Dot)
     >> Star Space >> Lit fence)
  <|> Group 3 (Lit $"{" >> Star Dot >> Lit $"}").

(** [for group in json_match.groups(): if group: ...; break] *)
Fixpoint first_truthy (groups : list (option str)) : option str :=
  match groups with
  | [] => None
  | Some (c :: t) :: _ => Some (c :: t)
  | _ :: rest => first_truthy rest
  end.

Definition extract_json (diet_plan_text : str) : str :=
  let diet_plan_text :=
    match search json_flags json_pattern diet_plan_text with
    | Some caps =>
        match first_truthy [group caps 1; group caps 2; group caps 3] with
        | Some g => g
        | None => diet_plan_text
        end
    | None => diet_plan_text
    end in
  let diet_plan_text := strip diet_plan_text in
  let diet_plan_text :=
    if negb (startswith $"{" diet_plan_text) then
      match find $"{" diet_plan_text with
      | Some start_idx => skipn start_idx diet_plan_text
      | None => diet_plan_text
      end
    else diet_plan_text in
  let diet_plan_text :=
    if negb (endswith $"}" diet_plan_text) then
      match rfind $"}" diet_plan_text with
      | Some end_idx => firstn (end_idx + 1) diet_plan_text
      | None => diet_plan_text
      end
    else diet_plan_text in
  diet_plan_text.

(** *** Stage 1: the decoded value *)

Definition value_eqb_str (v : value) (k : str) : bool :=
  match v with
  | Str s => eqs s k
  | _ => false
  end.

(** [day_key not in diet_plan_json] *)
Definition not_in (day_key : str) (diet_plan_json : value) : result bool :=
  match diet_plan_json with
  | Obj d => Return (negb (Dict.mem day_key d))
  | Arr l => Return (negb (existsb (fun v => value_eqb_str v day_key) l))
  | Str s => Return (negb (contains day_key s))
  | Null | Bool _ | Num _ => Raise TypeError
  end.

(** [diet_plan_json[day_key]], reached only when the key is in. *)
Definition subscript (diet_plan_json : value) (day_key : str) : result value :=
  match diet_plan_json with
  | Obj d =>
      match Dict.get d day_key with
      | Some v => Return v
      | None => Raise KeyError
      end
  | _ => Raise TypeError
  end.

(** [day_data.get(meal, "Not specified")]: only a dict has [get]. *)
Definition get_meal (day_data : value) (meal : str) : result value :=
  match day_data with
  | Obj d =>
      match Dict.get d meal with
      | Some v => Return v
      | None => Return not_specified
      end
  | _ => Raise AttributeError
  end.

Definition day_entry (day_data : value) : result (Dict.dict value) :=
  do b <- get_meal day_data $"breakfast";
  do ms <- get_meal day_data $"morning_snack";
  do l <- get_meal day_data $"lunch";
  do es <- get_meal day_data $"evening_snack";
  do d <- get_meal day_data $"dinner";
  Return [ ($"breakfast", b); ($"morning_snack", ms); ($"lunch", l);
           ($"evening_snack", es); ($"dinner", d) ].

(** [f"day{day_num}"] *)
Definition day_key_of (day_num : nat) : str :=
  $"day" ++ lit (NilZero.string_of_uint (Nat.to_uint day_num)).

(** [range(1, 8)] *)
Definition day_range : list nat := seq 1 7.

Fixpoint stage1_loop (days : list nat) (diet_plan_json : value)
         (structured_response : Dict.dict (Dict.dict value))
  : result (Dict.dict (Dict.dict value)) :=
  match days with
  | [] => Return structured_response
  | day_num :: rest =>
      let day_key := day_key_of day_num in
      do absent <- not_in day_key diet_plan_json;
      if absent then
        stage1_loop rest diet_plan_json
                    (Dict.set structured_response day_key default_day)
      else
        do day_data <- subscript diet_plan_json day_key;
        do entry <- day_entry day_data;
        stage1_loop rest diet_plan_json
                    (Dict.set structured_response day_key entry)
  end.

Definition stage1 (diet_plan_json : value) (region : str) : result response :=
  do structured_response <- stage1_loop day_range diet_plan_json [];
  Return {| diet_plan := structured_response; region := region; note := None |}.

(** *** Stages 2 and 3: the handler of [json.JSONDecodeError] *)

Definition re_flags : flags := {| IGNORECASE := true; DOTALL := true |}.

Definition sep : cls := Or (Ch ":") Space.

Definition day_patterns : list regex :=
  [ Lit $"Day " >> Group 1 (Plus Digit) >> Star sep >> Group 2 (StarLazy Dot)
      >> Ahead (Lit $"Day " >> Plus Digit <|> Eos);
    Lit $"day" >> Group 1 (Plus Digit) >> Star sep >> Group 2 (StarLazy Dot)
      >> Ahead (Lit $"day" >> Plus Digit <|> Eos);
    Lit $"DAY " >> Group 1 (Plus Digit) >> Star sep >> Group 2 (StarLazy Dot)
      >> Ahead (Lit $"DAY " >> Plus Digit <|> Eos) ].

Definition meal_patterns : list (str * regex) :=
  [ ($"breakfast",
      Lit $"breakfast" >> Star sep >> Group 1 (StarLazy Dot)
        >> Ahead (Lit $"lunch" <|> Lit $"dinner" <|> Lit $"snack" <|> Eos));
    ($"morning_snack",
      Lit $"morning snack" >> Star sep >> Group 1 (StarLazy Dot)
        >> Ahead (Lit $"lunch" <|> Lit $"dinner" <|> Lit $"breakfast"
                  <|> Lit $"evening" <|> Eos));
    ($"lunch",
      Lit $"lunch" >> Star sep >> Group 1 (StarLazy Dot)
        >> Ahead (Lit $"breakfast" <|> Lit $"dinner" <|> Lit $"snack" <|> Eos));
    ($"evening_snack",
      Lit $"evening snack" >> Star sep >> Group 1 (StarLazy Dot)
        >> Ahead (Lit $"breakfast" <|> Lit $"lunch" <|> Lit $"dinner"
                  <|> Lit $"morning" <|> Eos));
    ($"dinner",
      Lit $"dinner" >> Star sep >> Group 1 (StarLazy Dot)
        >> Ahead (Lit $"breakfast" <|> Lit $"lunch" <|> Lit $"snack" <|> Eos)) ].

(** One round of [for meal_key, meal_pattern in meal_patterns.items()]. *)
Definition apply_meal (day_content : str) (day_data : Dict.dict value)
           (kp : str * regex) : Dict.dict value :=
  match search re_flags (snd kp) day_content with
  | Some caps => Dict.set day_data (fst kp) (Str (strip (group1 caps)))
  | None => day_data
  end.

Definition parse_day (day_content : str) : Dict.dict value :=
  fold_left (apply_meal day_content) meal_patterns default_day.

(** One round of [for day_num, day_content in day_matches]. *)
Definition apply_day (structured_response : Dict.dict (Dict.dict value))
           (m : str * str) : Dict.dict (Dict.dict value) :=
  let day_key := $"day" ++ fst m in
  Dict.set structured_response day_key (parse_day (snd m)).

(** One round of [for pattern in day_patterns]: there is no [break]. *)
Definition apply_day_pattern (diet_plan_text : str)
           (structured_response : Dict.dict (Dict.dict value))
           (pattern : regex) : Dict.dict (Dict.dict value) :=
  let day_matches := findall re_flags pattern diet_plan_text in
  match day_matches with
  | [] => structured_response
  | _ :: _ => fold_left apply_day day_matches structured_response
  end.

Definition stage2 (diet_plan_text : str) : Dict.dict (Dict.dict value) :=
  fold_left (apply_day_pattern diet_plan_text) day_patterns [].

(** [if not structured_response: ...] *)
Definition stage3 (structured_response : Dict.dict (Dict.dict value))
  : Dict.dict (Dict.dict value) :=
  match structured_response with
  | [] => fold_left (fun sr day_num => Dict.set sr (day_key_of day_num) default_day)
                    day_range []
  | _ :: _ => structured_response
  end.

Definition fallback (diet_plan_text region : str) : response :=
  {| diet_plan := stage3 (stage2 diet_plan_text);
     region := region;
     note := Some NOTE |}.

(** From the model's reply to the returned mapping. *)
Definition parse_reply (reply region : str) : result response :=
  let diet_plan_text := extract_json reply in
  match loads diet_plan_text with
  | Some diet_plan_json => stage1 diet_plan_json region
  | None => Return (fallback diet_plan_text region)
  end.

End Nutrition.

(** ** The request around the parser ([get_nutrition_recommendation]) *)

Module Recommendation.

Import Nutrition.

(** The collaborators of one request: the environment, the vector store,
    the embedding of the query with the nearest payload texts, and the
    chat completion for the prompt built from the query, the retrieved
    texts and the region. *)
Record world : Type := {
  getenv : str -> option str;
  get_collections : result (list str);
  retrieve : str -> Z -> result (list str);
  chat : str -> str -> str -> result str
}.

(** [not os.getenv(name)] *)
Definition unset (w : world) (name : string) : bool :=
  match getenv w $name with
  | None => true
  | Some v => Search.is_empty v
  end.

(** Lines 19-107: everything up to the text of the completion. *)
Definition completion (w : world) (query : str) (limit : Z) : result str :=
  if unset w "QDRANT_URL" || unset w "QDRANT_API_KEY"
     || unset w "LLAMA_API_KEY" || unset w "E2E_NETWORKS_URL"
  then Raise ValueError
  else
    do collections <- get_collections w;
    let collection_exists :=
      existsb (fun name => eqs name COLLECTION_NAME) collections in
    if negb collection_exists then Raise ValueError
    else
      do nutrition_info <- retrieve w query limit;
      let combined_info := join [newline; newline] nutrition_info in
      let region := Region.extract_region query in
      chat w query combined_info region.

Definition get_nutrition_recommendation (w : world) (query : str) (limit : Z)
  : result response :=
  do diet_plan_text <- completion w query limit;
  parse_reply diet_plan_text (Region.extract_region query).

(** A world in which every collaborator answers and the model replies
    [reply]. *)
Definition answering (reply : str) : world :=
  {| getenv := fun _ => Some $"set";
     get_collections := Return [COLLECTION_NAME];
     retrieve := fun _ _ => Return [];
     chat := fun _ _ _ => Return reply |}.

End Recommendation.

(** ** The parser around [json.loads] as the interpreter runs it

    [Json.loads] is the decoder by its grammar alone.  CPython ends a
    decode in two more ways, neither of them a [json.JSONDecodeError]:
    with [RecursionError] when the interpreter runs out of levels of
    recursion, and with the [ValueError] of [int] on an integer literal of
    more digits than [sys.get_int_max_str_digits()].  In
    [get_nutrition_recommendation] both pass the handler of
    [json.JSONDecodeError] (line 161) and are raised again by the two
    [except Exception] handlers (lines 216-222). *)

Module Limits.

Import Json Nutrition Recommendation.

Section Parser.
(** [json.loads] with the exception it raises. *)
Variable json_loads : str -> result value.

(** Lines 107-222: [except json.JSONDecodeError] takes the fallback, any
    other exception is logged and raised again. *)
Definition parse_reply (reply region : str) : result response :=
  let diet_plan_text := extract_json reply in
  match json_loads diet_plan_text with
  | Return diet_plan_json => stage1 diet_plan_json region
  | Raise JSONDecodeError => Return (fallback diet_plan_text region)
  | Raise e => Raise e
  end.

Definition get_nutrition_recommendation (w : world) (query : str) (limit : Z)
  : result response :=
  do diet_plan_text <- completion w query limit;
  parse_reply diet_plan_text (Region.extract_region query).
End Parser.

(** The decoder by its grammar alone. *)
Definition by_grammar (s : str) : result value :=
  match Json.loads s with
  | Some v => Return v
  | None => Raise JSONDecodeError
  end.

(** *** The scanner of CPython with its levels of recursion

    Every array and every object is entered through
    [Py_EnterRecursiveCall], and so is the call of [parse_constant] for
    [NaN] and the infinities: each takes one level and raises
    [RecursionError] when none is left.  A syntax error found by the
    scanner is raised where it is found, by calling [JSONDecodeError];
    that call takes levels too, and ends in [RecursionError] when they
    are not there.  A place where no value starts is reported by
    [StopIteration], which [raw_decode] turns into the decode error one
    frame above the scanner; the check for text after the value is made
    by [decode], two frames above, the check for a byte order mark by
    [loads], three frames above. *)

Record interpreter : Type := {
  (** levels of recursion left when the scanner is entered: the
      recursion limit less the levels in use *)
  levels : nat;
  (** levels that raising a [JSONDecodeError] takes (3 in CPython 3.11) *)
  error_levels : nat;
  (** [sys.get_int_max_str_digits()]; 0 switches the limit off *)
  int_max_str_digits : nat
}.

(** Outcome of a scanning step: a result, [StopIteration],
    [json.JSONDecodeError], [RecursionError], the [ValueError] of [int],
    or the budget of the definition ran out (which [loads] below never
    lets happen). *)
Inductive res (A : Type) : Type :=
| Done (a : A)
| Stop
| Bad
| Deep
| Long
| Out.
Arguments Done {A} a.
Arguments Stop {A}.
Arguments Bad {A}.
Arguments Deep {A}.
Arguments Long {A}.
Arguments Out {A}.

(** Raising the decode error with [left] levels left. *)
Definition fail {A : Type} (py : interpreter) (left : nat) : res A :=
  if left <? error_levels py then Deep else Bad.

(** A number with a fraction or an exponent is converted by [float]. *)
Definition is_float (lexeme : str) : bool :=
  existsb (fun c => eqc c (ascii_of_N 46) || eqc c (ascii_of_N 101)
                    || eqc c (ascii_of_N 69)) lexeme.

Definition int_digits (lexeme : str) : nat := length (filter is_digit lexeme).

(** [int(lexeme)] refuses an integer literal over the limit. *)
Definition over_limit (py : interpreter) (lexeme : str) : bool :=
  negb (is_float lexeme)
  && (0 <? int_max_str_digits py)
  && (int_max_str_digits py <? int_digits lexeme).

Definition is_constant (lexeme : str) : bool :=
  eqs lexeme $"NaN" || eqs lexeme $"Infinity" || eqs lexeme $"-Infinity".

Definition scan_atom (py : interpreter) (depth : nat) (s : str)
  : res (value * str) :=
  match Json.scan_atom s with
  | Some (Num lexeme, rest) =>
      if is_constant lexeme then
        match depth with
        | O => Deep
        | S _ => Done (Num lexeme, rest)
        end
      else if over_limit py lexeme then Long
      else Done (Num lexeme, rest)
  | Some r => Done r
  | None => Stop
  end.

(** [scan_once], [JSONObject] and [JSONArray] as in [Json], with [depth]
    levels of recursion left: entering an array or an object takes one,
    before anything inside it is looked at. *)
Fixpoint scan_once (py : interpreter) (fuel depth : nat) (s : str)
  : res (value * str) :=
  match fuel with
  | O => Out
  | S fuel' =>
      match s with
      | [] => Stop
      | c :: s1 =>
          if eqc c quote then
            match scanstring s1 with
            | Some (t, rest) => Done (Str t, rest)
            | None => fail py depth
            end
          else if eqc c (ascii_of_N 123) then
            match depth with
            | O => Deep
            | S depth' =>
                match skip_ws s1 with
                | c2 :: s2 =>
                    if eqc c2 (ascii_of_N 125) then Done (Obj [], s2)
                    else if eqc c2 quote then members py fuel' depth' s2 []
                    else fail py depth'
                | [] => fail py depth'
                end
            end
          else if eqc c (ascii_of_N 91) then
            match depth with
            | O => Deep
            | S depth' =>
                match skip_ws s1 with
                | c2 :: s2 =>
                    if eqc c2 (ascii_of_N 93) then Done (Arr [], s2)
                    else elements py fuel' depth' (c2 :: s2) []
                | [] => Stop
                end
            end
          else scan_atom py depth s
      end
  end

with members (py : interpreter) (fuel depth : nat) (s : str)
             (pairs : Dict.dict value) : res (value * str) :=
  match fuel with
  | O => Out
  | S fuel' =>
      match scanstring s with
      | None => fail py depth
      | Some (key, s1) =>
          match skip_ws s1 with
          | colon :: s2 =>
              if eqc colon (ascii_of_N 58) then
                match scan_once py fuel' depth (skip_ws s2) with
                | Done (v, s3) =>
                    let pairs' := Dict.set pairs key v in
                    match skip_ws s3 with
                    | c :: s4 =>
                        if eqc c (ascii_of_N 125) then Done (Obj pairs', s4)
                        else if eqc c (ascii_of_N 44) then
                          match skip_ws s4 with
                          | q :: s5 =>
                              if eqc q quote then members py fuel' depth s5 pairs'
                              else fail py depth
                          | [] => fail py depth
                          end
                        else fail py depth
                    | [] => fail py depth
                    end
                | Stop => Stop
                | Bad => Bad
                | Deep => Deep
                | Long => Long
                | Out => Out
                end
              else fail py depth
          | [] => fail py depth
          end
      end
  end

with elements (py : interpreter) (fuel depth : nat) (s : str)
              (values : list value) : res (value * str) :=
  match fuel with
  | O => Out
  | S fuel' =>
      match scan_once py fuel' depth s with
      | Done (v, s1) =>
          let values' := values ++ [v] in
          match skip_ws s1 with
          | c :: s2 =>
              if eqc c (ascii_of_N 93) then Done (Arr values', s2)
              else if eqc c (ascii_of_N 44)
                   then elements py fuel' depth (skip_ws s2) values'
                   else fail py depth
          | [] => fail py depth
          end
      | Stop => Stop
      | Bad => Bad
      | Deep => Deep
      | Long => Long
      | Out => Out
      end
  end.

Definition decode (py : interpreter) (fuel : nat) (s : str) : res value :=
  if startswith bom s then fail py (levels py + 3)
  else
    match scan_once py fuel (levels py) (skip_ws s) with
    | Done (v, rest) =>
        match skip_ws rest with
        | [] => Done v
        | _ :: _ => fail py (levels py + 2)
        end
    | Stop => fail py (levels py + 1)
    | Bad => Bad
    | Deep => Deep
    | Long => Long
    | Out => Out
    end.

(** [json.loads(s)] in the interpreter [py]. *)
Definition loads (py : interpreter) (s : str) : result value :=
  match decode py (S (2 * length s)) s with
  | Done v => Return v
  | Deep => Raise RecursionError
  | Long => Raise ValueError
  | Stop | Bad | Out => Raise JSONDecodeError
  end.

(** What an outcome of this scanner says of the outcome of the scanner of
    the grammar: a result is the same result, a decode error is a decode
    error. *)
Definition refines {A : Type} (r : res A) (g : Json.res A) : Prop :=
  match r with
  | Done a => g = Json.Done a
  | Stop | Bad => g = Json.Bad
  | Out => g = Json.Out
  | Deep | Long => True
  end.

(** The settings CPython 3.11 starts with: a recursion limit of 1000,
    the most that can be left of it, and 4300 digits. *)
Definition cpython : interpreter :=
  {| levels := 1000; error_levels := 3; int_max_str_digits := 4300 |}.

(** Replies of the model: 1200 opening brackets; and an object whose
    first day is an integer of 4301 digits. *)
Definition deep_reply : str := repeat (ascii_of_N 91) 1200.

Definition long_int_reply : str :=
  $"{" ++ [quote] ++ $"day1" ++ [quote] ++ $": "
    ++ repeat (ascii_of_N 49) 4301 ++ $"}".

End Limits.

(** ** Embedding provider ([api/embedding_utils.py], [EmbeddingModel.encode]) *)

Module Embedding.

Section Encode.
(** The tokenizer output, the model output and the embedding vectors are
    opaque; pooling, normalisation and the conversion to lists are one
    step. *)
Variables encoded_input model_output vector : Type.
Variable tokenizer : list str -> result encoded_input.
Variable model : encoded_input -> result model_output.
Variable pool : model_output -> encoded_input -> result (list vector).

(** The calls made on the tokenizer and on the model, in order. *)
Inductive call : Type :=
| Tokenize (batch : list str)
| Forward (input : encoded_input).

Definition M (A : Type) : Type := list call -> result A * list call.

Definition ret {A : Type} (a : A) : M A := fun log => (Return a, log).
Definition raise {A : Type} (e : exn) : M A := fun log => (Raise e, log).
Definition mbind {A B : Type} (m : M A) (f : A -> M B) : M B :=
  fun log =>
    match m log with
    | (Return a, log') => f a log'
    | (Raise e, log') => (Raise e, log')
    end.
Definition lift {A : Type} (r : result A) : M A := fun log => (r, log).
Definition tell (c : call) : M unit := fun log => (Return tt, log ++ [c]).

(** The body of the [for i in range(0, len(sentences), batch_size)] loop
    for one batch. *)
Definition encode_batch (batch : list str) : M (list vector) :=
  mbind (tell (Tokenize batch)) (fun _ =>
  mbind (lift (tokenizer batch)) (fun encoded =>
  mbind (tell (Forward encoded)) (fun _ =>
  mbind (lift (model encoded)) (fun output =>
  lift (pool output encoded))))).

(** The loop over the batches of [rest]; [fuel] bounds the number of
    batches, and a positive [batch_size] consumes one sentence at least
    per round. *)
Fixpoint encode_loop (fuel : nat) (batch_size : nat) (rest : list str)
         (all_embeddings : list vector) : M (list vector) :=
  match fuel, rest with
  | _, [] => ret all_embeddings
  | O, _ :: _ => ret all_embeddings
  | S fuel', _ :: _ =>
      mbind (encode_batch (firstn batch_size rest)) (fun sentence_embeddings =>
      encode_loop fuel' batch_size (skipn batch_size rest)
                  (all_embeddings ++ sentence_embeddings))
  end.

Definition encode (sentences : list str) (batch_size : Z) : M (list vector) :=
  match sentences with
  | [] => ret []
  | _ :: _ =>
      if (batch_size =? 0)%Z then raise ValueError        (* [range] step 0 *)
      else if (batch_size <? 0)%Z then ret []             (* empty [range] *)
      else encode_loop (length sentences) (Z.to_nat batch_size) sentences []
  end.
End Encode.

End Embedding.

(** ** PDF ingestion ([api/pdf_upload.py], [process_pdf]) *)

Module Ingest.

Record page : Type := {
  page_content : str;
  page_index : option Z           (* [metadata.get("page", 0)] *)
}.

Record chunk : Type := {
  text : str;
  source : str;
  page_no : Z;
  chunk_no : Z
}.

Record upload_file : Type := {
  filename : str;
  read : result str
}.

Record response : Type := {
  status : str;
  message : str;
  chunks_count : option nat
}.

Section Process.
Variable vector : Type.

(** The collaborators of one upload. *)
Record world : Type := {
  getenv : str -> option str;
  int_of : str -> result Z;
  get_collections : result (list str);
  create_collection : str -> result unit;
  get_embedding_model : result unit;
  write_temp : str -> result unit;
  load : str -> result (list page);
  split_text : Z -> Z -> str -> result (list str);
  encode : list str -> result (list vector);
  upsert : str -> list (vector * chunk) -> result unit
}.

(** The writes asked of the vector store, and whether the temporary file
    is on disk. *)
Inductive store_call : Type :=
| CreateCollection (name : str)
| Upsert (name : str) (points : list (vector * chunk)).

Record state : Type := {
  store_calls : list store_call;
  temp_file : bool
}.

Definition M (A : Type) : Type := state -> result A * state.

Definition ret {A : Type} (a : A) : M A := fun st => (Return a, st).
Definition raise {A : Type} (e : exn) : M A := fun st => (Raise e, st).
Definition mbind {A B : Type} (m : M A) (f : A -> M B) : M B :=
  fun st =>
    match m st with
    | (Return a, st') => f a st'
    | (Raise e, st') => (Raise e, st')
    end.
Definition lift {A : Type} (r : result A) : M A := fun st => (r, st).

Definition store (c : store_call) : M unit :=
  fun st => (Return tt, {| store_calls := store_calls st ++ [c];
                           temp_file := temp_file st |}).
Definition set_temp (b : bool) : M unit :=
  fun st => (Return tt, {| store_calls := store_calls st; temp_file := b |}).

(** [try: body finally: fin] *)
Definition try_finally {A : Type} (body : M A) (fin : M unit) : M A :=
  fun st =>
    match body st with
    | (r, st') =>
        match fin st' with
        | (Return _, st'') => (r, st'')
        | (Raise e, st'') => (Raise e, st'')
        end
    end.

Notation "x <- m ;; k" := (mbind m (fun x => k))
  (at level 61, m at next level, right associativity).
Notation "m ;;; k" := (mbind m (fun _ => k))
  (at level 61, right associativity).

Definition unset (w : world) (name : string) : bool :=
  match getenv w $name with
  | None => true
  | Some v => Search.is_empty v
  end.

Definition getenv_default (w : world) (name default : string) : str :=
  match getenv w $name with
  | Some v => v
  | None => $default
  end.

Definition nat_str (n : nat) : str := lit (NilZero.string_of_uint (Nat.to_uint n)).

(** The chunks of one page, numbered from 1. *)
Fixpoint page_chunks_from (i : Z) (file : upload_file) (p : page)
         (page_chunks : list str) : list chunk :=
  match page_chunks with
  | [] => []
  | c :: rest =>
      {| text := c;
         source := filename file;
         page_no := (match page_index p with Some n => n | None => 0 end) + 1;
         chunk_no := i + 1 |}
      :: page_chunks_from (i + 1) file p rest
  end.

Fixpoint collect_chunks (w : world) (chunk_size chunk_overlap : Z)
         (file : upload_file) (pages : list page) (chunks : list chunk)
  : M (list chunk) :=
  match pages with
  | [] => ret chunks
  | p :: rest =>
      page_chunks <- lift (split_text w chunk_size chunk_overlap (page_content p)) ;;
      collect_chunks w chunk_size chunk_overlap file rest
                     (chunks ++ page_chunks_from 0 file p page_chunks)
  end.

(** [embeddings[i]] paired with [chunks[i]] for every chunk. *)
Fixpoint make_points (embeddings : list vector) (chunks : list chunk)
  : result (list (vector * chunk)) :=
  match chunks with
  | [] => Return []
  | c :: chunks' =>
      match embeddings with
      | [] => Raise IndexError
      | e :: embeddings' =>
          match make_points embeddings' chunks' with
          | Return ps => Return ((e, c) :: ps)
          | Raise x => Raise x
          end
      end
  end.

(** The [try] block that follows the writing of the temporary file. *)
Definition process_loaded (w : world) (file : upload_file)
           (collection_name : str) (chunk_size chunk_overlap : Z)
           (content : str) : M response :=
  pages <- lift (load w content) ;;
  match pages with
  | [] =>
      ret {| status := $"warning";
             message := $"No content found in " ++ filename file ++ $".";
             chunks_count := None |}
  | _ :: _ =>
      chunks <- collect_chunks w chunk_size chunk_overlap file pages [] ;;
      match chunks with
      | [] =>
          ret {| status := $"warning";
                 message := $"No text chunks extracted from "
                              ++ filename file ++ $".";
                 chunks_count := None |}
      | _ :: _ =>
          embeddings <- lift (encode w (map text chunks)) ;;
          points <- lift (make_points embeddings chunks) ;;
          store (Upsert collection_name points) ;;;
          lift (upsert w collection_name points) ;;;
          ret {| status := $"success";
                 message := $"Uploaded " ++ nat_str (length points)
                              ++ $" chunks from " ++ filename file ++ $".";
                 chunks_count := Some (length points) |}
      end
  end.

Definition process_pdf (w : world) (file : upload_file)
           (collection_name : str) : M response :=
  if unset w "QDRANT_URL" || unset w "QDRANT_API_KEY" then raise ValueError
  else
    chunk_size <- lift (int_of w (getenv_default w "CHUNK_SIZE" "500")) ;;
    chunk_overlap <- lift (int_of w (getenv_default w "CHUNK_OVERLAP" "100")) ;;
    collections <- lift (get_collections w) ;;
    let collection_exists :=
      existsb (fun name => eqs name collection_name) collections in
    (if negb collection_exists then
       store (CreateCollection collection_name) ;;;
       lift (create_collection w collection_name)
     else ret tt) ;;;
    lift (get_embedding_model w) ;;;
    (* with tempfile.NamedTemporaryFile(delete=False, ...) as temp_file *)
    set_temp true ;;;
    content <- lift (read file) ;;
    lift (write_temp w content) ;;;
    try_finally
      (process_loaded w file collection_name chunk_size chunk_overlap content)
      (set_temp false).

(** [collection_name] is among the collections the store lists. *)
Definition listed (w : world) (collection_name : str) : bool :=
  match get_collections w with
  | Return collections =>
      existsb (fun name => eqs name collection_name) collections
  | Raise _ => false
  end.

(** Everything before the upload goes through: the configuration is
    there, the store answers (and creates the collection when it does not
    list it) and the model loads. *)
Definition reaches_upload (w : world) (collection_name : str) : Prop :=
  unset w "QDRANT_URL" = false /\ unset w "QDRANT_API_KEY" = false
  /\ (exists n, int_of w (getenv_default w "CHUNK_SIZE" "500") = Return n)
  /\ (exists n, int_of w (getenv_default w "CHUNK_OVERLAP" "100") = Return n)
  /\ (exists collections, get_collections w = Return collections)
  /\ (listed w collection_name = false ->
      create_collection w collection_name = Return tt)
  /\ get_embedding_model w = Return tt.

Definition is_upsert (c : store_call) : bool :=
  match c with
  | Upsert _ _ => true
  | CreateCollection _ => false
  end.
End Process.

Arguments CreateCollection {vector} name.
Arguments Upsert {vector} name points.

(** A store that lists [collections], with a loader that finds [pages] in
    any file; everything else answers. *)
Definition plain_world (collections : list str) (pages : list page) : world unit :=
  {| getenv := fun _ => Some $"configured";
     int_of := fun _ => Return 500%Z;
     get_collections := Return collections;
     create_collection := fun _ => Return tt;
     get_embedding_model := Return tt;
     write_temp := fun _ => Return tt;
     load := fun _ => Return pages;
     split_text := fun _ _ t => Return [t];
     encode := fun texts => Return (map (fun _ => tt) texts);
     upsert := fun _ _ => Return tt |}.

Definition leaflet : upload_file :=
  {| filename := $"leaflet.pdf"; read := Return $"%PDF-1.4" |}.

(** An upload whose [read] raises. *)
Definition broken_upload : upload_file :=
  {| filename := $"leaflet.pdf"; read := Raise (UpstreamError 1) |}.

Definition idle : state unit := {| store_calls := []; temp_file := false |}.

End Ingest.

(** ** JSON serialisation ([json.dumps] without ASCII escaping)

    The text a plan is sent back as: strings between quotes with the
    quote, the backslash and the control characters escaped, members
    separated by [item_sep] and keys from values by [key_sep]. *)

Module Dumps.

Import Json.

Definition hex_digit (n : N) : ascii :=
  (if n <? 10 then ascii_of_N (48 + n) else ascii_of_N (87 + n))%N.

Definition escape_char (c : ascii) : str :=
  let n := code c in
  (if n =? 34 then [backslash; quote]
   else if n =? 92 then [backslash; backslash]
   else if n =? 10 then [backslash; ascii_of_N 110]
   else if n =? 13 then [backslash; ascii_of_N 114]
   else if n =? 9 then [backslash; ascii_of_N 116]
   else if n =? 8 then [backslash; ascii_of_N 98]
   else if n =? 12 then [backslash; ascii_of_N 102]
   else if n <? 32 then
     [backslash; ascii_of_N 117; ascii_of_N 48; ascii_of_N 48;
      hex_digit (n / 16); hex_digit (n mod 16)]
   else [c])%N.

Definition encode_str (s : str) : str :=
  quote :: flat_map escape_char s ++ [quote].

Section Separators.
Variables item_sep key_sep : str.

Fixpoint dumps_with (v : value) : str :=
  match v with
  | Null => $"null"
  | Bool true => $"true"
  | Bool false => $"false"
  | Num lexeme => lexeme
  | Str s => encode_str s
  | Arr items => $"[" ++ join item_sep (map dumps_with items) ++ $"]"
  | Obj members =>
      $"{" ++ join item_sep
                (map (fun kv => encode_str (fst kv) ++ key_sep ++ dumps_with (snd kv))
                     members)
           ++ $"}"
  end.

(** One member of an object, and the members after the first, each
    behind its separator. *)
Definition item (kv : str * value) : str :=
  encode_str (fst kv) ++ key_sep ++ dumps_with (snd kv).

Definition more_items (ms : Dict.dict value) : str :=
  flat_map (fun kv => item_sep ++ item kv) ms.
End Separators.

(** [json.dumps(v, ensure_ascii=False)] *)
Definition dumps : value -> str := dumps_with $", " $": ".

(** The compact form of a served response, separators [(",", ":")]. *)
Definition dumps_compact : value -> str := dumps_with $"," $":".

End Dumps.

(** ** Vocabulary of the stated properties *)

Module Vocabulary.

Import Json Nutrition.

(** [day1] .. [day7] and the five meal slots. *)
Definition day_keys : list str := map day_key_of day_range.

Definition meal_keys : list str :=
  [$"breakfast"; $"morning_snack"; $"lunch"; $"evening_snack"; $"dinner"].

(** A dict whose keys are exactly [ks]. *)
Definition has_exactly {V : Type} (ks : list str) (d : Dict.dict V) : Prop :=
  NoDup (Dict.keys d) /\ forall k, In k (Dict.keys d) <-> In k ks.

(** A schema-valid plan: the seven days, each with the five meals, each
    meal a string. *)
Definition schema_valid (P : Dict.dict (Dict.dict value)) : Prop :=
  has_exactly day_keys P /\
  forall k day, In (k, day) P ->
    has_exactly meal_keys day /\
    forall m v, In (m, v) day -> exists s, v = Str s.

(** Equality of dicts as Python compares them: the same keys with the same
    values, whatever the order. *)
Definition same_dict {V : Type} (d1 d2 : Dict.dict V) : Prop :=
  forall k, Dict.get d1 k = Dict.get d2 k.

Definition same_plan (P Q : Dict.dict (Dict.dict value)) : Prop :=
  forall k,
    match Dict.get P k, Dict.get Q k with
    | Some a, Some b => same_dict a b
    | None, None => True
    | _, _ => False
    end.

(** The plan as the JSON value that is serialised. *)
Definition plan_value (P : Dict.dict (Dict.dict value)) : value :=
  Obj (map (fun kv => (fst kv, Obj (snd kv))) P).

(** Stage 1 on a text: the strict decode, then the structuring loop. *)
Definition strict_parse (text region : str) : option (result response) :=
  match loads text with
  | Some diet_plan_json => Some (stage1 diet_plan_json region)
  | None => None
  end.

(** JSON whitespace only, and a separator: the character [c] with
    optional whitespace around it. *)
Definition blank (s : str) : Prop := Forall (fun c => is_ws c = true) s.

Definition separator (c : ascii) (sep : str) : Prop :=
  exists a b, blank a /\ blank b /\ sep = a ++ c :: b.

(** The entry Stage 1 builds from a decoded day. *)
Definition canon (day : Dict.dict value) : Dict.dict value :=
  map (fun m => (m, match Dict.get day m with
                    | Some v => v
                    | None => not_specified
                    end)) meal_keys.

(** The decoded day under the key of day [n]. *)
Definition day_of (top : Dict.dict value) (n : nat) : Dict.dict value :=
  match Dict.get top (day_key_of n) with
  | Some (Obj d) => d
  | _ => []
  end.

(** A plan whose breakfasts hold a quote, a line break and a backslash. *)
Definition sample_plan : Dict.dict (Dict.dict value) :=
  map (fun k =>
         (k, [ ($"breakfast", Str ($"Idli, " ++ [quote] ++ $"soft" ++ [quote]
                                     ++ [newline; backslash]));
               ($"morning_snack", Str $"Fruit");
               ($"lunch", Str $"Dal rice");
               ($"evening_snack", not_specified);
               ($"dinner", Str $"Roti") ]))
      day_keys.

(** Replies of the model: a fenced JSON object with one meal of one day;
    an object whose first breakfast is [null]; an object whose first day
    is a number; and prose that names one day. *)
Definition idli_reply : str :=
  fence ++ $"json" ++ [newline]
    ++ Dumps.dumps_compact (Obj [($"day1", Obj [($"breakfast", Str $"Idli")])])
    ++ [newline] ++ fence.

Definition null_breakfast_reply : str :=
  Dumps.dumps (Obj [($"day1", Obj [($"breakfast", Null)])]).

Definition number_day_reply : str :=
  Dumps.dumps (Obj [($"day1", Num $"5")]).

Definition prose_reply : str := $"Day 1: Breakfast: Poha. Lunch: Dal rice.".

(** [text] is scanned back to [v] with a recursion budget of [n]. *)
Definition scans (n : nat) (v : value) (text : str) : Prop :=
  (exists c t, text = c :: t /\ is_ws c = false)
  /\ forall fuel rest, n <= fuel -> scan_once fuel (text ++ rest) = Done (v, rest).

(** Stage 2 as the specification words it: the variants in order, stopping
    after the first one that yields any match. *)
Fixpoint stage2_first_variant_only (diet_plan_text : str) (patterns : list regex)
  : Dict.dict (Dict.dict value) :=
  match patterns with
  | [] => []
  | pattern :: rest =>
      match findall re_flags pattern diet_plan_text with
      | [] => stage2_first_variant_only diet_plan_text rest
      | m :: ms => fold_left apply_day (m :: ms) []
      end
  end.

(** Every match of every variant, in the order of the writes. *)
Definition all_day_matches (diet_plan_text : str) : list (str * str) :=
  flat_map (fun pattern => findall re_flags pattern diet_plan_text) day_patterns.

(** The value of a last write to [k] among [writes], if any. *)
Fixpoint last_write (k : str) (writes : list (str * str)) : option (Dict.dict value) :=
  match writes with
  | [] => None
  | m :: rest =>
      match last_write k rest with
      | Some d => Some d
      | None => if eqs ($"day" ++ fst m) k then Some (parse_day (snd m)) else None
      end
  end.

(** Region extraction: the tokens that follow [keyword] in the case-folded
    query, from the piece after its first occurrence. *)
Definition tokens_after (keyword query : str) : list str :=
  words (strip (nth 1 (split keyword (lower query)) [])).

Definition occurs (keyword query : str) : bool := contains keyword (lower query).

(** The first keyword of the list that occurs in the query. *)
Definition first_occurring (query : str) : option str :=
  List.find (fun keyword => occurs keyword query) Region.region_keywords.

(** The first keyword of the list that occurs and is followed by a token. *)
Definition first_supplying (query : str) : option str :=
  List.find (fun keyword =>
               occurs keyword query
               && negb (match tokens_after keyword query with
                        | [] => true
                        | _ => false
                        end))
            Region.region_keywords.

(** One or two tokens, joined by a space. *)
Definition one_or_two (tokens : list str) : str := join $" " (firstn 2 tokens).

End Vocabulary.

(** ** Scheme search ([api/search.py], [semantic_search]) *)

Module SemanticSearch.

(** What the request reads of a hit: the [text] entry of its payload, if
    the payload has one.  Payload texts are strings, as ingestion writes
    them. *)
Record hit : Type := { text : option str }.

(** A value of a formatted result: a parsed field or the result number. *)
Inductive field : Type :=
| Text (s : str)
| Int (n : Z).

Section Search.
Variable vector : Type.

(** The collaborators of one search. *)
Record world : Type := {
  getenv : str -> option str;
  get_collections : result (list str);
  get_embedding_model : result unit;
  encode : list str -> result (list vector);
  search : str -> vector -> Z -> result (list hit)
}.

Definition unset (w : world) (name : string) : bool :=
  match getenv w $name with
  | None => true
  | Some v => Search.is_empty v
  end.

(** The [text] of the payload, the empty string when it has none. *)
Definition content_of (res : hit) : str :=
  match text res with
  | Some t => t
  | None => []
  end.

(** One round of [for i, res in enumerate(results)]. *)
Definition format_result (i : Z) (res : hit) : Dict.dict field :=
  let content := content_of res in
  let structured_data :=
    map (fun kv => (fst kv, Text (snd kv))) (Search.parse_health_scheme content) in
  Dict.set structured_data $"result_id" (Int (i + 1)).

Fixpoint format_results (i : Z) (results : list hit)
         (formatted_results : list (Dict.dict field)) : list (Dict.dict field) :=
  match results with
  | [] => formatted_results
  | res :: rest =>
      format_results (i + 1) rest (formatted_results ++ [format_result i res])
  end.

(** The list under the key [results] of the returned mapping. *)
Definition semantic_search (w : world) (query collection_name : str) (limit : Z)
  : result (list (Dict.dict field)) :=
  if unset w "QDRANT_URL" || unset w "QDRANT_API_KEY" then Raise ValueError
  else
    do collections <- get_collections w;
    let collection_exists :=
      existsb (fun name => eqs name collection_name) collections in
    if negb collection_exists then Raise ValueError
    else
      do _ <- get_embedding_model w;
      do vectors <- encode w [query];
      match vectors with
      | [] => Raise IndexError
      | query_vector :: _ =>
          do results <- search w collection_name query_vector limit;
          Return (format_results 0 results [])
      end.
End Search.

(** A store that lists [collections] and answers every search with
    [hits]. *)
Definition serving (collections : list str) (hits : list hit) : world unit :=
  {| getenv := fun _ => Some $"configured";
     get_collections := Return collections;
     get_embedding_model := Return tt;
     encode := fun texts => Return (map (fun _ => tt) texts);
     search := fun _ _ _ => Return hits |}.

End SemanticSearch.

(** ** The shared embedding model ([api/embedding_utils.py],
    [EmbeddingModel.__init__], [get_embedding_model]) *)

Module Loader.

Section Loader.
Variables tokenizer_t model_t : Type.

(** What one construction finds: the model directory, the two loads, the
    device and the move of the model to it. *)
Record disk : Type := {
  model_dir_exists : bool;
  tokenizer_from_pretrained : result tokenizer_t;
  model_from_pretrained : result model_t;
  cuda_is_available : bool;
  to_device : model_t -> bool -> result unit
}.

Record EmbeddingModel : Type := {
  tokenizer : tokenizer_t;
  model : model_t;
  cuda : bool
}.

Inductive load_error : Type :=
| FileNotFoundError
| Failed (e : exn).

Definition lifted {A : Type} (r : result A) : A + load_error :=
  match r with
  | Return a => inl a
  | Raise e => inr (Failed e)
  end.

(** [EmbeddingModel.__init__] *)
Definition init (d : disk) : EmbeddingModel + load_error :=
  if negb (model_dir_exists d) then inr FileNotFoundError
  else
    match lifted (tokenizer_from_pretrained d) with
    | inr e => inr e
    | inl tok =>
        match lifted (model_from_pretrained d) with
        | inr e => inr e
        | inl m =>
            let device := cuda_is_available d in
            match lifted (to_device d m device) with
            | inr e => inr e
            | inl _ => inl {| tokenizer := tok; model := m; cuda := device |}
            end
        end
    end.

(** [get_embedding_model], on the module-level variable
    [embedding_model]: the answer and the variable afterwards. *)
Definition get_embedding_model (d : disk) (embedding_model : option EmbeddingModel)
  : (EmbeddingModel + load_error) * option EmbeddingModel :=
  match embedding_model with
  | None =>
      match init d with
      | inl instance => (inl instance, Some instance)
      | inr e => (inr e, None)
      end
  | Some instance => (inl instance, Some instance)
  end.

(** Successive calls, each with the disk as it is at that time. *)
Fixpoint serve (disks : list disk) (embedding_model : option EmbeddingModel)
  : list (EmbeddingModel + load_error) * option EmbeddingModel :=
  match disks with
  | [] => ([], embedding_model)
  | d :: rest =>
      let (answer, embedding_model') := get_embedding_model d embedding_model in
      let (answers, final) := serve rest embedding_model' in
      (answer :: answers, final)
  end.
End Loader.

(** A disk without the model directory, and one on which everything
    loads. *)
Definition missing : disk nat nat :=
  {| model_dir_exists := false;
     tokenizer_from_pretrained := Return 1;
     model_from_pretrained := Return 2;
     cuda_is_available := false;
     to_device := fun _ _ => Return tt |}.

Definition installed : disk nat nat :=
  {| model_dir_exists := true;
     tokenizer_from_pretrained := Return 1;
     model_from_pretrained := Return 2;
     cuda_is_available := false;
     to_device := fun _ _ => Return tt |}.

End Loader.

(** ** Loggers ([api/logging_utils.py], [setup_logger]) *)

Module Logging.

Inductive handler : Type :=
| FileHandler (filename : str)
| StreamHandler.

Definition INFO : N := 20.

Record logger : Type := {
  level : option N;
  handlers : list handler
}.

(** The loggers [logging.getLogger] knows, and the files opened by the
    file handlers constructed so far. *)
Record logging : Type := {
  loggers : Dict.dict logger;
  opened : list str
}.

(** [logging.getLogger(name)]: a logger is created on first use, with no
    level of its own and no handler. *)
Definition getLogger (name : str) (lg : logging) : logger :=
  match Dict.get (loggers lg) name with
  | Some l => l
  | None => {| level := None; handlers := [] |}
  end.

(** [setup_logger(name)] on the day [today] (the text of
    [datetime.now().strftime('%Y-%m-%d')]). *)
Definition setup_logger (today name : str) (lg : logging) : logging :=
  let l := getLogger name lg in
  let l := {| level := Some INFO; handlers := handlers l |} in
  let log_filename := $"logs/" ++ today ++ $".log" in
  let file_handler := FileHandler log_filename in
  let console_handler := StreamHandler in
  let l :=
    match handlers l with
    | [] => {| level := level l; handlers := [file_handler; console_handler] |}
    | _ :: _ => l
    end in
  {| loggers := Dict.set (loggers lg) name l;
     opened := opened lg ++ [log_filename] |}.

(** Successive calls, each with its day and the name asked for. *)
Definition setup_all (calls : list (str * str)) (lg : logging) : logging :=
  fold_left (fun lg call => setup_logger (fst call) (snd call) lg) calls lg.

End Logging.

(** ** The upload endpoint ([app.py], [upload_pdf_endpoint]) *)

Module App.

(** What the endpoint hands back to the framework: a mapping, or an
    [HTTPException]. *)
Inductive answer (A : Type) : Type :=
| Ok (a : A)
| HTTPException (status_code : Z) (detail : str).
Arguments Ok {A} a.
Arguments HTTPException {A} status_code detail.

Section Upload.
Variable vector : Type.
(** [str(e)] *)
Variable str_of : exn -> str.

Definition upload_pdf_endpoint (w : Ingest.world vector) (file : Ingest.upload_file)
           (collection_name : str) (st : Ingest.state vector)
  : answer Ingest.response * Ingest.state vector :=
  if negb (endswith $".pdf" (Ingest.filename file)) then
    (HTTPException 400 $"Only PDF files are supported", st)
  else
    match Ingest.process_pdf vector w file collection_name st with
    | (Return result, st') => (Ok result, st')
    | (Raise e, st') => (HTTPException 500 (str_of e), st')
    end.
End Upload.

End App.

(** ** Vocabulary of the further properties *)

Module Shapes.

Import Json Nutrition Vocabulary.

(** A token of a region: non-empty, without white space, without an
    upper-case ASCII letter. *)
Definition region_char (c : ascii) : Prop :=
  is_space c = false /\ lower_char c = c.

Definition token (w : str) : Prop := w <> [] /\ Forall region_char w.

(** A key of the fallback plan: [day] followed by decimal digits. *)
Definition day_label (k : str) : Prop :=
  exists ds, k = $"day" ++ ds /\ ds <> [] /\ Forall (fun c => is_digit c = true) ds.

(** A meal of the fallback plan: a string without white space around it. *)
Definition meal_text (v : value) : Prop := exists s, v = Str s /\ strip s = s.

(** The value of a labelled field: one line, without white space around
    it, not empty. *)
Definition one_line (v : str) : Prop :=
  v <> [] /\ strip v = v /\ ~ In newline v.

(** The names a scheme record can hold, in the order of the record. *)
Definition record_keys : list str :=
  $"scheme_name" :: Search.labelled_fields ++ [Search.raw_content].

(** The batches handed to the tokenizer, in the order of the calls. *)
Definition tokenized {encoded_input : Type}
           (log : list (Embedding.call encoded_input)) : list (list str) :=
  flat_map (fun c => match c with
                     | Embedding.Tokenize _ batch => [batch]
                     | Embedding.Forward _ _ => []
                     end) log.

(** The character of a code fence. *)
Definition backtick : ascii := ascii_of_N 96.

(** One batch goes through the tokenizer, the model and the pooling. *)
Definition encoded {encoded_input model_output vector : Type}
           (tokenizer : list str -> result encoded_input)
           (model : encoded_input -> result model_output)
           (pool : model_output -> encoded_input -> result (list vector))
           (batch : list str) (embeddings : list vector) : Prop :=
  exists input output,
    tokenizer batch = Return input
    /\ model input = Return output
    /\ pool output input = Return embeddings.

(** [s.isascii()] *)
Definition isascii (s : str) : bool := forallb (fun c => (code c <? 128)%N) s.

(** The group [n] is not captured inside [a]. *)
Fixpoint no_group (n : nat) (a : regex) : bool :=
  match a with
  | Lit _ | Star _ | StarLazy _ | Plus _ | Eos => true
  | Cat a1 a2 | Alt a1 a2 => no_group n a1 && no_group n a2
  | Group m a1 => negb (Nat.eqb m n) && no_group n a1
  | Ahead a1 => no_group n a1
  end.

End Shapes.

(** * Properties *)

(** ** Strings and dicts *)

Module PyFacts.

Lemma eqc_refl (c : ascii) : eqc c c = true.
Proof. apply Ascii.eqb_refl. Qed.

Lemma eqc_eq (a b : ascii) : eqc a b = true <-> a = b.
Proof. apply Ascii.eqb_eq. Qed.

Lemma eqs_eq (a b : str) : eqs a b = true <-> a = b.
Proof.
  revert b; induction a as [|x a IH]; intros [|y b]; simpl; split;
    try discriminate; try reflexivity.
  - intros H. apply andb_true_iff in H as [Hx Ha].
    apply eqc_eq in Hx. apply IH in Ha. now subst.
  - intros H. injection H as -> ->. now rewrite eqc_refl, (proj2 (IH b)).
Qed.

Lemma eqs_refl (a : str) : eqs a a = true.
Proof. now apply eqs_eq. Qed.

Lemma eqs_neq (a b : str) : eqs a b = false <-> a <> b.
Proof.
  split.
  - intros H E. apply eqs_eq in E. congruence.
  - intros H. destruct (eqs a b) eqn:E; [apply eqs_eq in E; contradiction | reflexivity].
Qed.

Lemma eqs_sym (a b : str) : eqs a b = eqs b a.
Proof.
  destruct (eqs a b) eqn:E1, (eqs b a) eqn:E2; try reflexivity.
  - apply eqs_eq in E1. subst. now rewrite eqs_refl in E2.
  - apply eqs_eq in E2. subst. now rewrite eqs_refl in E1.
Qed.

Lemma startswith_app (p s : str) : startswith p (p ++ s) = true.
Proof. induction p as [|c p IH]; simpl; [reflexivity | now rewrite eqc_refl]. Qed.

Lemma find_here (sub s : str) : startswith sub s = true -> find sub s = Some 0.
Proof. intros H. destruct s; simpl; now rewrite H. Qed.

Lemma contains_app (sub a b : str) : contains sub (a ++ sub ++ b) = true.
Proof.
  unfold contains. induction a as [|c a IH]; simpl.
  - now rewrite find_here by apply startswith_app.
  - destruct (startswith sub (c :: a ++ sub ++ b)); [reflexivity|].
    destruct (find sub (a ++ sub ++ b)); [reflexivity | discriminate].
Qed.

End PyFacts.

Module DictFacts.

Import PyFacts.

Section Facts.
Context {V : Type}.
Implicit Types (d : Dict.dict V) (k : str) (v : V).

Lemma get_set d k v k' :
  Dict.get (Dict.set d k v) k' = if eqs k k' then Some v else Dict.get d k'.
Proof.
  induction d as [|[k0 v0] d IH]; simpl.
  - reflexivity.
  - destruct (eqs k0 k) eqn:E0; simpl.
    + apply eqs_eq in E0; subst k0.
      destruct (eqs k k'); reflexivity.
    + destruct (eqs k0 k') eqn:E1.
      * apply eqs_eq in E1; subst k0. now rewrite eqs_sym, E0.
      * apply IH.
Qed.

Lemma get_none_iff d k : Dict.get d k = None <-> ~ In k (Dict.keys d).
Proof.
  induction d as [|[k0 v0] d IH]; simpl.
  - tauto.
  - destruct (eqs k0 k) eqn:E.
    + apply eqs_eq in E. split; [discriminate | tauto].
    + apply eqs_neq in E. rewrite IH. tauto.
Qed.

Lemma mem_true_iff d k : Dict.mem k d = true <-> In k (Dict.keys d).
Proof.
  unfold Dict.mem. destruct (Dict.get d k) eqn:E.
  - split; [intros _ | reflexivity].
    destruct (in_dec (list_eq_dec ascii_dec) k (Dict.keys d)) as [H|H]; [exact H|].
    apply get_none_iff in H. congruence.
  - apply get_none_iff in E. split; [discriminate | contradiction].
Qed.

Lemma get_in d k v : NoDup (Dict.keys d) -> In (k, v) d -> Dict.get d k = Some v.
Proof.
  induction d as [|[k0 v0] d IH]; simpl; [tauto|].
  intros Hnd [H|H].
  - injection H as -> ->. now rewrite eqs_refl.
  - inversion Hnd as [|? ? Hnotin Hnd']; subst.
    destruct (eqs k0 k) eqn:E.
    + apply eqs_eq in E; subst. exfalso. apply Hnotin.
      change k with (fst (k, v)). now apply in_map.
    + now apply IH.
Qed.

Lemma in_get d k v : Dict.get d k = Some v -> In (k, v) d.
Proof.
  induction d as [|[k0 v0] d IH]; simpl; [discriminate|].
  destruct (eqs k0 k) eqn:E.
  - apply eqs_eq in E; subst. intros [= ->]. now left.
  - intros H. right. now apply IH.
Qed.

Lemma set_fresh d k v : ~ In k (Dict.keys d) -> Dict.set d k v = d ++ [(k, v)].
Proof.
  induction d as [|[k0 v0] d IH]; simpl; [reflexivity|].
  intros H. destruct (eqs k0 k) eqn:E.
  - apply eqs_eq in E. tauto.
  - f_equal. apply IH. tauto.
Qed.

Lemma set_same d k v : Dict.get d k = Some v -> Dict.set d k v = d.
Proof.
  induction d as [|[k0 v0] d IH]; simpl; [discriminate|].
  destruct (eqs k0 k) eqn:E.
  - now intros [= ->].
  - intros H. f_equal. now apply IH.
Qed.

Lemma keys_set d k v :
  Dict.keys (Dict.set d k v) = if Dict.mem k d then Dict.keys d else Dict.keys d ++ [k].
Proof.
  unfold Dict.mem. induction d as [|[k0 v0] d IH]; simpl; [reflexivity|].
  destruct (eqs k0 k) eqn:E; simpl; [reflexivity|].
  rewrite IH. destruct (Dict.get d k); reflexivity.
Qed.
End Facts.

End DictFacts.

(** ** Region extraction *)

Module RegionFacts.

Import PyFacts Region Vocabulary.

Lemma region_loop_find (keywords : list str) (query : str) :
  region_loop keywords query =
  match List.find (fun keyword =>
                     occurs keyword query
                     && negb (match tokens_after keyword query with
                              | [] => true | _ => false end)) keywords with
  | Some keyword => one_or_two (tokens_after keyword query)
  | None => unknown
  end.
Proof.
  induction keywords as [|keyword rest IH]; [reflexivity|].
  cbn [region_loop List.find]. rewrite IH. clear IH.
  unfold occurs.
  destruct (contains keyword (lower query)); [|reflexivity].
  cbn [andb].
  assert (Htok : tokens_after keyword query
                 = words (strip (nth 1 (split keyword (lower query)) [])))
    by reflexivity.
  destruct (1 <? length (split keyword (lower query))) eqn:Hlen.
  - rewrite <- Htok.
    destruct (tokens_after keyword query) as [|w0 [|w1 more]] eqn:E;
      cbn [negb]; cbv iota; [reflexivity | now rewrite E | now rewrite E].
  - apply Nat.ltb_ge in Hlen.
    rewrite (nth_overflow _ _ Hlen) in Htok. cbn in Htok.
    now rewrite Htok.
Qed.

Lemma find_none_all {A : Type} (f g : A -> bool) (l : list A) :
  (forall x, In x l -> f x = false) -> List.find (fun x => f x && g x) l = None.
Proof.
  induction l as [|x l IH]; simpl; intros H; [reflexivity|].
  rewrite (H x (or_introl eq_refl)). simpl. apply IH. intros y Hy. apply H. now right.
Qed.

(** C6, as amended: the region is [unknown] when no keyword occurs in the
    case-folded query; otherwise the keywords are tried in the order of the
    list, and the first one that occurs and is followed by at least one
    token gives the region, the one or two tokens that follow it; when no
    keyword is followed by a token the region stays [unknown]. A query
    ending in [from Kerala], with no earlier keyword, gives [kerala]. *)
Theorem C6_region_extraction (query : str) :
  ((forall keyword, In keyword region_keywords -> occurs keyword query = false) ->
   extract_region query = unknown)
  /\ (forall keyword, first_supplying query = Some keyword ->
      extract_region query = one_or_two (tokens_after keyword query))
  /\ (first_supplying query = None -> extract_region query = unknown)
  /\ extract_region $"I am 28 weeks pregnant and from Kerala" = $"kerala".
Proof.
  unfold extract_region, first_supplying. rewrite region_loop_find.
  repeat split.
  - intros H. now rewrite (find_none_all _ _ _ H).
  - now intros keyword ->.
  - now intros ->.
Qed.

Lemma C6_region_extraction_witness :
  first_supplying $"She is from Kerala India" = Some $"from"
  /\ extract_region $"She is from Kerala India" = $"kerala india".
Proof.
  split; [reflexivity|].
  exact (proj1 (proj2 (C6_region_extraction $"She is from Kerala India"))
               $"from" eq_refl).
Defined.

(** C6, as stated, fails on a query whose first matching keyword is
    followed by nothing: in [from the state] the keyword [state] comes
    first in the list and occurs, no token follows it, and the region is
    neither the tokens after it nor [unknown]: the loop goes on to [from]
    and returns the two tokens that follow that keyword. *)
Lemma C6_counterexample :
  first_occurring $"from the state" = Some $"state"
  /\ tokens_after $"state" $"from the state" = []
  /\ extract_region $"from the state" = $"the state"
  /\ ~ (exists t1 more,
          tokens_after $"state" $"from the state" = t1 :: more
          /\ extract_region $"from the state" = one_or_two (t1 :: more)).
Proof.
  repeat split.
  intros (t1 & more & H & _). vm_compute in H. discriminate.
Qed.

(** A keyword with nothing after it and no other keyword leaves the
    region [unknown]. *)
Example keyword_at_the_end :
  first_occurring $"state" = Some $"state"
  /\ extract_region $"state" = unknown.
Proof. split; reflexivity. Qed.

End RegionFacts.

(** ** Scheme-record parser *)

Module SearchFacts.

Import PyFacts DictFacts Search.

Lemma apply_pattern_set (content : str) (d : Dict.dict str) (kp : str * regex) :
  Dict.get d (fst kp) = Some [] ->
  apply_pattern content d kp = Dict.set d (fst kp) (extracted content (snd kp)).
Proof.
  intros H. unfold apply_pattern, extracted.
  destruct (search re_flags (snd kp) content); [reflexivity|].
  symmetry. now apply set_same.
Qed.

Lemma parse_health_scheme_unfold (content : str) :
  parse_health_scheme content = finish content (after_patterns content).
Proof.
  assert (E : fold_left (apply_pattern content) patterns
                (match split [newline] (strip content) with
                 | [] =>
                     [ ($"scheme_name", []); ($"state", []); ($"description", []);
                       ($"eligibility", []); ($"how_to_apply", []); ($"benefits", []);
                       ($"documents_required", []); ($"contact_info", []) ]
                 | line0 :: _ =>
                     Dict.set
                       [ ($"scheme_name", []); ($"state", []); ($"description", []);
                         ($"eligibility", []); ($"how_to_apply", []); ($"benefits", []);
                         ($"documents_required", []); ($"contact_info", []) ]
                       $"scheme_name" (strip line0)
                 end) = after_patterns content).
  { unfold after_patterns.
    set (name := match split [newline] (strip content) with
                 | [] => [] | line0 :: _ => strip line0 end).
    replace (match split [newline] (strip content) with
             | [] => _ | line0 :: _ => _ end)
      with ([ ($"scheme_name", name); ($"state", []); ($"description", []);
              ($"eligibility", []); ($"how_to_apply", []); ($"benefits", []);
              ($"documents_required", []); ($"contact_info", []) ] : Dict.dict str)
      by (unfold name; destruct (split [newline] (strip content)); reflexivity).
    unfold patterns. cbn [fold_left].
    repeat match goal with
           | |- context [apply_pattern content ?d ?kp] =>
               rewrite (apply_pattern_set content d kp) by reflexivity
           end.
    reflexivity. }
  rewrite <- E. reflexivity.
Qed.

Lemma fields_empty_iff (content : str) :
  fields_empty content = true <->
  forall kp, In kp patterns -> extracted content (snd kp) = [].
Proof.
  unfold fields_empty. rewrite forallb_forall.
  split; intros H kp Hin; specialize (H kp Hin).
  - destruct (extracted content (snd kp)); [reflexivity | discriminate].
  - now rewrite H.
Qed.

Lemma is_empty_iff (v : str) : is_empty v = true <-> v = [].
Proof. destruct v; simpl; split; congruence. Qed.

(** Looking up a key in the cleaned dict. *)
Lemma get_filter (d : Dict.dict str) (k : str) :
  NoDup (Dict.keys d) ->
  Dict.get (filter (fun kv : str * str => negb (is_empty (snd kv))) d) k =
  match Dict.get d k with
  | Some v => if is_empty v then None else Some v
  | None => None
  end.
Proof.
  induction d as [|[k0 v0] d IH]; simpl; [reflexivity|].
  intros Hnd. inversion Hnd as [|? ? Hnotin Hnd']; subst.
  destruct (eqs k0 k) eqn:E.
  - apply eqs_eq in E; subst k0.
    destruct (is_empty v0) eqn:Ev; simpl.
    + rewrite (IH Hnd'). apply get_none_iff in Hnotin. now rewrite Hnotin.
    + now rewrite eqs_refl.
  - destruct (is_empty v0); simpl; [|rewrite E]; now apply IH.
Qed.

Lemma nodup_keys_after (content : str) (v : str) :
  NoDup (Dict.keys (after_patterns content ++ [(raw_content, v)]))
  /\ NoDup (Dict.keys (after_patterns content)).
Proof.
  split; cbn; repeat (constructor; [cbn; intuition discriminate|]); constructor.
Qed.

Lemma all_empty_unfold (content : str) :
  forallb
    (fun kv : str * str =>
       if negb (eqs (fst kv) $"scheme_name") && negb (eqs (fst kv) $"result_id")
       then is_empty (snd kv) else true)
    (after_patterns content) = fields_empty content.
Proof. reflexivity. Qed.

Lemma raw_content_present (content : str) :
  Dict.mem raw_content (parse_health_scheme content)
  = fields_empty content && negb (is_empty content).
Proof.
  rewrite parse_health_scheme_unfold. unfold finish, Dict.mem.
  rewrite all_empty_unfold.
  destruct (fields_empty content).
  - change (Dict.set (after_patterns content) $"raw_content" content)
      with (after_patterns content ++ [(raw_content, content)]).
    rewrite get_filter by apply nodup_keys_after.
    change (Dict.get (after_patterns content ++ [(raw_content, content)]) raw_content)
      with (Some content).
    cbv beta iota. now destruct (is_empty content).
  - rewrite get_filter by apply (nodup_keys_after content []).
    reflexivity.
Qed.

Lemma labelled_absent (content : str) (kp : str * regex) :
  In kp patterns -> fields_empty content = true ->
  Dict.mem (fst kp) (parse_health_scheme content) = false.
Proof.
  intros Hin Hall.
  pose proof (proj1 (fields_empty_iff content) Hall) as Hev.
  rewrite parse_health_scheme_unfold. unfold finish, Dict.mem.
  rewrite all_empty_unfold, Hall.
  change (Dict.set (after_patterns content) $"raw_content" content)
    with (after_patterns content ++ [(raw_content, content)]).
  rewrite get_filter by apply nodup_keys_after.
  pose proof (Hev kp Hin) as Hk.
  unfold patterns in Hin. cbn [In] in Hin.
  repeat (destruct Hin as [<-|Hin];
          [ cbn [fst snd] in *;
            match goal with
            | |- match ?g with _ => _ end = _ =>
                let v := eval cbn in g in change g with v
            end;
            now rewrite Hk
          | ]).
  contradiction.
Qed.

End SearchFacts.

Module SearchProps.

Import PyFacts DictFacts Search SearchFacts.

(** C2, as amended: the output contains [raw_content] if and only if all
    seven labelled fields extracted empty and the input text is itself
    non-empty; whenever a labelled field extracted a non-empty value,
    [raw_content] is absent; and [raw_content] never occurs together with
    a labelled field. *)
Theorem C2_raw_content_iff_all_fields_empty (content : str) :
  (Dict.mem raw_content (parse_health_scheme content) = true <->
   (forall kp, In kp patterns -> extracted content (snd kp) = []) /\ content <> [])
  /\ (forall kp, In kp patterns -> extracted content (snd kp) <> [] ->
      Dict.mem raw_content (parse_health_scheme content) = false)
  /\ (Dict.mem raw_content (parse_health_scheme content) = true ->
      forall kp, In kp patterns ->
      Dict.mem (fst kp) (parse_health_scheme content) = false).
Proof.
  rewrite raw_content_present, andb_true_iff, fields_empty_iff, negb_true_iff.
  split; [|split].
  - split; intros [H1 H2]; split; try exact H1.
    + intros ->. discriminate.
    + destruct content; [contradiction | reflexivity].
  - intros kp Hin Hne.
    destruct (fields_empty content) eqn:E; [|reflexivity].
    pose proof (proj1 (fields_empty_iff content) E kp Hin) as E'.
    now rewrite E' in Hne.
  - intros [H _] kp Hin. apply labelled_absent; [exact Hin|].
    now apply fields_empty_iff.
Qed.

Lemma C2_raw_content_iff_all_fields_empty_witness :
  Dict.mem raw_content (parse_health_scheme $"Janani Suraksha leaflet") = true
  /\ Dict.mem $"state" (parse_health_scheme $"Janani Suraksha leaflet") = false.
Proof.
  assert (H : Dict.mem raw_content (parse_health_scheme $"Janani Suraksha leaflet") = true).
  { apply (proj1 (C2_raw_content_iff_all_fields_empty $"Janani Suraksha leaflet")).
    split; [|discriminate].
    intros kp Hin. apply is_empty_iff.
    revert kp Hin. apply forallb_forall. vm_compute. reflexivity. }
  split; [exact H|].
  exact (proj2 (proj2 (C2_raw_content_iff_all_fields_empty $"Janani Suraksha leaflet"))
               H ($"state", labelled "State:") (or_introl eq_refl)).
Defined.

(** C2, as stated, fails on the empty text: all seven labelled fields
    extract empty, yet the output has no [raw_content] (the empty value is
    dropped with the other empty values). *)
Lemma C2_counterexample :
  (forall kp, In kp patterns -> extracted [] (snd kp) = [])
  /\ Dict.mem raw_content (parse_health_scheme []) = false
  /\ parse_health_scheme [] = [].
Proof.
  split; [|split; reflexivity].
  apply fields_empty_iff. reflexivity.
Qed.

(** A recognised label does not by itself keep [raw_content] out: on the
    text [State: ] the pattern of [state] matches, its capture is a single
    space, the stripped value is empty, and [raw_content] is present. *)
Example recognised_label_with_raw_content :
  recognised $"State: " (labelled "State:") = true
  /\ extracted $"State: " (labelled "State:") = []
  /\ parse_health_scheme $"State: "
     = [($"scheme_name", $"State:"); (raw_content, $"State: ")].
Proof. repeat split. Qed.

(** The scenario of the specification. *)
Example matru_vandana :
  parse_health_scheme
    ($"PM Matru Vandana" ++ [newline] ++ $"State: Maharashtra" ++ [newline]
      ++ $"Benefits: Cash incentive")
  = [ ($"scheme_name", $"PM Matru Vandana"); ($"state", $"Maharashtra");
      ($"benefits", $"Cash incentive") ].
Proof. reflexivity. Qed.

End SearchProps.

(** ** Embedding provider *)

Module EmbeddingProps.

Import Embedding.

Section Encode.
Variables encoded_input model_output vector : Type.
Variable tokenizer : list str -> result encoded_input.
Variable model : encoded_input -> result model_output.
Variable pool : model_output -> encoded_input -> result (list vector).

(** C9: [encode] applied to the empty list returns the empty list and
    calls neither the tokenizer nor the model: the log of calls is left
    as it was, whatever the batch size. *)
Theorem C9_encode_empty (batch_size : Z) (log : list (call encoded_input)) :
  encode _ _ _ tokenizer model pool [] batch_size log = (Return [], log).
Proof. reflexivity. Qed.

(** For contrast: a non-empty input with a positive batch size does reach
    the tokenizer, first with the leading batch. *)
Lemma encode_nonempty_calls_tokenizer (s : str) (rest : list str)
      (batch_size : Z) (log : list (call encoded_input)) :
  (0 < batch_size)%Z ->
  exists more, snd (encode _ _ _ tokenizer model pool (s :: rest) batch_size log)
               = log ++ Tokenize _ (firstn (Z.to_nat batch_size) (s :: rest)) :: more.
Proof.
  intros Hpos. unfold encode.
  destruct (batch_size =? 0)%Z eqn:E0; [apply Z.eqb_eq in E0; lia|].
  destruct (batch_size <? 0)%Z eqn:E1; [apply Z.ltb_lt in E1; lia|].
  cbn [length encode_loop].
  set (batch := firstn (Z.to_nat batch_size) (s :: rest)).
  unfold mbind at 1. unfold encode_batch, mbind at 1, tell.
  unfold mbind at 1, lift at 1.
  destruct (tokenizer batch) as [encoded|e]; cbn [snd].
  2:{ exists []. reflexivity. }
  unfold mbind at 1. unfold tell.
  unfold mbind at 1, lift at 1.
  destruct (model encoded) as [output|e]; cbn [snd].
  2:{ exists [Forward _ encoded]. now rewrite <- app_assoc. }
  unfold lift.
  destruct (pool output encoded) as [embeddings|e]; cbn [snd].
  2:{ exists [Forward _ encoded]. now rewrite <- app_assoc. }
  assert (Hgrow : forall fuel bs l acc lg,
             exists more, snd (encode_loop _ _ _ tokenizer model pool fuel bs l acc lg)
                          = lg ++ more).
  { clear. induction fuel as [|fuel IH]; intros bs l acc lg.
    - destruct l; exists []; cbn; now rewrite app_nil_r.
    - destruct l as [|x l]; [exists []; cbn; now rewrite app_nil_r|].
      cbn [encode_loop]. unfold mbind at 1, encode_batch.
      unfold mbind at 1, tell. unfold mbind at 1, lift at 1.
      destruct (tokenizer _) as [enc|e]; [|exists [Tokenize _ (firstn bs (x :: l))]; reflexivity].
      unfold mbind at 1. unfold mbind at 1, lift at 1.
      destruct (model enc) as [out|e]; cbn [snd];
        [|eexists; rewrite <- app_assoc; reflexivity].
      unfold lift.
      destruct (pool out enc) as [embs|e]; cbn [snd];
        [|eexists; rewrite <- app_assoc; reflexivity].
      destruct (IH bs (skipn bs (x :: l)) (acc ++ embs)
                   ((lg ++ [Tokenize _ (firstn bs (x :: l))]) ++ [Forward _ enc]))
        as [more Hmore].
      rewrite Hmore. eexists. rewrite <- !app_assoc. reflexivity. }
  destruct (Hgrow (length rest) (Z.to_nat batch_size)
                  (skipn (Z.to_nat batch_size) (s :: rest)) ([] ++ embeddings)
                  ((log ++ [Tokenize _ batch]) ++ [Forward _ encoded]))
    as [more Hmore].
  rewrite Hmore. eexists. rewrite <- !app_assoc. reflexivity.
Qed.
End Encode.

End EmbeddingProps.

(** ** PDF ingestion *)

Module IngestProps.

Import PyFacts Ingest.

Section Facts.
Variable vector : Type.
Implicit Types (w : world vector) (st : state vector).

(** Once the upload is read and written, the temporary file is gone when
    [process_pdf] is left, whether by a return or by an exception. *)
Lemma temp_file_removed_after_write w file collection_name content st r st' :
  read file = Return content ->
  write_temp vector w content = Return tt ->
  temp_file vector st = false ->
  process_pdf vector w file collection_name st = (r, st') ->
  temp_file vector st' = false.
Proof.
  intros Hread Hwrite Htemp.
  unfold process_pdf.
  destruct (unset vector w "QDRANT_URL" || unset vector w "QDRANT_API_KEY").
  { unfold raise. now intros [= <- <-]. }
  unfold mbind at 1, lift at 1.
  destruct (int_of vector w _) as [cs|e]; [|now intros [= <- <-]].
  unfold mbind at 1, lift at 1.
  destruct (int_of vector w _) as [co|e]; [|now intros [= <- <-]].
  unfold mbind at 1, lift at 1.
  destruct (get_collections vector w) as [cols|e]; [|now intros [= <- <-]].
  unfold mbind at 1.
  assert (Hpre : forall m : M vector unit,
             m = (if negb (existsb (fun name => eqs name collection_name) cols)
                  then mbind vector (store vector (CreateCollection collection_name))
                         (fun _ => lift vector (create_collection vector w collection_name))
                  else ret vector tt) ->
             temp_file vector (snd (m st)) = false).
  { intros m ->. destruct (negb _).
    - unfold mbind, store, lift. cbn.
      destruct (create_collection vector w collection_name); exact Htemp.
    - exact Htemp. }
  specialize (Hpre _ eq_refl).
  match type of Hpre with
  | temp_file _ (snd ?p) = false => destruct p as [[[]|e] st1]
  end; cbn [snd] in Hpre; [|now intros [= <- <-]].
  unfold mbind at 1, lift at 1.
  destruct (get_embedding_model vector w) as [[]|e]; [|now intros [= <- <-]].
  unfold mbind at 1, set_temp at 1.
  unfold mbind at 1, lift at 1. rewrite Hread.
  unfold mbind at 1, lift at 1. rewrite Hwrite.
  unfold try_finally.
  destruct (process_loaded vector w file collection_name cs co content _) as [r0 st2].
  unfold set_temp. now intros [= <- <-].
Qed.
End Facts.

(** C7, as stated, fails when the collection is new: with no collection
    listed and a file without pages, the warning is returned after
    [create_collection] has been asked of the store. *)
Lemma C7_counterexample :
  load unit (plain_world [] []) $"%PDF-1.4" = Return []
  /\ process_pdf unit (plain_world [] []) leaflet $"health_schemes" idle
     = (Return {| status := $"warning";
                  message := $"No content found in leaflet.pdf.";
                  chunks_count := None |},
        {| store_calls := [CreateCollection $"health_schemes"];
           temp_file := false |}).
Proof. split; reflexivity. Qed.

(** C8: an upload whose [read] raises leaves the temporary file behind:
    the file is created on entering the [with] block, the exception leaves
    the block before the [try ... finally] that removes it is entered. *)
Theorem C8_temp_file_left_when_read_raises :
  process_pdf unit (plain_world [$"health_schemes"] []) broken_upload
              $"health_schemes" idle
  = (Raise (UpstreamError 1), {| store_calls := []; temp_file := true |}).
Proof. reflexivity. Qed.

End IngestProps.

(** ** Diet-plan parser *)

Module NutritionFacts.

Import PyFacts DictFacts Json Nutrition Recommendation Vocabulary.

Lemma day_entry_keys (day_data : value) (entry : Dict.dict value) :
  day_entry day_data = Return entry -> Dict.keys entry = meal_keys.
Proof.
  unfold day_entry. destruct day_data; try discriminate. cbn.
  repeat match goal with
         | |- context [Dict.get ?d ?k] => destruct (Dict.get d k)
         end; cbn; now intros [= <-].
Qed.

Lemma day_entry_of_object (d : Dict.dict value) :
  exists entry, day_entry (Obj d) = Return entry.
Proof.
  unfold day_entry. cbn.
  repeat match goal with
         | |- context [Dict.get ?d ?k] => destruct (Dict.get d k)
         end; cbn; eexists; reflexivity.
Qed.

Lemma day_entry_not_object (v : value) :
  (forall d, v <> Obj d) -> day_entry v = Raise AttributeError.
Proof.
  intros H. destruct v as [| | | | |d]; try reflexivity. now destruct (H d).
Qed.

Lemma day_entry_canon (d : Dict.dict value) : day_entry (Obj d) = Return (canon d).
Proof.
  unfold day_entry, canon, meal_keys, get_meal. cbn [map].
  repeat match goal with
         | |- context [match Dict.get d ?k with _ => _ end] => destruct (Dict.get d k)
         end; reflexivity.
Qed.

(** On a decoded object, the loop of Stage 1 writes for each day the entry
    built from the decoded day: the decoded meals, [Not specified] for a
    meal that is missing, all five defaults for a day that is missing. *)
Lemma stage1_loop_object_top (days : list nat) (top : Dict.dict value)
      (acc out : Dict.dict (Dict.dict value)) :
  stage1_loop days (Obj top) acc = Return out ->
  out = fold_left (fun sr n => Dict.set sr (day_key_of n) (canon (day_of top n)))
                  days acc.
Proof.
  revert acc. induction days as [|n days IH]; intros acc.
  - now intros [= <-].
  - cbn [stage1_loop fold_left not_in subscript bind]. unfold Dict.mem, day_of.
    destruct (Dict.get top (day_key_of n)) as [v|]; cbn [negb bind].
    + destruct v as [| | | | |d]; try discriminate.
      rewrite day_entry_canon. cbn [bind]. apply IH.
    + apply IH.
Qed.

Lemma fold_days (f : nat -> Dict.dict value) :
  fold_left (fun sr n => Dict.set sr (day_key_of n) (f n)) day_range []
  = map (fun n => (day_key_of n, f n)) day_range.
Proof. reflexivity. Qed.

(** The loop of Stage 1 appends one entry per day, each with the five
    meals. *)
Lemma stage1_loop_shape (days : list nat) (j : value)
      (acc out : Dict.dict (Dict.dict value)) :
  NoDup (Dict.keys acc ++ map day_key_of days) ->
  (forall k d, In (k, d) acc -> Dict.keys d = meal_keys) ->
  stage1_loop days j acc = Return out ->
  Dict.keys out = Dict.keys acc ++ map day_key_of days
  /\ (forall k d, In (k, d) out -> Dict.keys d = meal_keys).
Proof.
  revert acc. induction days as [|n days IH]; intros acc Hnd Hacc;
    cbn [stage1_loop map].
  - intros [= <-]. now rewrite app_nil_r.
  - assert (Hfresh : ~ In (day_key_of n) (Dict.keys acc)).
    { apply NoDup_remove_2 in Hnd. intros Hin. apply Hnd, in_or_app. now left. }
    assert (Hnd' : forall entry : Dict.dict value,
               NoDup (Dict.keys (Dict.set acc (day_key_of n) entry) ++ map day_key_of days)).
    { intros entry. rewrite (set_fresh _ _ _ Hfresh).
      unfold Dict.keys in *. rewrite map_app, <- app_assoc. exact Hnd. }
    assert (Hacc' : forall entry : Dict.dict value,
               Dict.keys entry = meal_keys ->
               forall k d, In (k, d) (Dict.set acc (day_key_of n) entry) ->
                           Dict.keys d = meal_keys).
    { intros entry He k d. rewrite (set_fresh _ _ _ Hfresh).
      intros Hin. apply in_app_or in Hin as [Hin|[[= <- <-]|[]]]; eauto. }
    assert (Hkeys : forall entry : Dict.dict value,
               Dict.keys (Dict.set acc (day_key_of n) entry) ++ map day_key_of days
               = Dict.keys acc ++ day_key_of n :: map day_key_of days).
    { intros entry. rewrite (set_fresh _ _ _ Hfresh).
      unfold Dict.keys. now rewrite map_app, <- app_assoc. }
    destruct (not_in (day_key_of n) j) as [[|]|e]; cbn [bind]; try discriminate.
    + intros H. apply IH in H; [|apply Hnd'|now apply Hacc'].
      now rewrite Hkeys in H.
    + destruct (subscript j (day_key_of n)) as [day_data|e]; cbn [bind];
        try discriminate.
      destruct (day_entry day_data) as [entry|e] eqn:He; cbn [bind];
        try discriminate.
      intros H. apply IH in H;
        [|apply Hnd'|apply Hacc'; now apply day_entry_keys with day_data].
      now rewrite Hkeys in H.
Qed.

(** Stage 1, when it returns, returns the seven days in order, each with
    the five meals in order, and no note. *)
Lemma stage1_plan_shape (j : value) (region : str) (r : response) :
  stage1 j region = Return r ->
  Dict.keys (diet_plan r) = day_keys
  /\ (forall k d, In (k, d) (diet_plan r) -> Dict.keys d = meal_keys)
  /\ note r = None.
Proof.
  unfold stage1.
  destruct (stage1_loop day_range j []) as [out|e] eqn:E; cbn; try discriminate.
  intros [= <-]. cbn.
  apply stage1_loop_shape in E.
  - destruct E as [E1 E2]. now repeat split.
  - cbn. repeat (constructor; [cbn; intuition discriminate|]). constructor.
  - intros k d [].
Qed.

(** Stage 3: with no day block found, the seven days are all defaults. *)
Lemma stage3_total_failure :
  Dict.keys (stage3 []) = day_keys
  /\ forall k d, In (k, d) (stage3 []) -> d = default_day.
Proof.
  split; [reflexivity|].
  cbn. intros k d H.
  repeat (destruct H as [[= <- <-]|H]; [reflexivity|]). destruct H.
Qed.

Lemma apply_day_pattern_fold (text : str) (sr : Dict.dict (Dict.dict value))
      (pattern : regex) :
  apply_day_pattern text sr pattern
  = fold_left apply_day (findall re_flags pattern text) sr.
Proof.
  unfold apply_day_pattern. now destruct (findall re_flags pattern text).
Qed.

Lemma stage2_all_matches (text : str) :
  stage2 text = fold_left apply_day (all_day_matches text) [].
Proof.
  unfold stage2, all_day_matches, day_patterns. cbn [fold_left flat_map].
  rewrite !apply_day_pattern_fold, app_nil_r, !fold_left_app. reflexivity.
Qed.

Lemma get_fold_apply_day (writes : list (str * str))
      (sr : Dict.dict (Dict.dict value)) (k : str) :
  Dict.get (fold_left apply_day writes sr) k =
  match last_write k writes with
  | Some d => Some d
  | None => Dict.get sr k
  end.
Proof.
  revert sr. induction writes as [|m writes IH]; intros sr;
    cbn [fold_left last_write]; [reflexivity|].
  rewrite IH. destruct (last_write k writes); [reflexivity|].
  unfold apply_day. rewrite get_set. now destruct (eqs _ k).
Qed.

Lemma last_write_in (k : str) (writes : list (str * str)) (m : str * str) :
  In m writes -> k = $"day" ++ fst m -> last_write k writes <> None.
Proof.
  induction writes as [|m0 writes IH]; cbn [In last_write]; [tauto|].
  intros [->|Hin] Hk.
  - destruct (last_write k writes); [discriminate|].
    subst k. rewrite eqs_refl. discriminate.
  - specialize (IH Hin Hk). now destruct (last_write k writes).
Qed.

(** *** The third variant repeats the first

    All three variants are searched case-insensitively, so [DAY N] finds
    what [Day N] finds. *)

Lemma greedy_ext {R : Type} (fl : flags) (k : cls) (k1 k2 : str -> option R) :
  (forall s, k1 s = k2 s) -> forall s, greedy fl k k1 s = greedy fl k k2 s.
Proof.
  intros H. induction s as [|c s IH]; cbn [greedy]; [apply H|].
  now rewrite IH, H.
Qed.

Lemma lazy_ext {R : Type} (fl : flags) (k : cls) (k1 k2 : str -> option R) :
  (forall s, k1 s = k2 s) -> forall s, lazy fl k k1 s = lazy fl k k2 s.
Proof.
  intros H. induction s as [|c s IH]; cbn [lazy]; rewrite H; [reflexivity|].
  now rewrite IH.
Qed.

Lemma eat_day_upper (s : str) : eat re_flags $"DAY " s = eat re_flags $"Day " s.
Proof. destruct s as [|c1 [|c2 [|c3 [|c4 s]]]]; reflexivity. Qed.

Lemma third_variant_here (s : str) :
  match_here re_flags (nth 2 day_patterns Eos) s
  = match_here re_flags (nth 0 day_patterns Eos) s.
Proof.
  unfold match_here. cbn [nth day_patterns exec].
  rewrite eat_day_upper. destruct (eat re_flags $"Day " s) as [s1|]; [|reflexivity].
  destruct s1 as [|c s2]; [reflexivity|].
  destruct (in_cls re_flags Digit c); [|reflexivity].
  apply greedy_ext. intros s3.
  apply greedy_ext. intros s4.
  apply lazy_ext. intros s5.
  now rewrite eat_day_upper.
Qed.

Lemma findall_go_ext (fl : flags) (a b : regex) :
  (forall s, match_here fl a s = match_here fl b s) ->
  forall s skip, findall_go fl a s skip = findall_go fl b s skip.
Proof.
  intros H. induction s as [|c s IH]; intros skip.
  - destruct skip; cbn [findall_go]; [now rewrite H | reflexivity].
  - destruct skip; cbn [findall_go]; [|apply IH].
    rewrite H. destruct (match_here fl b (c :: s)) as [[caps rest]|];
      now rewrite IH.
Qed.

(** X12: the third day pattern, [DAY N], finds on every text exactly the
    matches of the first, [Day N]: both are searched without regard to
    case. *)
Lemma third_variant_repeats_first (text : str) :
  findall re_flags (nth 2 day_patterns Eos) text
  = findall re_flags (nth 0 day_patterns Eos) text.
Proof. apply findall_go_ext, third_variant_here. Qed.

(** *** Stage 0 on a text that is one brace-delimited block *)

Lemma greedy_dot_last {R : Type} (k : str -> option R) (t : str) (c : ascii) :
  k [] = None -> k [c] <> None ->
  greedy json_flags Dot k (t ++ [c]) = k [c].
Proof.
  intros Hnil Hc. induction t as [|x t IH]; cbn [app greedy in_cls];
    cbn [DOTALL json_flags orb].
  - cbn [greedy]. now rewrite Hnil.
  - rewrite IH. destruct (k [c]); [reflexivity | contradiction].
Qed.

Lemma strip_between (a b : ascii) (t : str) :
  is_space a = false -> is_space b = false ->
  strip (a :: t ++ [b]) = a :: t ++ [b].
Proof.
  intros Ha Hb. unfold strip, rstrip. cbn [lstrip]. rewrite Ha.
  change (a :: t ++ [b]) with ((a :: t) ++ [b]).
  rewrite rev_app_distr. cbn [rev app lstrip]. rewrite Hb.
  cbn [rev]. rewrite rev_app_distr, rev_involutive. reflexivity.
Qed.

Lemma endswith_last (c : ascii) (t : str) : endswith [c] (t ++ [c]) = true.
Proof.
  unfold endswith. rewrite rev_app_distr. cbn. now rewrite eqc_refl.
Qed.

(** Stage 0 leaves a text from an opening brace to a closing brace as it
    is. *)
Lemma extract_json_braces (t : str) :
  extract_json ($"{" ++ t ++ $"}") = $"{" ++ t ++ $"}".
Proof.
  unfold extract_json.
  assert (Hsearch : search json_flags json_pattern ($"{" ++ t ++ $"}")
                    = Some [(3, $"{" ++ t ++ $"}")]).
  { change ($"{" ++ t ++ $"}") with ("{"%char :: t ++ ["}"%char]).
    assert (H1 : forall s, eat json_flags (fence ++ $"json") ("{"%char :: s) = None)
      by reflexivity.
    assert (H2 : forall s, eat json_flags fence ("{"%char :: s) = None)
      by reflexivity.
    assert (H3 : forall s, eat json_flags $"{" ("{"%char :: s) = Some s)
      by reflexivity.
    cbn [search]. unfold match_here, json_pattern. cbn [exec].
    rewrite H1, H2, H3, greedy_dot_last.
    - change (eat json_flags $"}" ["}"%char]) with (Some (@nil ascii)).
      unfold consumed. cbn [length]. rewrite Nat.sub_0_r.
      change (S (length (t ++ ["}"%char])))
        with (length ("{"%char :: t ++ ["}"%char])).
      now rewrite firstn_all.
    - reflexivity.
    - discriminate. }
  rewrite Hsearch. cbn [group first_truthy Nat.eqb].
  change ($"{" ++ t ++ $"}") with ("{"%char :: t ++ ["}"%char]).
  cbn [first_truthy].
  rewrite strip_between by reflexivity.
  cbn [startswith lit list_ascii_of_string negb eqc]. rewrite Ascii.eqb_refl.
  cbn [andb negb].
  change (endswith ["}"%char] ("{"%char :: t ++ ["}"%char]))
    with (endswith ["}"%char] (("{"%char :: t) ++ ["}"%char])).
  now rewrite endswith_last.
Qed.

End NutritionFacts.

Module NutritionProps.

Import PyFacts DictFacts Json Nutrition Recommendation Vocabulary NutritionFacts.

(** C1, as amended: when the strict decode succeeds and Stage 1 returns,
    or when the decode fails and the fallback finds no day block, the
    returned plan has exactly the seven keys day1..day7, each with exactly
    the five meal keys; after a failed decode every meal is the string
    [Not specified]; after a decode to an object every meal is the decoded
    value when the day and the meal are there, whatever its JSON type, and
    [Not specified] otherwise. *)
Theorem C1_plan_shape (reply region : str) (r : response) :
  parse_reply reply region = Return r ->
  loads (extract_json reply) <> None \/ stage2 (extract_json reply) = [] ->
  Dict.keys (diet_plan r) = day_keys
  /\ (forall k d, In (k, d) (diet_plan r) -> Dict.keys d = meal_keys)
  /\ (loads (extract_json reply) = None ->
      forall k d, In (k, d) (diet_plan r) -> d = default_day)
  /\ (forall top, loads (extract_json reply) = Some (Obj top) ->
      diet_plan r = map (fun n => (day_key_of n, canon (day_of top n))) day_range).
Proof.
  unfold parse_reply.
  destruct (loads (extract_json reply)) as [j|] eqn:Hloads.
  - intros Hr _. destruct (stage1_plan_shape _ _ _ Hr) as (Hk & Hm & _).
    repeat split; try assumption; try discriminate.
    intros top [= ->]. unfold stage1 in Hr.
    destruct (stage1_loop day_range (Obj top) []) as [out|e] eqn:E;
      [|discriminate].
    injection Hr as <-. cbn [diet_plan].
    apply stage1_loop_object_top in E. now rewrite fold_days in E.
  - intros [= <-] [H|H]; [contradiction|].
    unfold fallback. cbn [diet_plan]. rewrite H.
    destruct stage3_total_failure as [Hk Hd].
    split; [exact Hk|]. split; [|split].
    + intros k d Hin. rewrite (Hd k d Hin). reflexivity.
    + intros _. exact Hd.
    + discriminate.
Qed.

Lemma C1_plan_shape_witness :
  exists r,
    parse_reply idli_reply $"kerala" = Return r
    /\ Dict.keys (diet_plan r) = day_keys
    /\ Dict.get (diet_plan r) $"day1"
       = Some [ ($"breakfast", Str $"Idli");
                ($"morning_snack", not_specified);
                ($"lunch", not_specified);
                ($"evening_snack", not_specified);
                ($"dinner", not_specified) ]
    /\ Dict.get (diet_plan r) $"day2" = Some default_day
    /\ note r = None.
Proof.
  destruct (parse_reply idli_reply $"kerala") as [r|e] eqn:E;
    [|vm_compute in E; discriminate].
  exists r. split; [reflexivity|].
  assert (Hl : loads (extract_json idli_reply)
               = Some (Obj [($"day1", Obj [($"breakfast", Str $"Idli")])]))
    by (vm_compute; reflexivity).
  assert (Hstage : loads (extract_json idli_reply) <> None
                   \/ stage2 (extract_json idli_reply) = [])
    by (left; rewrite Hl; discriminate).
  destruct (C1_plan_shape idli_reply $"kerala" r E Hstage)
    as (Hk & _ & _ & Hplan).
  split; [exact Hk|].
  rewrite (Hplan _ Hl).
  repeat split.
  vm_compute in E. now injection E as <-.
Defined.

(** C1, as stated, fails in two ways.  A decoded meal is passed through
    as it is: a breakfast that is [null] in the reply is [null] in the
    plan, not a string.  And when the decode fails and the fallback finds
    some day, only the days it found are returned: prose that names day 1
    gives a plan whose single key is [day1]. *)
Lemma C1_counterexample :
  (exists r,
      parse_reply null_breakfast_reply $"kerala" = Return r
      /\ Dict.get (diet_plan r) $"day1"
         = Some [ ($"breakfast", Null);
                  ($"morning_snack", not_specified);
                  ($"lunch", not_specified);
                  ($"evening_snack", not_specified);
                  ($"dinner", not_specified) ])
  /\ parse_reply prose_reply $"kerala"
     = Return
         {| diet_plan :=
              [ ($"day1",
                  [ ($"breakfast", Str $"Poha.");
                    ($"morning_snack", not_specified);
                    ($"lunch", Str $"Dal rice.");
                    ($"evening_snack", not_specified);
                    ($"dinner", not_specified) ]) ];
            region := $"kerala";
            note := Some NOTE |}.
Proof.
  split.
  - eexists. split; vm_compute; reflexivity.
  - vm_compute. reflexivity.
Qed.

(** The empty reply: nothing decodes, nothing is found, all defaults. *)
Example empty_reply_all_defaults :
  parse_reply [] $"unknown"
  = Return {| diet_plan := map (fun k => (k, default_day)) day_keys;
              region := $"unknown";
              note := Some NOTE |}.
Proof. vm_compute. reflexivity. Qed.

(** The same through the whole request. *)
Example fallback_returns_only_matched_days :
  get_nutrition_recommendation (answering prose_reply) $"I am from Kerala" 3
  = Return
      {| diet_plan :=
           [ ($"day1",
               [ ($"breakfast", Str $"Poha.");
                 ($"morning_snack", not_specified);
                 ($"lunch", Str $"Dal rice.");
                 ($"evening_snack", not_specified);
                 ($"dinner", not_specified) ]) ];
         region := $"kerala";
         note := Some NOTE |}.
Proof. vm_compute. reflexivity. Qed.

(** C3, as amended: when [json.loads] raises [json.JSONDecodeError] on
    the extracted text, the request returns normally, with the note; any
    other exception of [json.loads] leaves the request as it was raised;
    when the decode succeeds, a returned mapping has no note. *)
Theorem C3_decode_failure_recovered (json_loads : str -> result value)
        (w : world) (query : str) (limit : Z) (reply : str) :
  completion w query limit = Return reply ->
  (json_loads (extract_json reply) = Raise JSONDecodeError ->
   exists plan,
     Limits.get_nutrition_recommendation json_loads w query limit
     = Return {| diet_plan := plan;
                 region := Region.extract_region query;
                 note := Some NOTE |})
  /\ (forall e, json_loads (extract_json reply) = Raise e ->
      e <> JSONDecodeError ->
      Limits.get_nutrition_recommendation json_loads w query limit = Raise e)
  /\ (forall v, json_loads (extract_json reply) = Return v ->
      forall r, Limits.get_nutrition_recommendation json_loads w query limit
                = Return r ->
                note r = None).
Proof.
  intros Hreply. unfold Limits.get_nutrition_recommendation.
  rewrite Hreply. cbn [bind]. unfold Limits.parse_reply.
  split; [|split].
  - intros ->. eexists. reflexivity.
  - intros e -> He. destruct e; try reflexivity. contradiction.
  - intros v -> r Hr. now apply stage1_plan_shape in Hr.
Qed.

Lemma C3_decode_failure_recovered_witness :
  exists plan,
    Limits.get_nutrition_recommendation (Limits.loads Limits.cpython)
      (answering $"I cannot help with that.") $"from Kerala" 3
    = Return {| diet_plan := plan;
                region := Region.extract_region $"from Kerala";
                note := Some NOTE |}.
Proof.
  apply (proj1 (C3_decode_failure_recovered (Limits.loads Limits.cpython)
                  (answering $"I cannot help with that.") $"from Kerala" 3
                  $"I cannot help with that." eq_refl)).
  vm_compute. reflexivity.
Defined.

(** C3, as stated, fails when the decode ends in an exception that is
    not [json.JSONDecodeError].  A reply of 1200 opening brackets is no
    JSON text, the scanner runs out of levels of recursion on it and the
    request raises [RecursionError]; a reply whose first day is an integer
    of 4301 digits is a JSON text, [int] refuses the literal and the
    request raises [ValueError].  No mapping is returned, with or without
    the note. *)
Lemma C3_counterexample :
  (loads (extract_json Limits.deep_reply) = None
   /\ Limits.loads Limits.cpython (extract_json Limits.deep_reply)
      = Raise RecursionError
   /\ Limits.get_nutrition_recommendation (Limits.loads Limits.cpython)
        (answering Limits.deep_reply) $"from Kerala" 3
      = Raise RecursionError)
  /\ (Limits.loads Limits.cpython (extract_json Limits.long_int_reply)
      = Raise ValueError
      /\ Limits.get_nutrition_recommendation (Limits.loads Limits.cpython)
           (answering Limits.long_int_reply) $"from Kerala" 3
         = Raise ValueError).
Proof. split; [split; [|split] | split]; vm_compute; reflexivity. Qed.

(** C5, as amended: the three variants are all applied, in order, with no
    early stop: the structured output is what the writes of every match
    of every variant leave, a later write to a key replacing an earlier
    one; so every day matched by any variant has its key in the output. *)
Theorem C5_every_variant_writes (text : str) :
  stage2 text = fold_left apply_day (all_day_matches text) []
  /\ (forall k, Dict.get (stage2 text) k = last_write k (all_day_matches text))
  /\ (forall pattern m,
        In pattern day_patterns -> In m (findall re_flags pattern text) ->
        Dict.mem ($"day" ++ fst m) (stage2 text) = true).
Proof.
  split; [apply stage2_all_matches|].
  assert (Hget : forall k, Dict.get (stage2 text) k
                           = last_write k (all_day_matches text)).
  { intros k. rewrite stage2_all_matches, get_fold_apply_day.
    now destruct (last_write k (all_day_matches text)). }
  split; [exact Hget|].
  intros pattern m Hp Hm. unfold Dict.mem. rewrite Hget.
  assert (Hin : In m (all_day_matches text)).
  { unfold all_day_matches. apply in_flat_map. now exists pattern. }
  pose proof (last_write_in _ _ _ Hin eq_refl) as Hne.
  now destruct (last_write _ (all_day_matches text)).
Qed.

Lemma C5_every_variant_writes_witness :
  Dict.mem $"day2" (stage2 $"Day 1: breakfast: idli day2: lunch: rice") = true.
Proof.
  apply (proj2 (proj2 (C5_every_variant_writes
                         $"Day 1: breakfast: idli day2: lunch: rice"))
               (nth 1 day_patterns Eos) ($"2", $"lunch: rice")).
  - right. left. reflexivity.
  - vm_compute. left. reflexivity.
Defined.

(** C5, as stated, fails on a text where the first variant finds [Day 1]
    and the second finds [day2]: stopping after the first variant would
    give [day1] alone, the code also writes [day2]. *)
Lemma C5_counterexample :
  findall re_flags (nth 0 day_patterns Eos) $"Day 1: breakfast: idli day2: lunch: rice"
  = [($"1", $"breakfast: idli day2: lunch: rice")]
  /\ Dict.keys (stage2_first_variant_only
                  $"Day 1: breakfast: idli day2: lunch: rice" day_patterns)
     = [$"day1"]
  /\ Dict.keys (stage2 $"Day 1: breakfast: idli day2: lunch: rice")
     = [$"day1"; $"day2"]
  /\ stage2 $"Day 1: breakfast: idli day2: lunch: rice"
     <> stage2_first_variant_only
          $"Day 1: breakfast: idli day2: lunch: rice" day_patterns.
Proof.
  repeat split; try (vm_compute; reflexivity).
  intros H. apply (f_equal (@length _)) in H. vm_compute in H. discriminate.
Qed.

Lemma stage1_loop_raises (days : list nat) (top : Dict.dict value)
      (acc : Dict.dict (Dict.dict value)) (n : nat) (v : value) :
  In n days -> Dict.get top (day_key_of n) = Some v ->
  (forall d, v <> Obj d) ->
  stage1_loop days (Obj top) acc = Raise AttributeError.
Proof.
  intros Hin Hget Hv. revert acc.
  induction days as [|m days IH]; intros acc; [destruct Hin|].
  cbn [stage1_loop not_in subscript bind]. unfold Dict.mem.
  destruct (Dict.get top (day_key_of m)) as [v'|] eqn:Hm; cbn [negb bind].
  - destruct v' as [| | | | |d]; try reflexivity.
    destruct Hin as [->|Hin];
      [rewrite Hget in Hm; injection Hm as ->; now destruct (Hv d)|].
    destruct (day_entry_of_object d) as [entry ->]. cbn [bind].
    now apply IH.
  - destruct Hin as [->|Hin]; [congruence|]. now apply IH.
Qed.

(** C10: when the extracted text decodes to an object in which some
    present key [dayN], N from 1 to 7, holds a value that is not an
    object, the request raises [AttributeError]; no plan is returned and
    the fallback is not entered. *)
Theorem C10_non_object_day_raises (w : world) (query : str) (limit : Z)
        (reply : str) (top : Dict.dict value) (n : nat) (v : value) :
  completion w query limit = Return reply ->
  loads (extract_json reply) = Some (Obj top) ->
  In n day_range ->
  Dict.get top (day_key_of n) = Some v ->
  (forall d, v <> Obj d) ->
  get_nutrition_recommendation w query limit = Raise AttributeError.
Proof.
  intros Hreply Hloads Hn Hget Hv.
  unfold get_nutrition_recommendation. rewrite Hreply. cbn [bind].
  unfold parse_reply. rewrite Hloads. unfold stage1.
  now rewrite (stage1_loop_raises _ _ _ n v Hn Hget Hv).
Qed.

Lemma C10_non_object_day_raises_witness :
  get_nutrition_recommendation (answering number_day_reply) $"from Kerala" 3
  = Raise AttributeError.
Proof.
  apply (C10_non_object_day_raises (answering number_day_reply) $"from Kerala" 3
           number_day_reply [($"day1", Num $"5")] 1 (Num $"5")).
  - reflexivity.
  - vm_compute. reflexivity.
  - left. reflexivity.
  - reflexivity.
  - intros d. discriminate.
Defined.

End NutritionProps.

(** ** JSON: decoding what was serialised *)

Module JsonFacts.

Import PyFacts DictFacts Json Dumps Vocabulary.

Lemma scanstring_escaped (s rest : str) :
  scanstring (flat_map escape_char s ++ quote :: rest) = Some (s, rest).
Proof.
  induction s as [|c s IH].
  - reflexivity.
  - cbn [flat_map]. rewrite <- app_assoc. unfold quote in *. cbn in IH.
    destruct c as [[|] [|] [|] [|] [|] [|] [|] [|]];
      cbn; rewrite IH; reflexivity.
Qed.

Lemma skip_ws_blank (a s : str) : blank a -> skip_ws (a ++ s) = skip_ws s.
Proof.
  induction 1 as [|c a Hc _ IH]; [reflexivity|]. cbn. now rewrite Hc.
Qed.

Lemma skip_ws_head (c : ascii) (s : str) :
  is_ws c = false -> skip_ws (c :: s) = c :: s.
Proof. intros H. cbn. now rewrite H. Qed.

Lemma skip_ws_separator (c : ascii) (sep s : str) :
  separator c sep -> is_ws c = false ->
  exists b, blank b /\ skip_ws (sep ++ s) = c :: b ++ s.
Proof.
  intros (a & b & Ha & Hb & ->) Hc. exists b. split; [exact Hb|].
  rewrite <- app_assoc, skip_ws_blank by exact Ha.
  cbn [app]. now apply skip_ws_head.
Qed.

Lemma members_step (fuel : nat) (s : str) (pairs : Dict.dict value) :
  members (S fuel) s pairs =
  match scanstring s with
  | None => Bad
  | Some (key, s1) =>
      match skip_ws s1 with
      | colon :: s2 =>
          if eqc colon (ascii_of_N 58) then
            match scan_once fuel (skip_ws s2) with
            | Done (v, s3) =>
                match skip_ws s3 with
                | c :: s4 =>
                    if eqc c (ascii_of_N 125)
                    then Done (Obj (Dict.set pairs key v), s4)
                    else if eqc c (ascii_of_N 44) then
                      match skip_ws s4 with
                      | q :: s5 =>
                          if eqc q quote
                          then members fuel s5 (Dict.set pairs key v)
                          else Bad
                      | [] => Bad
                      end
                    else Bad
                | [] => Bad
                end
            | Bad => Bad
            | Out => Out
            end
          else Bad
      | [] => Bad
      end
  end.
Proof. reflexivity. Qed.

Section Members.
Variables item_sep key_sep : str.
Hypothesis Hitem : separator (ascii_of_N 44) item_sep.
Hypothesis Hkey : separator (ascii_of_N 58) key_sep.

Lemma join_items (kv : str * value) (ms : Dict.dict value) :
  join item_sep (map (item item_sep key_sep) (kv :: ms))
  = item item_sep key_sep kv ++ more_items item_sep key_sep ms.
Proof.
  revert kv. induction ms as [|kv' ms IH]; intros kv.
  - cbn. now rewrite app_nil_r.
  - change (join item_sep (map (item item_sep key_sep) (kv :: kv' :: ms)))
      with (item item_sep key_sep kv
              ++ item_sep
              ++ join item_sep (map (item item_sep key_sep) (kv' :: ms))).
    rewrite IH. cbn [more_items flat_map]. now rewrite <- app_assoc.
Qed.

Lemma members_scanned (n : nat) (ms : Dict.dict value) :
  forall (k : str) (v : value) (pairs : Dict.dict value) (fuel : nat) (rest : str),
    Forall (fun kv => scans n (snd kv) (dumps_with item_sep key_sep (snd kv)))
           ((k, v) :: ms) ->
    NoDup (Dict.keys pairs ++ Dict.keys ((k, v) :: ms)) ->
    n + length ((k, v) :: ms) <= fuel ->
    members fuel
            (flat_map escape_char k ++ quote
               :: key_sep ++ dumps_with item_sep key_sep v
               ++ more_items item_sep key_sep ms ++ ascii_of_N 125 :: rest)
            pairs
    = Done (Obj (pairs ++ (k, v) :: ms), rest).
Proof.
  induction ms as [|[k2 v2] ms IH]; intros k v pairs fuel rest Hall Hnd Hfuel.
  - destruct fuel as [|fuel]; [cbn in Hfuel; lia|].
    rewrite members_step, scanstring_escaped.
    destruct (skip_ws_separator _ _
                (dumps_with item_sep key_sep v
                   ++ more_items item_sep key_sep [] ++ ascii_of_N 125 :: rest)
                Hkey eq_refl) as (b & Hb & ->).
    cbn [eqc]. rewrite Ascii.eqb_refl.
    rewrite skip_ws_blank by exact Hb.
    inversion Hall as [|? ? [(c & t & Hc & Hws) Hscan] _]; subst. cbn [snd] in *.
    rewrite Hc at 1. cbn [app]. rewrite skip_ws_head by exact Hws.
    change (c :: t ++ ?x) with ((c :: t) ++ x). rewrite <- Hc.
    rewrite Hscan by (cbn in Hfuel; lia).
    cbn [more_items flat_map app]. rewrite skip_ws_head by reflexivity.
    rewrite Ascii.eqb_refl.
    rewrite set_fresh; [reflexivity|].
    apply NoDup_remove_2 in Hnd. intros Hin. apply Hnd, in_or_app. now left.
  - destruct fuel as [|fuel]; [cbn in Hfuel; lia|].
    rewrite members_step, scanstring_escaped.
    destruct (skip_ws_separator _ _
                (dumps_with item_sep key_sep v
                   ++ more_items item_sep key_sep ((k2, v2) :: ms)
                   ++ ascii_of_N 125 :: rest)
                Hkey eq_refl) as (b & Hb & ->).
    cbn [eqc]. rewrite Ascii.eqb_refl.
    rewrite skip_ws_blank by exact Hb.
    inversion Hall as [|? ? [(c & t & Hc & Hws) Hscan] Hall']; subst.
    cbn [snd] in *.
    rewrite Hc at 1. cbn [app]. rewrite skip_ws_head by exact Hws.
    change (c :: t ++ ?x) with ((c :: t) ++ x). rewrite <- Hc.
    rewrite Hscan by (cbn in Hfuel; lia).
    cbn [more_items flat_map]. rewrite <- !app_assoc.
    destruct (skip_ws_separator _ _
                (item item_sep key_sep (k2, v2)
                   ++ flat_map (fun kv => item_sep ++ item item_sep key_sep kv) ms
                   ++ ascii_of_N 125 :: rest)
                Hitem eq_refl) as (b1 & Hb1 & ->).
    replace (eqc (ascii_of_N 44) (ascii_of_N 125)) with false by reflexivity.
    rewrite Ascii.eqb_refl.
    rewrite skip_ws_blank by exact Hb1.
    unfold item at 1, encode_str. cbn [fst snd app].
    rewrite skip_ws_head by reflexivity. rewrite Ascii.eqb_refl.
    rewrite <- !app_assoc. cbn [app].
    assert (Hfresh : ~ In k (Dict.keys pairs)).
    { apply NoDup_remove_2 in Hnd. intros Hin. apply Hnd, in_or_app. now left. }
    rewrite (set_fresh _ _ _ Hfresh).
    fold (more_items item_sep key_sep ms).
    rewrite IH.
    + now rewrite <- app_assoc.
    + exact Hall'.
    + unfold Dict.keys in *. rewrite map_app, <- app_assoc. exact Hnd.
    + cbn [length] in *. lia.
Qed.
End Members.

Lemma scan_once_step (fuel : nat) (c : ascii) (s1 : str) :
  scan_once (S fuel) (c :: s1) =
  if eqc c quote then
    match scanstring s1 with
    | Some (t, rest) => Done (Str t, rest)
    | None => Bad
    end
  else if eqc c (ascii_of_N 123) then
    match skip_ws s1 with
    | c2 :: s2 =>
        if eqc c2 (ascii_of_N 125) then Done (Obj [], s2)
        else if eqc c2 quote then members fuel s2 []
        else Bad
    | [] => Bad
    end
  else if eqc c (ascii_of_N 91) then
    match skip_ws s1 with
    | c2 :: s2 =>
        if eqc c2 (ascii_of_N 93) then Done (Arr [], s2)
        else elements fuel (c2 :: s2) []
    | [] => Bad
    end
  else
    match scan_atom (c :: s1) with
    | Some r => Done r
    | None => Bad
    end.
Proof. reflexivity. Qed.

Section Values.
Variables item_sep key_sep : str.
Hypothesis Hitem : separator (ascii_of_N 44) item_sep.
Hypothesis Hkey : separator (ascii_of_N 58) key_sep.

Lemma scans_str (s : str) : scans 1 (Str s) (dumps_with item_sep key_sep (Str s)).
Proof.
  split.
  - exists quote, (flat_map escape_char s ++ [quote]). now split.
  - intros [|fuel] rest Hfuel; [lia|].
    cbn [dumps_with]. unfold encode_str. cbn [app].
    rewrite scan_once_step, Ascii.eqb_refl, <- app_assoc. cbn [app].
    now rewrite scanstring_escaped.
Qed.

Lemma dumps_obj (ms : Dict.dict value) :
  dumps_with item_sep key_sep (Obj ms)
  = ascii_of_N 123
      :: join item_sep (map (item item_sep key_sep) ms) ++ [ascii_of_N 125].
Proof. reflexivity. Qed.

Lemma scans_obj (n : nat) (ms : Dict.dict value) :
  Forall (fun kv => scans n (snd kv) (dumps_with item_sep key_sep (snd kv))) ms ->
  NoDup (Dict.keys ms) ->
  scans (n + length ms + 1) (Obj ms) (dumps_with item_sep key_sep (Obj ms)).
Proof.
  intros Hall Hnd. rewrite dumps_obj. split.
  - eexists _, _. now split.
  - intros [|fuel] rest Hfuel; [lia|].
    cbn [app]. rewrite scan_once_step.
    replace (eqc (ascii_of_N 123) quote) with false by reflexivity.
    rewrite Ascii.eqb_refl.
    destruct ms as [|[k v] ms].
    + reflexivity.
    + rewrite join_items. unfold item at 1, encode_str. cbn [fst snd app].
      rewrite skip_ws_head by reflexivity.
      replace (eqc quote (ascii_of_N 125)) with false by reflexivity.
      rewrite Ascii.eqb_refl.
      rewrite <- !app_assoc. cbn [app].
      rewrite (members_scanned item_sep key_sep Hitem Hkey n ms k v [] fuel rest);
        [reflexivity | exact Hall | exact Hnd | cbn [length] in *; lia].
Qed.

Lemma length_more_items (ms : Dict.dict value) :
  2 * length ms <= length (more_items item_sep key_sep ms).
Proof.
  induction ms as [|kv ms IH]; [cbn; lia|].
  cbn [more_items flat_map length]. fold (more_items item_sep key_sep ms).
  unfold item, encode_str. rewrite !length_app. cbn [length].
  rewrite length_app. cbn [length]. lia.
Qed.

Lemma length_dumps_obj (ms : Dict.dict value) :
  2 * length ms <= length (dumps_with item_sep key_sep (Obj ms)).
Proof.
  rewrite dumps_obj. destruct ms as [|kv ms]; [cbn; lia|].
  rewrite join_items. cbn [length]. rewrite !length_app.
  pose proof (length_more_items ms).
  unfold item, encode_str. cbn [length app]. rewrite !length_app. cbn [length]. lia.
Qed.

(** A text that is scanned back within the budget of its length is
    decoded by [loads]. *)
Lemma loads_scanned (n : nat) (v : value) (text : str) :
  scans n v text -> n <= S (length text) ->
  startswith bom text = false ->
  loads text = Some v.
Proof.
  intros [(c & t & -> & Hws) Hscan] Hn Hbom. unfold loads, decode.
  rewrite Hbom, skip_ws_head by exact Hws.
  rewrite <- (app_nil_r (c :: t)) at 2.
  now rewrite Hscan by lia.
Qed.
End Values.

(** *** The budget of [loads] is never exhausted *)

Lemma skip_ws_length (s : str) : length (skip_ws s) <= length s.
Proof.
  induction s as [|c s IH]; cbn; [lia|]. destruct (is_ws c); cbn; lia.
Qed.

Lemma push_some (pre : str) (o : option (str * str)) (t r : str) :
  push pre o = Some (t, r) -> exists t', o = Some (t', r).
Proof. destruct o as [[t' r']|]; cbn; [intros [= <- <-]; eauto | discriminate]. Qed.

Lemma scanstring_shorter (n : nat) :
  forall s t r, length s <= n -> scanstring s = Some (t, r) -> length r < length s.
Proof.
  induction n as [|n IH]; intros s t r Hlen.
  - destruct s; [discriminate | cbn in Hlen; lia].
  - destruct s as [|c s1]; [discriminate|]. cbn [scanstring].
    assert (Hrec : forall s' pre, length s' <= length s1 ->
                                  push pre (scanstring s') = Some (t, r) ->
                                  length r < length (c :: s1)).
    { intros s' pre Hs' H. apply push_some in H as [t' H].
      apply IH in H; cbn in *; lia. }
    destruct (eqc c quote); [intros [= <- <-]; cbn; lia|].
    destruct (eqc c backslash).
    + destruct s1 as [|e s2]; [discriminate|].
      destruct (eqc e (ascii_of_N 117)).
      * destruct s2 as [|h1 [|h2 [|h3 [|h4 s6]]]]; try discriminate.
        destruct (hex4 h1 h2 h3 h4) as [uni|]; [|discriminate].
        destruct (is_high uni).
        -- destruct s6 as [|b [|u [|g1 [|g2 [|g3 [|g4 s12]]]]]];
             try (apply Hrec; cbn; lia).
           destruct (eqc b backslash && eqc u (ascii_of_N 117));
             [|apply Hrec; cbn; lia].
           destruct (hex4 g1 g2 g3 g4) as [uni2|]; [|discriminate].
           destruct (is_low uni2); apply Hrec; cbn; lia.
        -- apply Hrec; cbn; lia.
      * destruct (unescape e); [|discriminate]. apply Hrec; cbn; lia.
    + destruct (code c <? 32)%N; [discriminate|]. apply Hrec; cbn; lia.
Qed.

Lemma eat_length (fl : flags) (l s r : str) :
  eat fl l s = Some r -> length s = length l + length r.
Proof.
  revert s. induction l as [|x l IH]; intros s; cbn [eat].
  - now intros [= ->].
  - destruct s as [|c s]; [discriminate|].
    destruct (in_cls fl (Ch x) c); [|discriminate].
    intros H. apply IH in H. cbn [length]. lia.
Qed.

Lemma keyword_shorter (w : string) (v v' : value) (s r : str) :
  w <> EmptyString -> keyword w v s = Some (v', r) -> length r < length s.
Proof.
  intros Hw. unfold keyword.
  destruct (eat _ $w s) as [rest|] eqn:E; [|discriminate].
  intros [= _ <-]. apply eat_length in E.
  destruct w; [contradiction|]. cbn in E. lia.
Qed.

Lemma digits_length (s ds r : str) :
  digits s = (ds, r) -> length r <= length s.
Proof.
  revert ds r. induction s as [|c s IH]; intros ds r; cbn.
  - intros [= _ <-]. cbn. lia.
  - destruct (is_digit c).
    + destruct (digits s) as [ds' r'] eqn:E. intros [= _ <-].
      specialize (IH _ _ eq_refl). lia.
    + intros [= _ <-]. cbn. lia.
Qed.

Lemma match_number_shorter (s lexeme r : str) :
  match_number s = Some (lexeme, r) -> length r < length s.
Proof.
  unfold match_number.
  set (p := match s with
            | c :: t => if eqc c (ascii_of_N 45) then ([c], t) else ([], s)
            | [] => ([], s)
            end).
  assert (Hp : length (snd p) <= length s).
  { subst p. destruct s as [|c t]; cbn [snd length]; [lia|].
    destruct (eqc c (ascii_of_N 45)); cbn [snd length]; lia. }
  destruct p as [sign s1]. cbn [snd] in Hp.
  destruct (int_part s1) as [[i s2]|] eqn:Ei; [|discriminate].
  assert (H2 : length s2 < length s1).
  { unfold int_part in Ei. destruct s1 as [|c s']; [discriminate|].
    destruct (eqc c (ascii_of_N 48)); [injection Ei as <- <-; cbn [length]; lia|].
    destruct (is_digit c); [|discriminate].
    destruct (digits s') as [ds rest] eqn:Ed. injection Ei as <- <-.
    apply digits_length in Ed. cbn [length]. lia. }
  destruct (frac_part s2) as [f s3] eqn:Ef.
  assert (H3 : length s3 <= length s2).
  { unfold frac_part in Ef. destruct s2 as [|dot s']; [injection Ef as <- <-; lia|].
    destruct (eqc dot (ascii_of_N 46)); [|injection Ef as <- <-; lia].
    destruct (digits s') as [[|d ds] rest] eqn:Ed; injection Ef as <- <-;
      [lia|]. apply digits_length in Ed. cbn [length]. lia. }
  destruct (exp_part s3) as [e s4] eqn:Ee.
  assert (H4 : length s4 <= length s3).
  { unfold exp_part in Ee. destruct s3 as [|x s']; [injection Ee as <- <-; lia|].
    destruct (eqc x (ascii_of_N 101) || eqc x (ascii_of_N 69));
      [|injection Ee as <- <-; lia].
    set (q := match s' with
              | g :: t =>
                  if eqc g (ascii_of_N 45) || eqc g (ascii_of_N 43)
                  then ([g], t) else ([], s')
              | [] => ([], s')
              end) in Ee.
    assert (Hq : length (snd q) <= length s').
    { subst q. destruct s' as [|g t]; cbn [snd length]; [lia|].
      destruct (eqc g (ascii_of_N 45) || eqc g (ascii_of_N 43));
        cbn [snd length]; lia. }
    destruct q as [sg s'']. cbn [snd] in Hq.
    destruct (digits s'') as [[|d ds] rest] eqn:Ed; injection Ee as <- <-;
      [lia|]. apply digits_length in Ed. cbn [length]. lia. }
  intros [= _ <-]. lia.
Qed.

Lemma scan_atom_shorter (s : str) (v : value) (r : str) :
  scan_atom s = Some (v, r) -> length r < length s.
Proof.
  unfold scan_atom.
  destruct (keyword "null" Null s) as [[v0 r0]|] eqn:E0;
    [intros [= <- <-]; now apply keyword_shorter in E0|].
  destruct (keyword "true" (Bool true) s) as [[v1 r1]|] eqn:E1;
    [intros [= <- <-]; now apply keyword_shorter in E1|].
  destruct (keyword "false" (Bool false) s) as [[v2 r2]|] eqn:E2;
    [intros [= <- <-]; now apply keyword_shorter in E2|].
  destruct (match_number s) as [[lexeme r3]|] eqn:E3;
    [intros [= <- <-]; now apply match_number_shorter in E3|].
  destruct (keyword "NaN" (Num $"NaN") s) as [[v4 r4]|] eqn:E4;
    [intros [= <- <-]; now apply keyword_shorter in E4|].
  destruct (keyword "Infinity" (Num $"Infinity") s) as [[v5 r5]|] eqn:E5;
    [intros [= <- <-]; now apply keyword_shorter in E5|].
  intros E6. now apply keyword_shorter in E6.
Qed.

Lemma elements_step (fuel : nat) (s : str) (values : list value) :
  elements (S fuel) s values =
  match scan_once fuel s with
  | Done (v, s1) =>
      match skip_ws s1 with
      | c :: s2 =>
          if eqc c (ascii_of_N 93) then Done (Arr (values ++ [v]), s2)
          else if eqc c (ascii_of_N 44)
               then elements fuel (skip_ws s2) (values ++ [v])
               else Bad
      | [] => Bad
      end
  | Bad => Bad
  | Out => Out
  end.
Proof. reflexivity. Qed.

Lemma budget_suffices (fuel : nat) :
  (forall s, 2 * length s + 1 <= fuel ->
     scan_once fuel s <> Out
     /\ forall v r, scan_once fuel s = Done (v, r) -> length r < length s)
  /\ (forall s pairs, 2 * length s + 1 <= fuel ->
     members fuel s pairs <> Out
     /\ forall v r, members fuel s pairs = Done (v, r) -> length r < length s)
  /\ (forall s values, 2 * length s + 2 <= fuel ->
     elements fuel s values <> Out
     /\ forall v r, elements fuel s values = Done (v, r) -> length r < length s).
Proof.
  induction fuel as [|fuel (IHscan & IHmem & IHelt)].
  - repeat split; intros; lia.
  - split; [|split].
    + intros [|c s1] Hfuel; [split; [discriminate|intros; discriminate]|].
      cbn [length] in Hfuel. rewrite scan_once_step.
      destruct (eqc c quote).
      { destruct (scanstring s1) as [[t rest]|] eqn:E;
          [|split; [discriminate|intros; discriminate]].
        apply (scanstring_shorter _ _ _ _ (le_n _)) in E.
        split; [discriminate|]. intros v r [= <- <-]. cbn [length]. lia. }
      destruct (eqc c (ascii_of_N 123)).
      { pose proof (skip_ws_length s1) as Hws.
        destruct (skip_ws s1) as [|c2 s2];
          [split; [discriminate|intros; discriminate]|].
        cbn [length] in Hws.
        destruct (eqc c2 (ascii_of_N 125)).
        - split; [discriminate|]. intros v r [= <- <-]. cbn [length]. lia.
        - destruct (eqc c2 quote); [|split; [discriminate|intros; discriminate]].
          destruct (IHmem s2 [] ltac:(lia)) as [H1 H2].
          split; [exact H1|]. intros v r H. apply H2 in H. cbn [length]. lia. }
      destruct (eqc c (ascii_of_N 91)).
      { pose proof (skip_ws_length s1) as Hws.
        destruct (skip_ws s1) as [|c2 s2];
          [split; [discriminate|intros; discriminate]|].
        cbn [length] in Hws.
        destruct (eqc c2 (ascii_of_N 93)).
        - split; [discriminate|]. intros v r [= <- <-]. cbn [length]. lia.
        - destruct (IHelt (c2 :: s2) [] ltac:(cbn [length]; lia)) as [H1 H2].
          split; [exact H1|]. intros v r H. apply H2 in H. cbn [length] in *. lia. }
      destruct (scan_atom (c :: s1)) as [[v0 r0]|] eqn:E;
        [|split; [discriminate|intros; discriminate]].
      apply scan_atom_shorter in E.
      split; [discriminate|]. now intros v r [= <- <-].
    + intros s pairs Hfuel. rewrite members_step.
      destruct (scanstring s) as [[key s1]|] eqn:E;
        [|split; [discriminate|intros; discriminate]].
      apply (scanstring_shorter _ _ _ _ (le_n _)) in E.
      pose proof (skip_ws_length s1) as Hws1.
      destruct (skip_ws s1) as [|colon s2];
        [split; [discriminate|intros; discriminate]|].
      cbn [length] in Hws1.
      destruct (eqc colon (ascii_of_N 58));
        [|split; [discriminate|intros; discriminate]].
      pose proof (skip_ws_length s2) as Hws2.
      destruct (IHscan (skip_ws s2) ltac:(lia)) as [H1 H2].
      destruct (scan_once fuel (skip_ws s2)) as [[v s3]| |];
        [|split; [discriminate|intros; discriminate]|contradiction].
      specialize (H2 v s3 eq_refl).
      pose proof (skip_ws_length s3) as Hws3.
      destruct (skip_ws s3) as [|c s4];
        [split; [discriminate|intros; discriminate]|].
      cbn [length] in Hws3.
      destruct (eqc c (ascii_of_N 125)).
      { split; [discriminate|]. intros v' r [= <- <-]. lia. }
      destruct (eqc c (ascii_of_N 44));
        [|split; [discriminate|intros; discriminate]].
      pose proof (skip_ws_length s4) as Hws4.
      destruct (skip_ws s4) as [|q s5];
        [split; [discriminate|intros; discriminate]|].
      cbn [length] in Hws4.
      destruct (eqc q quote); [|split; [discriminate|intros; discriminate]].
      destruct (IHmem s5 (Dict.set pairs key v) ltac:(lia)) as [H3 H4].
      split; [exact H3|]. intros v' r H. apply H4 in H. lia.
    + intros s values Hfuel. rewrite elements_step.
      destruct (IHscan s ltac:(lia)) as [H1 H2].
      destruct (scan_once fuel s) as [[v s1]| |];
        [|split; [discriminate|intros; discriminate]|contradiction].
      specialize (H2 v s1 eq_refl).
      pose proof (skip_ws_length s1) as Hws1.
      destruct (skip_ws s1) as [|c s2];
        [split; [discriminate|intros; discriminate]|].
      cbn [length] in Hws1.
      destruct (eqc c (ascii_of_N 93)).
      { split; [discriminate|]. intros v' r [= <- <-]. lia. }
      destruct (eqc c (ascii_of_N 44));
        [|split; [discriminate|intros; discriminate]].
      pose proof (skip_ws_length s2) as Hws2.
      destruct (IHelt (skip_ws s2) (values ++ [v]) ltac:(lia)) as [H3 H4].
      split; [exact H3|]. intros v' r H. apply H4 in H. lia.
Qed.

(** [loads] never runs out of budget: its [None] is a decode error. *)
Theorem loads_total (s : str) : decode (S (2 * length s)) s <> Out.
Proof.
  unfold decode. destruct (startswith bom s); [discriminate|].
  pose proof (skip_ws_length s) as Hws.
  destruct (proj1 (budget_suffices (S (2 * length s))) (skip_ws s) ltac:(lia))
    as [H _].
  destruct (scan_once _ (skip_ws s)) as [[v rest]| |];
    [destruct (skip_ws rest); discriminate | discriminate | contradiction].
Qed.

End JsonFacts.

(** ** Stage 1 on a serialised plan *)

Module RoundTrip.

Import PyFacts DictFacts Json Dumps Nutrition Vocabulary NutritionFacts JsonFacts.

Lemma nodup_day_keys : NoDup day_keys.
Proof. cbn. repeat (constructor; [cbn; intuition discriminate|]). constructor. Qed.

Lemma nodup_meal_keys : NoDup meal_keys.
Proof. cbn. repeat (constructor; [cbn; intuition discriminate|]). constructor. Qed.

Section Exactly.
Context {V : Type}.
Implicit Types (d : Dict.dict V) (ks : list str).

Lemma has_exactly_length ks d :
  NoDup ks -> has_exactly ks d -> length d = length ks.
Proof.
  intros Hks [Hnd Hiff].
  rewrite <- (length_map fst d).
  apply Permutation_length, NoDup_Permutation; assumption.
Qed.

Lemma has_exactly_present ks d k :
  has_exactly ks d -> In k ks -> exists v, Dict.get d k = Some v.
Proof.
  intros [_ Hiff] Hin. apply Hiff, mem_true_iff in Hin.
  unfold Dict.mem in Hin. destruct (Dict.get d k); [eauto | discriminate].
Qed.

Lemma has_exactly_absent ks d k :
  has_exactly ks d -> ~ In k ks -> Dict.get d k = None.
Proof.
  intros [_ Hiff] Hin. apply get_none_iff. now rewrite Hiff.
Qed.
End Exactly.

Lemma get_plan_value (P : Dict.dict (Dict.dict value)) (k : str) :
  Dict.get (map (fun kv => (fst kv, Obj (snd kv))) P) k
  = option_map Obj (Dict.get P k).
Proof.
  induction P as [|[k0 d0] P IH]; cbn; [reflexivity|].
  now destruct (eqs k0 k).
Qed.

Lemma keys_plan_value (P : Dict.dict (Dict.dict value)) :
  Dict.keys (map (fun kv => (fst kv, Obj (snd kv))) P) = Dict.keys P.
Proof. unfold Dict.keys. rewrite map_map. reflexivity. Qed.

Section Decode.
Variables item_sep key_sep : str.
Hypothesis Hitem : separator (ascii_of_N 44) item_sep.
Hypothesis Hkey : separator (ascii_of_N 58) key_sep.

Lemma scans_day (day : Dict.dict value) :
  has_exactly meal_keys day ->
  (forall m v, In (m, v) day -> exists s, v = Str s) ->
  scans 7 (Obj day) (dumps_with item_sep key_sep (Obj day)).
Proof.
  intros Hex Hstr.
  pose proof (has_exactly_length _ _ nodup_meal_keys Hex) as Hlen.
  change 7 with (1 + 5 + 1). change 5 with (length meal_keys). rewrite <- Hlen.
  apply scans_obj; try assumption; [|apply Hex].
  apply Forall_forall. intros [m v] Hin.
  destruct (Hstr m v Hin) as [s ->]. apply scans_str.
Qed.

Lemma loads_plan (P : Dict.dict (Dict.dict value)) :
  schema_valid P ->
  loads (dumps_with item_sep key_sep (plan_value P)) = Some (plan_value P).
Proof.
  intros [Hex Hdays].
  pose proof (has_exactly_length _ _ nodup_day_keys Hex) as Hlen.
  unfold plan_value.
  apply loads_scanned with (n := 7 + length (map (fun kv => (fst kv, Obj (snd kv))) P) + 1).
  - apply scans_obj; try assumption.
    + apply Forall_forall. intros [k v] Hin.
      apply in_map_iff in Hin as ([k' day] & [= <- <-] & Hin).
      destruct (Hdays _ _ Hin) as [Hday Hstr]. now apply scans_day.
    + rewrite keys_plan_value. apply Hex.
  - pose proof (length_dumps_obj item_sep key_sep
                  (map (fun kv => (fst kv, Obj (snd kv))) P)) as Hl.
    rewrite length_map in *. rewrite Hlen in *.
    change (length day_keys) with 7 in *. lia.
  - reflexivity.
Qed.
End Decode.

Lemma stage1_loop_objects (days : list nat) (top : Dict.dict value)
      (acc : Dict.dict (Dict.dict value)) :
  (forall n, In n days -> exists d, Dict.get top (day_key_of n) = Some (Obj d)) ->
  stage1_loop days (Obj top) acc
  = Return (fold_left (fun sr n => Dict.set sr (day_key_of n) (canon (day_of top n)))
                      days acc).
Proof.
  revert acc. induction days as [|n days IH]; intros acc Hall; [reflexivity|].
  cbn [stage1_loop fold_left not_in subscript bind]. unfold Dict.mem, day_of.
  destruct (Hall n (or_introl eq_refl)) as [d ->]. cbn [negb bind].
  rewrite day_entry_canon. cbn [bind].
  apply IH. intros m Hm. apply Hall. now right.
Qed.

Lemma canon_same (d : Dict.dict value) :
  has_exactly meal_keys d -> same_dict (canon d) d.
Proof.
  intros Hex m.
  destruct (in_dec (list_eq_dec ascii_dec) m meal_keys) as [Hin|Hout].
  - destruct (has_exactly_present _ _ _ Hex Hin) as [v Hv].
    rewrite Hv. unfold canon, meal_keys in *. cbn [In map] in *.
    repeat (destruct Hin as [<-|Hin];
            [cbn in Hv |- *; now rewrite Hv|]).
    destruct Hin.
  - rewrite (has_exactly_absent _ _ _ Hex Hout).
    apply get_none_iff. unfold canon, Dict.keys. rewrite map_map. cbn [fst].
    now rewrite map_id.
Qed.

Lemma canon_in_order (d : Dict.dict value) :
  Dict.keys d = meal_keys -> canon d = d.
Proof.
  unfold Dict.keys, meal_keys.
  destruct d as [|[k1 v1] [|[k2 v2] [|[k3 v3] [|[k4 v4] [|[k5 v5] [|? ?]]]]]];
    try discriminate.
  cbn [map fst]. intros [= -> -> -> -> ->]. reflexivity.
Qed.

Lemma day_of_plan (P : Dict.dict (Dict.dict value)) (n : nat) (d : Dict.dict value) :
  Dict.get P (day_key_of n) = Some d ->
  day_of (map (fun kv => (fst kv, Obj (snd kv))) P) n = d.
Proof. intros H. unfold day_of. now rewrite get_plan_value, H. Qed.

Lemma structured_same (P : Dict.dict (Dict.dict value)) :
  schema_valid P ->
  same_plan
    (map (fun n => (day_key_of n,
                    canon (day_of (map (fun kv => (fst kv, Obj (snd kv))) P) n)))
         day_range) P.
Proof.
  intros [Hex Hdays] k.
  destruct (in_dec (list_eq_dec ascii_dec) k day_keys) as [Hin|Hout].
  - destruct (has_exactly_present _ _ _ Hex Hin) as [d Hd]. rewrite Hd.
    assert (Hday : has_exactly meal_keys d) by (apply (Hdays k), in_get, Hd).
    apply in_map_iff in Hin as (n & <- & Hn).
    rewrite (get_in _ (day_key_of n)
               (canon (day_of (map (fun kv => (fst kv, Obj (snd kv))) P) n))).
    + rewrite (day_of_plan _ _ _ Hd). now apply canon_same.
    + unfold Dict.keys. rewrite map_map. exact nodup_day_keys.
    + apply in_map_iff. now exists n.
  - rewrite (has_exactly_absent _ _ _ Hex Hout).
    replace (Dict.get _ k) with (@None (Dict.dict value)); [exact I|].
    symmetry. apply get_none_iff. unfold Dict.keys. now rewrite map_map.
Qed.

Lemma structured_in_order (P : Dict.dict (Dict.dict value)) :
  Dict.keys P = day_keys ->
  (forall k d, In (k, d) P -> Dict.keys d = meal_keys) ->
  map (fun n => (day_key_of n,
                 canon (day_of (map (fun kv => (fst kv, Obj (snd kv))) P) n)))
      day_range = P.
Proof.
  unfold Dict.keys, day_keys, day_range. cbn [seq map].
  destruct P as [|[k1 d1] [|[k2 d2] [|[k3 d3] [|[k4 d4] [|[k5 d5] [|[k6 d6]
                [|[k7 d7] [|? ?]]]]]]]]; try discriminate.
  cbn [map fst]. intros [= -> -> -> -> -> -> ->] Hmeals.
  unfold day_of. cbn [map fst snd].
  repeat match goal with
         | |- context [Dict.get ?t ?k] =>
             let v := eval cbn in (Dict.get t k) in
             change (Dict.get t k) with v
         end.
  cbv beta iota.
  rewrite !canon_in_order; [reflexivity| |  |  |  |  |  | ];
    eapply Hmeals; cbn; eauto 10.
Qed.

(** C4: for every schema-valid plan [P] (exactly the seven day keys, each
    day with exactly the five meal keys, each meal a string), decoding the
    serialisation of [P] and running the loop of Stage 1 returns a plan
    equal to [P] as dicts are compared, with no note; when the keys of [P]
    are in the order day1..day7 and breakfast..dinner, the very same
    list.  The separators may carry JSON whitespace, which covers both the
    default and the compact form.  The extraction of Stage 0 leaves the
    serialised text as it is, so the whole parser returns the same. *)
Theorem C4_stage1_round_trip (P : Dict.dict (Dict.dict value))
        (region item_sep key_sep : str) :
  schema_valid P ->
  separator ","%char item_sep ->
  separator ":"%char key_sep ->
  exists r,
    strict_parse (dumps_with item_sep key_sep (plan_value P)) region
    = Some (Return r)
    /\ parse_reply (dumps_with item_sep key_sep (plan_value P)) region = Return r
    /\ same_plan (diet_plan r) P
    /\ (Dict.keys P = day_keys ->
        (forall k d, In (k, d) P -> Dict.keys d = meal_keys) ->
        diet_plan r = P)
    /\ Nutrition.region r = region
    /\ note r = None.
Proof.
  intros Hvalid Hitem Hkey.
  change (separator (ascii_of_N 44) item_sep) in Hitem.
  change (separator (ascii_of_N 58) key_sep) in Hkey.
  unfold strict_parse, parse_reply.
  assert (Hstage0 : extract_json (dumps_with item_sep key_sep (plan_value P))
                    = dumps_with item_sep key_sep (plan_value P)).
  { unfold plan_value. rewrite dumps_obj.
    exact (extract_json_braces
             (join item_sep
                (map (item item_sep key_sep)
                     (map (fun kv => (fst kv, Obj (snd kv))) P)))). }
  rewrite Hstage0, (loads_plan _ _ Hitem Hkey P Hvalid).
  unfold plan_value, stage1.
  rewrite stage1_loop_objects.
  - rewrite fold_days. cbn [bind]. eexists. split; [reflexivity|].
    split; [reflexivity|].
    cbn [diet_plan Nutrition.region note].
    split; [now apply structured_same|].
    split; [now apply structured_in_order|].
    now split.
  - intros n Hn. rewrite get_plan_value.
    destruct Hvalid as [Hex _].
    destruct (has_exactly_present _ _ (day_key_of n) Hex) as [d ->].
    + apply in_map_iff. now exists n.
    + now exists d.
Qed.

Lemma sample_plan_valid : schema_valid sample_plan.
Proof.
  split.
  - split; [exact nodup_day_keys|]. intros k.
    now change (Dict.keys sample_plan) with day_keys.
  - intros k day Hin. unfold sample_plan in Hin.
    apply in_map_iff in Hin as (k' & [= <- <-] & _).
    split.
    + split; [exact nodup_meal_keys|]. intros m. reflexivity.
    + intros m v Hin. cbn [In] in Hin.
      repeat (destruct Hin as [[= <- <-]|Hin]; [eexists; reflexivity|]).
      destruct Hin.
Qed.

Lemma C4_stage1_round_trip_witness :
  exists r,
    strict_parse (dumps (plan_value sample_plan)) $"kerala" = Some (Return r)
    /\ parse_reply (dumps (plan_value sample_plan)) $"kerala" = Return r
    /\ same_plan (diet_plan r) sample_plan
    /\ (Dict.keys sample_plan = day_keys ->
        (forall k d, In (k, d) sample_plan -> Dict.keys d = meal_keys) ->
        diet_plan r = sample_plan)
    /\ Nutrition.region r = $"kerala"
    /\ note r = None.
Proof.
  apply (C4_stage1_round_trip sample_plan $"kerala" $", " $": ").
  - exact sample_plan_valid.
  - exists [], $" ". repeat split; repeat constructor.
  - exists [], $" ". repeat split; repeat constructor.
Defined.

End RoundTrip.

(** ** The parser around the decoder of the interpreter *)

Module LimitsFacts.

Import PyFacts Json Nutrition Recommendation JsonFacts.

(** With the decoder of the grammar alone the parser is [parse_reply]. *)
Lemma parse_reply_by_grammar (reply region : str) :
  Limits.parse_reply Limits.by_grammar reply region = parse_reply reply region.
Proof.
  unfold Limits.parse_reply, Limits.by_grammar, parse_reply.
  now destruct (loads (extract_json reply)).
Qed.

Lemma request_by_grammar (w : world) (query : str) (limit : Z) :
  Limits.get_nutrition_recommendation Limits.by_grammar w query limit
  = get_nutrition_recommendation w query limit.
Proof.
  unfold Limits.get_nutrition_recommendation, get_nutrition_recommendation.
  destruct (completion w query limit) as [reply|e]; [|reflexivity].
  cbn [bind]. apply parse_reply_by_grammar.
Qed.

Lemma refines_fail {A : Type} (py : Limits.interpreter) (left : nat) :
  Limits.refines (@Limits.fail A py left) Bad.
Proof. unfold Limits.fail. now destruct (left <? Limits.error_levels py). Qed.

Lemma refines_atom (py : Limits.interpreter) (depth : nat) (s : str) :
  Limits.refines (Limits.scan_atom py depth s)
          (match scan_atom s with Some r => Done r | None => Bad end).
Proof.
  unfold Limits.scan_atom.
  destruct (scan_atom s) as [[v rest]|]; [|reflexivity].
  destruct v; try reflexivity.
  destruct (Limits.is_constant lexeme); [now destruct depth|].
  now destruct (Limits.over_limit py lexeme).
Qed.

Lemma limits_scan_once_step (py : Limits.interpreter) (fuel depth : nat)
      (c : ascii) (s1 : str) :
  Limits.scan_once py (S fuel) depth (c :: s1) =
  if eqc c quote then
    match scanstring s1 with
    | Some (t, rest) => Limits.Done (Str t, rest)
    | None => Limits.fail py depth
    end
  else if eqc c (ascii_of_N 123) then
    match depth with
    | O => Limits.Deep
    | S depth' =>
        match skip_ws s1 with
        | c2 :: s2 =>
            if eqc c2 (ascii_of_N 125) then Limits.Done (Obj [], s2)
            else if eqc c2 quote then Limits.members py fuel depth' s2 []
            else Limits.fail py depth'
        | [] => Limits.fail py depth'
        end
    end
  else if eqc c (ascii_of_N 91) then
    match depth with
    | O => Limits.Deep
    | S depth' =>
        match skip_ws s1 with
        | c2 :: s2 =>
            if eqc c2 (ascii_of_N 93) then Limits.Done (Arr [], s2)
            else Limits.elements py fuel depth' (c2 :: s2) []
        | [] => Limits.Stop
        end
    end
  else Limits.scan_atom py depth (c :: s1).
Proof. reflexivity. Qed.

Lemma limits_members_step (py : Limits.interpreter) (fuel depth : nat)
      (s : str) (pairs : Dict.dict value) :
  Limits.members py (S fuel) depth s pairs =
  match scanstring s with
  | None => Limits.fail py depth
  | Some (key, s1) =>
      match skip_ws s1 with
      | colon :: s2 =>
          if eqc colon (ascii_of_N 58) then
            match Limits.scan_once py fuel depth (skip_ws s2) with
            | Limits.Done (v, s3) =>
                match skip_ws s3 with
                | c :: s4 =>
                    if eqc c (ascii_of_N 125)
                    then Limits.Done (Obj (Dict.set pairs key v), s4)
                    else if eqc c (ascii_of_N 44) then
                      match skip_ws s4 with
                      | q :: s5 =>
                          if eqc q quote
                          then Limits.members py fuel depth s5 (Dict.set pairs key v)
                          else Limits.fail py depth
                      | [] => Limits.fail py depth
                      end
                    else Limits.fail py depth
                | [] => Limits.fail py depth
                end
            | Limits.Stop => Limits.Stop
            | Limits.Bad => Limits.Bad
            | Limits.Deep => Limits.Deep
            | Limits.Long => Limits.Long
            | Limits.Out => Limits.Out
            end
          else Limits.fail py depth
      | [] => Limits.fail py depth
      end
  end.
Proof. reflexivity. Qed.

Lemma limits_elements_step (py : Limits.interpreter) (fuel depth : nat)
      (s : str) (values : list value) :
  Limits.elements py (S fuel) depth s values =
  match Limits.scan_once py fuel depth s with
  | Limits.Done (v, s1) =>
      match skip_ws s1 with
      | c :: s2 =>
          if eqc c (ascii_of_N 93) then Limits.Done (Arr (values ++ [v]), s2)
          else if eqc c (ascii_of_N 44)
               then Limits.elements py fuel depth (skip_ws s2) (values ++ [v])
               else Limits.fail py depth
      | [] => Limits.fail py depth
      end
  | Limits.Stop => Limits.Stop
  | Limits.Bad => Limits.Bad
  | Limits.Deep => Limits.Deep
  | Limits.Long => Limits.Long
  | Limits.Out => Limits.Out
  end.
Proof. reflexivity. Qed.

Lemma scanner_refines (py : Limits.interpreter) (fuel : nat) :
  (forall depth s,
     Limits.refines (Limits.scan_once py fuel depth s) (scan_once fuel s))
  /\ (forall depth s pairs,
        Limits.refines (Limits.members py fuel depth s pairs)
                       (members fuel s pairs))
  /\ (forall depth s values,
        Limits.refines (Limits.elements py fuel depth s values)
                       (elements fuel s values)).
Proof.
  induction fuel as [|fuel (IHscan & IHmem & IHelt)].
  - repeat split; intros; reflexivity.
  - split; [|split].
    + intros depth [|c s1]; [reflexivity|].
      rewrite limits_scan_once_step, scan_once_step.
      destruct (eqc c quote).
      { destruct (scanstring s1) as [[t rest]|]; [reflexivity|apply refines_fail]. }
      destruct (eqc c (ascii_of_N 123)).
      { destruct depth as [|depth']; [exact I|].
        destruct (skip_ws s1) as [|c2 s2]; [apply refines_fail|].
        destruct (eqc c2 (ascii_of_N 125)); [reflexivity|].
        destruct (eqc c2 quote); [apply IHmem | apply refines_fail]. }
      destruct (eqc c (ascii_of_N 91)).
      { destruct depth as [|depth']; [exact I|].
        destruct (skip_ws s1) as [|c2 s2]; [reflexivity|].
        destruct (eqc c2 (ascii_of_N 93)); [reflexivity|]. apply IHelt. }
      apply refines_atom.
    + intros depth s pairs. rewrite limits_members_step, members_step.
      destruct (scanstring s) as [[key s1]|]; [|apply refines_fail].
      destruct (skip_ws s1) as [|colon s2]; [apply refines_fail|].
      destruct (eqc colon (ascii_of_N 58)); [|apply refines_fail].
      pose proof (IHscan depth (skip_ws s2)) as H.
      destruct (Limits.scan_once py fuel depth (skip_ws s2)) as [[v s3]| | | | |];
        cbn [Limits.refines] in H; try rewrite H; try reflexivity.
      destruct (skip_ws s3) as [|c s4]; [apply refines_fail|].
      destruct (eqc c (ascii_of_N 125)); [reflexivity|].
      destruct (eqc c (ascii_of_N 44)); [|apply refines_fail].
      destruct (skip_ws s4) as [|q s5]; [apply refines_fail|].
      destruct (eqc q quote); [apply IHmem | apply refines_fail].
    + intros depth s values. rewrite limits_elements_step, elements_step.
      pose proof (IHscan depth s) as H.
      destruct (Limits.scan_once py fuel depth s) as [[v s1]| | | | |];
        cbn [Limits.refines] in H; try rewrite H; try reflexivity.
      destruct (skip_ws s1) as [|c s2]; [apply refines_fail|].
      destruct (eqc c (ascii_of_N 93)); [reflexivity|].
      destruct (eqc c (ascii_of_N 44)); [apply IHelt | apply refines_fail].
Qed.

Lemma decode_refines (py : Limits.interpreter) (fuel : nat) (s : str) :
  Limits.refines (Limits.decode py fuel s) (decode fuel s).
Proof.
  unfold Limits.decode, decode.
  destruct (startswith bom s); [apply refines_fail|].
  pose proof (proj1 (scanner_refines py fuel) (Limits.levels py) (skip_ws s)) as H.
  destruct (Limits.scan_once py fuel (Limits.levels py) (skip_ws s))
    as [[v rest]| | | | |]; cbn [Limits.refines] in H; try rewrite H;
    try reflexivity.
  - destruct (skip_ws rest); [reflexivity|apply refines_fail].
  - apply refines_fail.
Qed.

(** The budget of [Limits.loads] is never exhausted. *)
Lemma decode_in_budget (py : Limits.interpreter) (s : str) :
  Limits.decode py (S (2 * length s)) s <> Limits.Out.
Proof.
  intros H. pose proof (decode_refines py (S (2 * length s)) s) as R.
  rewrite H in R. now apply (loads_total s).
Qed.

(** The decoder of the interpreter raises one of three exceptions; when it
    returns or raises the decode error, the grammar says the same. *)
Lemma loads_in_interpreter (py : Limits.interpreter) (s : str) :
  match Limits.loads py s with
  | Return v => loads s = Some v
  | Raise JSONDecodeError => loads s = None
  | Raise e => e = RecursionError \/ e = ValueError
  end.
Proof.
  unfold Limits.loads, loads.
  pose proof (decode_refines py (S (2 * length s)) s) as H.
  destruct (Limits.decode py (S (2 * length s)) s); cbn [Limits.refines] in H;
    try rewrite H; auto.
Qed.

(** Unless the decoder of the interpreter raises [RecursionError] or
    [ValueError], the parser around it is [parse_reply]. *)
Lemma parse_reply_in_interpreter (py : Limits.interpreter) (reply region : str) :
  Limits.loads py (extract_json reply) <> Raise RecursionError ->
  Limits.loads py (extract_json reply) <> Raise ValueError ->
  Limits.parse_reply (Limits.loads py) reply region = parse_reply reply region.
Proof.
  intros Hdeep Hlong. unfold Limits.parse_reply, parse_reply.
  pose proof (loads_in_interpreter py (extract_json reply)) as H.
  destruct (Limits.loads py (extract_json reply)) as [v|e].
  - now rewrite H.
  - destruct e; try (destruct H; discriminate || congruence).
    now rewrite H.
Qed.

End LimitsFacts.

(** * Further properties *)

(** ** Strings *)

Module StringFacts.

Import PyFacts.

Lemma lower_char_idem (c : ascii) : lower_char (lower_char c) = lower_char c.
Proof.
  destruct c as [[|] [|] [|] [|] [|] [|] [|] [|]]; reflexivity.
Qed.

Lemma lower_idem (s : str) : lower (lower s) = lower s.
Proof.
  unfold lower. rewrite map_map. apply map_ext. intros c. apply lower_char_idem.
Qed.

Lemma lower_folded (s : str) : Forall (fun c => lower_char c = c) (lower s).
Proof.
  unfold lower. apply Forall_forall. intros c Hin.
  apply in_map_iff in Hin as (x & <- & _). apply lower_char_idem.
Qed.

Lemma lower_skipn (n : nat) (s : str) : lower (skipn n s) = skipn n (lower s).
Proof. unfold lower. symmetry. apply skipn_map. Qed.

Lemma lower_char_newline (x : ascii) : lower_char x = newline -> x = newline.
Proof.
  destruct x as [[|] [|] [|] [|] [|] [|] [|] [|]]; vm_compute;
    intros H; try discriminate; reflexivity.
Qed.

Section Pieces.
Variable Q : ascii -> Prop.

Lemma lstrip_forall (s : str) : Forall Q s -> Forall Q (lstrip s).
Proof.
  induction 1 as [|c s Hc Hs IH]; cbn; [constructor|].
  destruct (is_space c); [exact IH | now constructor].
Qed.

Lemma strip_forall (s : str) : Forall Q s -> Forall Q (strip s).
Proof.
  intros H. unfold strip, rstrip.
  apply Forall_rev, lstrip_forall, Forall_rev, lstrip_forall, H.
Qed.

Lemma split_go_forall (sep s : str) (skip : nat) (cur : str) :
  Forall Q s -> Forall Q cur -> Forall (Forall Q) (split_go sep s skip cur).
Proof.
  intros Hs. revert skip cur.
  induction Hs as [|c s Hc Hs IH]; intros skip cur Hcur; cbn [split_go].
  - constructor; [now apply Forall_rev | constructor].
  - destruct skip as [|n]; [|now apply IH].
    destruct (startswith sep (c :: s)).
    + constructor; [now apply Forall_rev | apply IH; constructor].
    + apply IH. now constructor.
Qed.

Lemma words_go_tokens (s cur : str) :
  Forall Q s ->
  Forall (fun c => is_space c = false /\ Q c) cur ->
  Forall (fun w => w <> [] /\ Forall (fun c => is_space c = false /\ Q c) w)
         (words_go s cur).
Proof.
  intros Hs. revert cur.
  assert (Hflush : forall cur r,
             Forall (fun c => is_space c = false /\ Q c) cur ->
             Forall (fun w => w <> [] /\ Forall (fun c => is_space c = false /\ Q c) w) r ->
             Forall (fun w => w <> [] /\ Forall (fun c => is_space c = false /\ Q c) w)
                    (match cur with [] => r | _ => rev cur :: r end)).
  { intros [|x cur] r Hcur Hr; [exact Hr|].
    constructor; [|exact Hr]. split; [|now apply Forall_rev].
    intros E. apply (f_equal (@length _)) in E. rewrite length_rev in E. discriminate. }
  induction Hs as [|c s Hc Hs IH]; intros cur Hcur; cbn [words_go].
  - destruct cur as [|x cur]; [constructor|].
    apply (Hflush (x :: cur) [] Hcur). constructor.
  - destruct (is_space c) eqn:Ec.
    + destruct cur as [|x cur]; [apply IH; constructor|].
      apply (Hflush (x :: cur) _ Hcur). apply IH. constructor.
    + apply IH. constructor; [now split | exact Hcur].
Qed.
End Pieces.

Lemma lstrip_clean (s : str) :
  match lstrip s with
  | [] => True
  | c :: _ => is_space c = false
  end.
Proof.
  induction s as [|c s IH]; cbn; [exact I|].
  destruct (is_space c) eqn:E; [exact IH | exact E].
Qed.

Lemma lstrip_fixed (s : str) :
  match s with [] => True | c :: _ => is_space c = false end -> lstrip s = s.
Proof. destruct s as [|c s]; cbn; [reflexivity|]. now intros ->. Qed.

Lemma lstrip_idem (s : str) : lstrip (lstrip s) = lstrip s.
Proof. apply lstrip_fixed, lstrip_clean. Qed.

Lemma lstrip_split (s : str) :
  exists a, s = a ++ lstrip s /\ Forall (fun c => is_space c = true) a.
Proof.
  induction s as [|c s (a & Ha & Hall)]; cbn.
  - exists []. now split.
  - destruct (is_space c) eqn:E.
    + exists (c :: a). split; [cbn; now f_equal | now constructor].
    + exists []. now split.
Qed.

Lemma rstrip_idem (s : str) : rstrip (rstrip s) = rstrip s.
Proof. unfold rstrip. now rewrite rev_involutive, lstrip_idem. Qed.

Lemma rstrip_keeps_head (s : str) :
  match s with [] => True | c :: _ => is_space c = false end ->
  match rstrip s with [] => True | c :: _ => is_space c = false end.
Proof.
  intros Hs. unfold rstrip.
  destruct (lstrip_split (rev s)) as (a & Ha & Hall).
  apply (f_equal (@rev _)) in Ha. rewrite rev_involutive, rev_app_distr in Ha.
  destruct (rev (lstrip (rev s))) as [|x t]; [exact I|].
  rewrite Ha in Hs. exact Hs.
Qed.

Lemma strip_idem (s : str) : strip (strip s) = strip s.
Proof.
  unfold strip.
  rewrite (lstrip_fixed (rstrip (lstrip s)))
    by apply rstrip_keeps_head, lstrip_clean.
  apply rstrip_idem.
Qed.

Lemma rstrip_nonempty (s : str) :
  (exists c, In c s /\ is_space c = false) -> rstrip s <> [].
Proof.
  intros (c & Hin & Hc) E. unfold rstrip in E.
  destruct (lstrip_split (rev s)) as (a & Ha & Hall).
  apply (f_equal (@rev _)) in E. rewrite rev_involutive in E. cbn in E.
  rewrite E, app_nil_r in Ha.
  apply in_rev in Hin. rewrite Ha in Hin.
  rewrite Forall_forall in Hall. apply Hall in Hin. congruence.
Qed.

Lemma strip_head (c : ascii) (s : str) :
  is_space c = false -> exists t, strip (c :: s) = c :: t.
Proof.
  intros Hc. unfold strip. cbn [lstrip]. rewrite Hc.
  pose proof (rstrip_nonempty (c :: s)) as Hne.
  unfold rstrip in *.
  destruct (lstrip_split (rev (c :: s))) as (a & Ha & Hall).
  apply (f_equal (@rev _)) in Ha. rewrite rev_involutive, rev_app_distr in Ha.
  destruct (rev (lstrip (rev (c :: s)))) as [|x t].
  - destruct Hne; [|reflexivity]. exists c. split; [now left | exact Hc].
  - injection Ha as -> _. now exists t.
Qed.

Lemma split_go_head (sep s : str) (skip : nat) (cur : str) :
  exists t rest, split_go sep s skip cur = (rev cur ++ t) :: rest.
Proof.
  revert skip cur. induction s as [|c s IH]; intros skip cur; cbn [split_go].
  - exists [], []. now rewrite app_nil_r.
  - destruct skip as [|n]; [|apply IH].
    destruct (startswith sep (c :: s)).
    + exists [], (split_go sep s (length sep - 1) []). now rewrite app_nil_r.
    + destruct (IH 0 (c :: cur)) as (t & rest & ->).
      exists (c :: t), rest. cbn [rev]. now rewrite <- app_assoc.
Qed.

Lemma split_char_pieces (c : ascii) (s cur : str) :
  ~ In c cur -> Forall (fun p => ~ In c p) (split_go [c] s 0 cur).
Proof.
  revert cur. induction s as [|x s IH]; intros cur Hcur; cbn [split_go].
  - constructor; [|constructor]. intros Hin. now apply in_rev in Hin.
  - cbn [startswith length Nat.sub]. rewrite andb_true_r.
    destruct (eqc c x) eqn:E.
    + constructor; [intros Hin; now apply in_rev in Hin|]. apply IH. intros [].
    + apply IH. intros [->|Hin]; [|contradiction]. now rewrite eqc_refl in E.
Qed.

Lemma startswith_char (c : ascii) (s : str) :
  startswith [c] s = true <-> exists t, s = c :: t.
Proof.
  destruct s as [|x s]; cbn.
  - split; [discriminate | intros [t H]; discriminate].
  - rewrite andb_true_r. split.
    + intros H. apply eqc_eq in H. subst. now exists s.
    + intros [t [= -> _]]. apply eqc_refl.
Qed.

Lemma endswith_char (c : ascii) (s : str) :
  endswith [c] s = true <-> exists t, s = t ++ [c].
Proof.
  unfold endswith. cbn [rev app]. rewrite startswith_char. split.
  - intros [t H]. exists (rev t).
    rewrite <- (rev_involutive s), H. reflexivity.
  - intros [t ->]. exists (rev t). now rewrite rev_app_distr.
Qed.

Lemma startswith_prefix (p q s : str) :
  startswith (p ++ q) s = true -> startswith p s = true.
Proof.
  revert s. induction p as [|a p IH]; intros s; [reflexivity|].
  destruct s as [|c s]; [discriminate|]. cbn.
  intros H. apply andb_true_iff in H as [-> H]. now apply IH.
Qed.

Lemma find_char (c : ascii) (s : str) :
  match find [c] s with
  | Some n => exists a b, s = a ++ c :: b /\ length a = n /\ ~ In c a
  | None => ~ In c s
  end.
Proof.
  induction s as [|x s IH].
  - cbn. tauto.
  - cbn [find]. destruct (startswith [c] (x :: s)) eqn:E.
    + apply startswith_char in E as [t [= -> ->]].
      exists [], t. repeat split. intros [].
    + destruct (find [c] s) as [n|]; cbn [option_map].
      * destruct IH as (a & b & -> & <- & Hnot).
        exists (x :: a), b. repeat split.
        intros [->|Hin]; [|contradiction].
        cbn in E. now rewrite eqc_refl in E.
      * intros [->|Hin]; [|contradiction].
        cbn in E. now rewrite eqc_refl in E.
Qed.

Lemma rfind_char (c : ascii) (s : str) :
  match rfind [c] s with
  | Some n => exists a b, s = a ++ c :: b /\ length a = n /\ ~ In c b
  | None => ~ In c s
  end.
Proof.
  induction s as [|x s IH].
  - cbn. tauto.
  - cbn [rfind]. destruct (rfind [c] s) as [n|].
    + destruct IH as (a & b & -> & <- & Hnot).
      exists (x :: a), b. now repeat split.
    + destruct (startswith [c] (x :: s)) eqn:E.
      * apply startswith_char in E as [t [= -> ->]].
        exists [], t. now repeat split.
      * intros [->|Hin]; [|contradiction].
        cbn in E. now rewrite eqc_refl in E.
Qed.

Lemma find_first (sub : str) :
  forall s n, find sub s = Some n ->
              forall i, i < n -> startswith sub (skipn i s) = false.
Proof.
  induction s as [|c s IH]; intros n; cbn [find].
  - destruct (startswith sub []); [|discriminate]. intros [= <-] i Hi. lia.
  - destruct (startswith sub (c :: s)) eqn:E; [intros [= <-] i Hi; lia|].
    destruct (find sub s) as [m|] eqn:Ef; [|discriminate].
    intros [= <-] [|i] Hi; [exact E|]. cbn [skipn]. apply (IH m eq_refl). lia.
Qed.

(** No day block where the text has no [day], in whatever case. *)
Lemma find_none_startswith (sub s : str) :
  find sub s = None ->
  startswith sub s = false
  /\ match s with [] => True | _ :: s' => find sub s' = None end.
Proof.
  destruct s as [|c s]; cbn [find].
  - destruct (startswith sub []); [discriminate | now split].
  - destruct (startswith sub (c :: s)); [discriminate|].
    destruct (find sub s); [discriminate | now split].
Qed.

Lemma neq_eqc (x c : ascii) : x <> c -> eqc x c = false.
Proof.
  intros H. destruct (eqc x c) eqn:E; [|reflexivity]. now apply eqc_eq in E.
Qed.

Lemma skipn_in_prefix (pre rest : str) (i : nat) :
  i < length pre ->
  exists c t, skipn i (pre ++ rest) = c :: t /\ In c pre.
Proof.
  revert i. induction pre as [|x pre IH]; intros i Hi; [cbn in Hi; lia|].
  destruct i as [|i].
  - exists x, (pre ++ rest). split; [reflexivity | now left].
  - cbn [length] in Hi. destruct (IH i ltac:(lia)) as (c & t & H & Hin).
    exists c, t. split; [exact H | now right].
Qed.

End StringFacts.

(** ** The matcher *)

Module ReFacts.

Import PyFacts Shapes.

Section Inversion.
Variable fl : flags.

Lemma greedy_inv {R : Type} (k : cls) (cont : str -> option R) (s : str) (r : R) :
  greedy fl k cont s = Some r ->
  exists n, n <= length s
            /\ Forall (fun c => in_cls fl k c = true) (firstn n s)
            /\ cont (skipn n s) = Some r.
Proof.
  induction s as [|c s IH]; cbn [greedy].
  - intros H. exists 0. split; [cbn; lia | split; [constructor | exact H]].
  - destruct (in_cls fl k c) eqn:Ec.
    + destruct (greedy fl k cont s) as [r'|] eqn:Eg.
      * intros [= <-]. destruct (IH eq_refl) as (n & Hn & Hall & Hc).
        exists (S n). cbn [length firstn skipn].
        split; [lia | split; [now constructor | exact Hc]].
      * intros H. exists 0. split; [cbn; lia | split; [constructor | exact H]].
    + intros H. exists 0. split; [cbn; lia | split; [constructor | exact H]].
Qed.

Lemma lazy_inv {R : Type} (k : cls) (cont : str -> option R) (s : str) (r : R) :
  lazy fl k cont s = Some r ->
  exists n, n <= length s
            /\ Forall (fun c => in_cls fl k c = true) (firstn n s)
            /\ cont (skipn n s) = Some r.
Proof.
  induction s as [|c s IH]; cbn [lazy].
  - destruct (cont []) as [r'|] eqn:E; [|discriminate].
    intros [= <-]. exists 0. split; [cbn; lia | split; [constructor | exact E]].
  - destruct (cont (c :: s)) as [r'|] eqn:E.
    + intros [= <-]. exists 0. split; [cbn; lia | split; [constructor | exact E]].
    + destruct (in_cls fl k c) eqn:Ec; [|discriminate].
      intros H. destruct (IH H) as (n & Hn & Hall & Hc).
      exists (S n). cbn [length firstn skipn].
      split; [lia | split; [now constructor | exact Hc]].
Qed.

(** A successful match hands its result over from the continuation, and
    the groups it does not capture are passed on as they were. *)
Lemma exec_inv (a : regex) :
  forall (R : Type) (s : str) (caps : captures)
         (cont : str -> captures -> option R) (r : R),
    exec fl a s caps cont = Some r ->
    exists s' caps',
      cont s' caps' = Some r
      /\ forall n, no_group n a = true -> group caps' n = group caps n.
Proof.
  induction a as [l|k|k|k|a1 IH1 a2 IH2|a1 IH1 a2 IH2|m a1 IH1|a1 IH1|];
    intros R s caps cont r; cbn [exec no_group].
  - destruct (eat fl l s) as [s'|]; [|discriminate]. intros H. now exists s', caps.
  - intros H. apply greedy_inv in H as (n & _ & _ & H). now exists (skipn n s), caps.
  - intros H. apply lazy_inv in H as (n & _ & _ & H). now exists (skipn n s), caps.
  - destruct s as [|c s']; [discriminate|].
    destruct (in_cls fl k c); [|discriminate].
    intros H. apply greedy_inv in H as (n & _ & _ & H). now exists (skipn n s'), caps.
  - intros H. apply IH1 in H as (s1 & caps1 & H & Hg1).
    apply IH2 in H as (s2 & caps2 & H & Hg2).
    exists s2, caps2. split; [exact H|].
    intros n Hn. apply andb_true_iff in Hn as [Hn1 Hn2].
    now rewrite Hg2, Hg1.
  - destruct (exec fl a1 s caps cont) as [r'|] eqn:E.
    + intros [= <-]. apply IH1 in E as (s1 & caps1 & H & Hg1).
      exists s1, caps1. split; [exact H|].
      intros n Hn. apply andb_true_iff in Hn as [Hn1 _]. now apply Hg1.
    + intros H. apply IH2 in H as (s2 & caps2 & H & Hg2).
      exists s2, caps2. split; [exact H|].
      intros n Hn. apply andb_true_iff in Hn as [_ Hn2]. now apply Hg2.
  - intros H. apply IH1 in H as (s1 & caps1 & H & Hg1).
    exists s1, ((m, consumed s s1) :: caps1). split; [exact H|].
    intros n Hn. apply andb_true_iff in Hn as [Hm Hn].
    cbn [group]. apply negb_true_iff in Hm. rewrite Hm. now apply Hg1.
  - destruct (exec fl a1 s caps (fun _ caps' => Some caps')) as [caps0|] eqn:E;
      [|discriminate].
    apply IH1 in E as (s1 & caps1 & [= ->] & Hg1).
    intros H. now exists s, caps0.
  - destruct (at_end s); [|discriminate]. intros H. now exists s, caps.
Qed.

(** A greedy run takes the whole of a stretch that ends where the class
    ends, when what follows succeeds there. *)
Lemma greedy_run {R : Type} (k : cls) (cont : str -> option R)
      (a b : str) (r : R) :
  Forall (fun c => in_cls fl k c = true) a ->
  match b with [] => True | c :: _ => in_cls fl k c = false end ->
  cont b = Some r ->
  greedy fl k cont (a ++ b) = Some r.
Proof.
  intros Ha Hb Hc. induction Ha as [|x a Hx Ha IH]; cbn [app].
  - destruct b as [|c b]; cbn [greedy]; [exact Hc|]. now rewrite Hb.
  - cbn [greedy]. now rewrite Hx, IH.
Qed.

Lemma greedy_app {R : Type} (k : cls) (cont : str -> option R)
      (a b : str) (r : R) :
  Forall (fun c => in_cls fl k c = true) a ->
  greedy fl k cont b = Some r ->
  greedy fl k cont (a ++ b) = Some r.
Proof.
  intros Ha Hb. induction Ha as [|x a Hx Ha IH]; cbn [app]; [exact Hb|].
  cbn [greedy]. now rewrite Hx, IH.
Qed.

Lemma greedy_none {R : Type} (k : cls) (cont : str -> option R) (s : str) :
  (forall i, cont (skipn i s) = None) -> greedy fl k cont s = None.
Proof.
  induction s as [|c s IH]; intros Hnone; cbn [greedy].
  - apply (Hnone 0).
  - rewrite IH by (intros i; apply (Hnone (S i))).
    rewrite (Hnone 0 : cont (c :: s) = None). now destruct (in_cls fl k c).
Qed.

(** A lazy run stops at the first place where what follows succeeds. *)
Lemma lazy_run {R : Type} (k : cls) (cont : str -> option R)
      (a b : str) (r : R) :
  Forall (fun c => in_cls fl k c = true) a ->
  (forall a1 a2, a = a1 ++ a2 -> a2 <> [] -> cont (a2 ++ b) = None) ->
  cont b = Some r ->
  lazy fl k cont (a ++ b) = Some r.
Proof.
  intros Ha. induction Ha as [|x a Hx Ha IH]; intros Hnone Hb; cbn [app].
  - destruct b as [|c b]; cbn [lazy]; now rewrite Hb.
  - pose proof (Hnone [] (x :: a) eq_refl ltac:(discriminate)) as H0.
    cbn [app] in H0. cbn [lazy]. rewrite H0, Hx. apply IH; [|exact Hb].
    intros a1 a2 -> Ha2. now apply (Hnone (x :: a1) a2).
Qed.

Lemma eat_ignorecase (l s r : str) :
  IGNORECASE fl = true ->
  eat fl l s = Some r -> startswith (lower l) (lower s) = true.
Proof.
  intros Hic. revert s. induction l as [|x l IH]; intros s; [reflexivity|].
  destruct s as [|c s]; [discriminate|]. cbn [eat in_cls]. rewrite Hic.
  destruct (eqc (lower_char x) (lower_char c)) eqn:E; [|discriminate].
  intros H. cbn [lower map startswith]. rewrite E. now apply IH.
Qed.

Lemma eat_self (l s : str) : eat fl l (l ++ s) = Some s.
Proof.
  induction l as [|x l IH]; [reflexivity|].
  cbn [app eat in_cls]. rewrite !eqc_refl. now destruct (IGNORECASE fl).
Qed.

(** Without regard to case, a literal is there in any spelling. *)
Lemma eat_any_case (l spelt s : str) :
  IGNORECASE fl = true -> lower spelt = lower l ->
  eat fl l (spelt ++ s) = Some s.
Proof.
  intros Hic. revert spelt.
  induction l as [|x l IH]; intros [|c spelt]; try discriminate; [reflexivity|].
  cbn [lower map]. intros [= Hc Hl].
  cbn [app eat in_cls]. rewrite Hic, <- Hc, eqc_refl. now apply IH.
Qed.

(** The search moves on over the positions where the pattern does not
    match. *)
Lemma search_skip (a : regex) (n : nat) :
  forall s, (forall i, i < n -> match_here fl a (skipn i s) = None) ->
            search fl a s = search fl a (skipn n s).
Proof.
  induction n as [|n IH]; intros s Hnone; [reflexivity|].
  destruct s as [|c s]; [reflexivity|].
  pose proof (Hnone 0 ltac:(lia)) as H0. cbn [skipn] in H0.
  cbn [search skipn]. rewrite H0.
  apply IH. intros i Hi. apply (Hnone (S i)). lia.
Qed.

Lemma search_here (a : regex) (s rest : str) (caps : captures) :
  match_here fl a s = Some (caps, rest) -> search fl a s = Some caps.
Proof. intros H. destruct s; cbn [search]; now rewrite H. Qed.

Lemma search_inv (a : regex) (s : str) (caps : captures) :
  search fl a s = Some caps ->
  exists n rest, match_here fl a (skipn n s) = Some (caps, rest).
Proof.
  induction s as [|c s IH]; cbn [search].
  - destruct (match_here fl a []) as [[caps' rest]|] eqn:E; [|discriminate].
    intros [= <-]. now exists 0, rest.
  - destruct (match_here fl a (c :: s)) as [[caps' rest]|] eqn:E.
    + intros [= <-]. now exists 0, rest.
    + intros H. destruct (IH H) as (n & rest & Hn). now exists (S n), rest.
Qed.

Lemma consumed_app (a b : str) : consumed (a ++ b) b = a.
Proof.
  unfold consumed. rewrite length_app.
  replace (length a + length b - length b) with (length a) by lia.
  now rewrite firstn_app, firstn_all, Nat.sub_diag, app_nil_r.
Qed.

Lemma findall_go_in (a : regex) (m : str * str) :
  forall (s : str) (skip : nat),
    In m (findall_go fl a s skip) ->
    exists s' caps rest, match_here fl a s' = Some (caps, rest) /\ m = pair_of caps.
Proof.
  induction s as [|c s IH]; intros skip.
  - destruct skip; cbn [findall_go]; [|intros []].
    destruct (match_here fl a []) as [[caps rest]|] eqn:E; [|intros []].
    intros [<-|[]]. now exists [], caps, rest.
  - destruct skip; cbn [findall_go]; [|apply IH].
    destruct (match_here fl a (c :: s)) as [[caps rest]|] eqn:E; [|apply IH].
    intros [<-|Hin]; [now exists (c :: s), caps, rest | now apply IH in Hin].
Qed.
End Inversion.

End ReFacts.

(** ** Dicts *)

Module DictMore.

Import PyFacts DictFacts.

Lemma in_set {V : Type} (d : Dict.dict V) (k k' : str) (v v' : V) :
  In (k, v) (Dict.set d k' v') -> (k, v) = (k', v') \/ In (k, v) d.
Proof.
  induction d as [|[k0 v0] d IH]; cbn.
  - intros [H|[]]. now left.
  - destruct (eqs k0 k') eqn:E; cbn.
    + apply eqs_eq in E. subst k0. intros [H|H]; [now left | right; now right].
    + intros [H|H]; [right; now left|]. apply IH in H as [H|H]; [now left|right; now right].
Qed.

Lemma nodup_keys_set {V : Type} (d : Dict.dict V) (k : str) (v : V) :
  NoDup (Dict.keys d) -> NoDup (Dict.keys (Dict.set d k v)).
Proof.
  intros Hnd. rewrite keys_set. destruct (Dict.mem k d) eqn:E; [exact Hnd|].
  apply NoDup_app; [exact Hnd | repeat constructor; intros [] |].
  intros x Hin [<-|[]]. apply mem_true_iff in Hin. congruence.
Qed.

Lemma nodup_keys_filter {V : Type} (f : str * V -> bool) (d : Dict.dict V) :
  NoDup (Dict.keys d) -> NoDup (Dict.keys (filter f d)).
Proof.
  induction d as [|kv d IH]; cbn; [constructor|].
  intros Hnd. inversion Hnd as [|? ? Hnot Hnd']; subst.
  destruct (f kv); cbn; [|now apply IH].
  constructor; [|now apply IH].
  intros Hin. apply Hnot. unfold Dict.keys in *.
  apply in_map_iff in Hin as (x & Hx & Hin). apply filter_In in Hin as [Hin _].
  apply in_map_iff. now exists x.
Qed.

End DictMore.

(** ** The region *)

Module RegionShape.

Import PyFacts Region Vocabulary RegionFacts Shapes StringFacts.

Lemma tokens_after_tokens (keyword query : str) :
  Forall token (tokens_after keyword query).
Proof.
  unfold tokens_after, words.
  assert (H : Forall (fun c => lower_char c = c)
                     (strip (nth 1 (split keyword (lower query)) []))).
  { apply strip_forall.
    pose proof (split_go_forall (fun c => lower_char c = c) keyword (lower query) 0 []
                  (lower_folded query) (Forall_nil _)) as Hall.
    fold (split keyword (lower query)) in Hall.
    destruct (split keyword (lower query)) as [|p0 [|p1 ps]]; cbn [nth];
      try constructor.
    inversion Hall as [|? ? _ Hrest]; subst. now inversion Hrest. }
  apply (words_go_tokens _ _ [] H). constructor.
Qed.

Lemma token_unknown : token unknown.
Proof.
  split; [discriminate|]. repeat constructor.
Qed.

(** X1: whatever the query, the extracted region is one token, or two
    tokens joined by a single space; a token is not empty and holds no
    white space and no upper-case ASCII letter ([unknown] is such a
    token). *)
Theorem region_is_one_or_two_tokens (query : str) :
  exists w0 rest,
    extract_region query = w0 ++ rest
    /\ token w0
    /\ (rest = [] \/ exists w1, rest = $" " ++ w1 /\ token w1).
Proof.
  unfold extract_region. rewrite region_loop_find.
  destruct (List.find _ region_keywords) as [keyword|] eqn:E.
  - pose proof (tokens_after_tokens keyword query) as Htok.
    apply find_some in E as [_ E]. apply andb_true_iff in E as [_ E].
    destruct (tokens_after keyword query) as [|w0 [|w1 more]]; [discriminate| |].
    + exists w0, []. unfold one_or_two. cbn. rewrite app_nil_r.
      inversion Htok; subst. split; [reflexivity|]. split; [assumption | now left].
    + exists w0, ($" " ++ w1). unfold one_or_two. cbn [firstn join].
      inversion Htok as [|? ? H0 Hrest]; subst. inversion Hrest; subst.
      split; [reflexivity|]. split; [assumption|]. right. now exists w1.
  - exists unknown, []. rewrite app_nil_r. split; [reflexivity|].
    split; [apply token_unknown | now left].
Qed.

(** X2: the region depends on the query only through its case-folded
    text: two queries that differ in the case of their letters give the
    same region. *)
Theorem region_ignores_case (query1 query2 : str) :
  lower query1 = lower query2 ->
  extract_region query1 = extract_region query2.
Proof.
  intros E. unfold extract_region.
  induction region_keywords as [|keyword rest IH]; [reflexivity|].
  cbn [region_loop]. now rewrite E, IH.
Qed.

Lemma region_ignores_case_witness :
  extract_region $"She LIVES IN Tamil Nadu" = extract_region $"she lives in tamil nadu".
Proof.
  apply (region_ignores_case $"She LIVES IN Tamil Nadu" $"she lives in tamil nadu").
  reflexivity.
Defined.

End RegionShape.

(** ** Stage 0: what is handed to the decoder *)

Module Stage0Facts.

Import PyFacts Json Nutrition Vocabulary NutritionFacts ReFacts StringFacts
  Shapes.

(** The two trimming steps that follow the pattern search. *)
Lemma trim_to_braces (t0 : str) :
  let t1 :=
    if negb (startswith $"{" t0) then
      match find $"{" t0 with
      | Some start_idx => skipn start_idx t0
      | None => t0
      end
    else t0 in
  let t2 :=
    if negb (endswith $"}" t1) then
      match rfind $"}" t1 with
      | Some end_idx => firstn (end_idx + 1) t1
      | None => t1
      end
    else t1 in
  (In "{"%char t2 -> exists t', t2 = "{"%char :: t')
  /\ (In "}"%char t2 -> exists t', t2 = t' ++ ["}"%char]).
Proof.
  change $"{" with ["{"%char]. change $"}" with ["}"%char].
  intros t1 t2.
  assert (H1 : In "{"%char t1 -> exists t', t1 = "{"%char :: t').
  { subst t1. destruct (startswith ["{"%char] t0) eqn:E; cbn [negb].
    - intros _. now apply startswith_char.
    - pose proof (find_char "{"%char t0) as Hf.
      destruct (find ["{"%char] t0) as [n|].
      + destruct Hf as (a & b & -> & <- & _). intros _. exists b.
        now rewrite skipn_app, skipn_all, Nat.sub_diag.
      + intros Hin. contradiction. }
  clearbody t1. subst t2.
  destruct (endswith ["}"%char] t1) eqn:E; cbn [negb].
  - split; [exact H1|]. intros _. now apply endswith_char.
  - pose proof (rfind_char "}"%char t1) as Hr.
    destruct (rfind ["}"%char] t1) as [n|].
    + destruct Hr as (a & b & -> & <- & _).
      assert (Hfirst : firstn (length a + 1) (a ++ "}"%char :: b) = a ++ ["}"%char]).
      { rewrite firstn_app, firstn_all2 by lia.
        replace (length a + 1 - length a) with 1 by lia. reflexivity. }
      rewrite Hfirst. split; [|intros _; now exists a].
      intros Hin.
      destruct H1 as [t' Ht'].
      { apply in_app_or in Hin as [Hin|[Hin|[]]];
          [apply in_or_app; now left | discriminate]. }
      destruct a as [|x a]; [discriminate|].
      injection Ht' as -> _. now exists (a ++ ["}"%char]).
    + split; [exact H1 | intros Hin; contradiction].
Qed.

Lemma eat_head_fail (x c : ascii) (l s : str) :
  eqc x c = false -> eat json_flags (x :: l) (c :: s) = None.
Proof. intros H. cbn [eat in_cls IGNORECASE json_flags]. now rewrite H. Qed.

Lemma eat_after_fail (p l s : str) (x c : ascii) :
  eqc x c = false -> eat json_flags (p ++ x :: l) (p ++ c :: s) = None.
Proof.
  intros H. induction p as [|y p IH]; cbn [app]; [now apply eat_head_fail|].
  cbn [eat in_cls IGNORECASE json_flags]. now rewrite eqc_refl.
Qed.

(** The shape of a fenced alternative and of the brace alternative. *)
Lemma fenced_alternative (L F : str) (n : nat) (s : str) :
  match_here json_flags
    (Lit L >> Star Space >> Group n (StarLazy Dot) >> Star Space >> Lit F) s
  = match eat json_flags L s with
    | Some s1 =>
        greedy json_flags Space
          (fun s2 =>
             lazy json_flags Dot
               (fun s3 =>
                  greedy json_flags Space
                    (fun s4 =>
                       match eat json_flags F s4 with
                       | Some s5 => Some ([(n, consumed s2 s3)], s5)
                       | None => None
                       end) s3) s2) s1
    | None => None
    end.
Proof. reflexivity. Qed.

Lemma brace_alternative (s : str) :
  match_here json_flags (Group 3 (Lit $"{" >> Star Dot >> Lit $"}")) s
  = match eat json_flags $"{" s with
    | Some s1 =>
        greedy json_flags Dot
          (fun s2 =>
             match eat json_flags $"}" s2 with
             | Some s3 => Some ([(3, consumed s s3)], s3)
             | None => None
             end) s1
    | None => None
    end.
Proof. reflexivity. Qed.

Lemma match_here_alt (a b : regex) (s : str) :
  match_here json_flags (a <|> b) s
  = match match_here json_flags a s with
    | Some r => Some r
    | None => match_here json_flags b s
    end.
Proof. reflexivity. Qed.

(** No alternative starts at a character that is neither a backtick nor
    an opening brace. *)
Lemma no_match_at (c : ascii) (s : str) :
  c <> backtick -> c <> "{"%char ->
  match_here json_flags json_pattern (c :: s) = None.
Proof.
  intros Hb Hc. unfold json_pattern.
  rewrite !match_here_alt, !fenced_alternative, brace_alternative.
  change (fence ++ $"json") with (backtick :: [backtick; backtick] ++ $"json").
  change fence with (backtick :: [backtick; backtick]).
  change $"{" with ["{"%char].
  rewrite !eat_head_fail; [reflexivity | | |]; apply neq_eqc; congruence.
Qed.

Lemma search_after_prose (pre rest : str) :
  ~ In backtick pre -> ~ In "{"%char pre ->
  search json_flags json_pattern (pre ++ rest)
  = search json_flags json_pattern rest.
Proof.
  intros Hb Hc. rewrite (search_skip json_flags _ (length pre)).
  - now rewrite skipn_app, skipn_all, Nat.sub_diag.
  - intros i Hi. destruct (skipn_in_prefix pre rest i Hi) as (c & t & -> & Hin).
    apply no_match_at; intros ->; contradiction.
Qed.

Lemma dot_all (s : str) : Forall (fun c => in_cls json_flags Dot c = true) s.
Proof. apply Forall_forall. intros c _. reflexivity. Qed.

(** A fenced block around an object. *)
Lemma fenced_block (L : str) (n : nat) (sp1 t sp2 post : str) :
  Forall (fun c => is_space c = true) sp1 ->
  Forall (fun c => is_space c = true) sp2 ->
  ~ In backtick t ->
  match_here json_flags
    (Lit L >> Star Space >> Group n (StarLazy Dot) >> Star Space >> Lit fence)
    (L ++ sp1 ++ ("{"%char :: t ++ ["}"%char]) ++ sp2 ++ fence ++ post)
  = Some ([(n, "{"%char :: t ++ ["}"%char])], post).
Proof.
  intros Hsp1 Hsp2 Ht. rewrite fenced_alternative, eat_self.
  apply greedy_run; [exact Hsp1 | reflexivity|].
  set (body := "{"%char :: t ++ ["}"%char]).
  assert (Hbody : forall c, In c body -> c <> backtick).
  { intros c [<-|Hin]; [discriminate|].
    apply in_app_or in Hin as [Hin|[<-|[]]]; [|discriminate].
    intros ->. contradiction. }
  apply lazy_run; [apply dot_all | |].
  - intros a1 a2 Hsplit Ha2.
    destruct (greedy json_flags Space _ (a2 ++ sp2 ++ fence ++ post))
      as [r|] eqn:E; [|reflexivity].
    exfalso. apply greedy_inv in E as (m & _ & Hall & Heat).
    assert (Hlast : exists a2', a2 = a2' ++ ["}"%char]).
    { destruct (exists_last Ha2) as (a2' & z & ->). exists a2'.
      subst body. change ("{"%char :: t ++ ["}"%char])
        with (("{"%char :: t) ++ ["}"%char]) in Hsplit.
      rewrite app_assoc in Hsplit. apply app_inj_tail in Hsplit as [_ ->].
      reflexivity. }
    destruct Hlast as [a2' ->].
    destruct (Nat.lt_ge_cases m (length (a2' ++ ["}"%char]))) as [Hlt|Hge].
    + destruct (skipn_in_prefix (a2' ++ ["}"%char]) (sp2 ++ fence ++ post) m Hlt)
        as (c & u & Hskip & Hin).
      rewrite Hskip in Heat.
      change fence with (backtick :: [backtick; backtick]) in Heat.
      rewrite eat_head_fail in Heat; [discriminate|].
      apply neq_eqc. intros <-. apply (Hbody backtick); [|reflexivity].
      rewrite Hsplit. apply in_or_app. now right.
    + rewrite firstn_app in Hall. apply Forall_app in Hall as [Hall _].
      rewrite firstn_all2 in Hall by exact Hge.
      apply Forall_app in Hall as [_ Hall]. inversion Hall as [|? ? Hsp _].
      discriminate.
  - apply greedy_run; [exact Hsp2 | reflexivity|].
    rewrite eat_self. now rewrite consumed_app.
Qed.

Lemma extract_from_group (text : str) (caps : captures) (t : str) :
  search json_flags json_pattern text = Some caps ->
  first_truthy [group caps 1; group caps 2; group caps 3]
  = Some ("{"%char :: t ++ ["}"%char]) ->
  extract_json text = "{"%char :: t ++ ["}"%char].
Proof.
  intros Hsearch Hgroup. unfold extract_json. rewrite Hsearch, Hgroup.
  rewrite strip_between by reflexivity.
  change (startswith $"{" ("{"%char :: t ++ ["}"%char])) with true.
  cbn [negb].
  change (endswith $"}" ("{"%char :: t ++ ["}"%char]))
    with (endswith ["}"%char] (("{"%char :: t) ++ ["}"%char])).
  now rewrite endswith_last.
Qed.

End Stage0Facts.

Module Stage0Props.

Import PyFacts Json Nutrition Vocabulary NutritionFacts ReFacts StringFacts
  Shapes Stage0Facts.

(** X3: the text handed to the decoder starts with an opening brace
    whenever it holds one, and ends with a closing brace whenever it holds
    one. *)
Theorem extract_json_trimmed_to_braces (reply : str) :
  (In "{"%char (extract_json reply) ->
   exists t, extract_json reply = "{"%char :: t)
  /\ (In "}"%char (extract_json reply) ->
      exists t, extract_json reply = t ++ ["}"%char]).
Proof.
  unfold extract_json. apply trim_to_braces.
Qed.

(** X4: a reply made of prose without backtick or opening brace, then a
    code fence, tagged [json] or bare, around an object without backtick,
    white space allowed inside the fence, then anything: the text handed
    to the decoder is the object, from its opening to its closing
    brace. *)
Theorem extract_json_fenced_object (tagged : bool) (pre sp1 t sp2 post : str) :
  ~ In backtick pre -> ~ In "{"%char pre ->
  Forall (fun c => is_space c = true) sp1 ->
  Forall (fun c => is_space c = true) sp2 ->
  ~ In backtick t ->
  extract_json
    (pre ++ fence ++ (if tagged then $"json" else []) ++ sp1
         ++ ("{"%char :: t ++ ["}"%char]) ++ sp2 ++ fence ++ post)
  = "{"%char :: t ++ ["}"%char].
Proof.
  intros Hpre1 Hpre2 Hsp1 Hsp2 Ht.
  destruct tagged.
  - apply (extract_from_group _ [(1, "{"%char :: t ++ ["}"%char])]);
      [|reflexivity].
    rewrite search_after_prose by assumption.
    apply search_here with post. unfold json_pattern. rewrite match_here_alt.
    rewrite app_assoc. now rewrite fenced_block.
  - apply (extract_from_group _ [(2, "{"%char :: t ++ ["}"%char])]);
      [|reflexivity].
    rewrite search_after_prose by assumption.
    apply search_here with post. unfold json_pattern. rewrite !match_here_alt.
    rewrite app_nil_l.
    assert (Hfirst : match_here json_flags
                       (Lit (fence ++ $"json") >> Star Space
                          >> Group 1 (StarLazy Dot) >> Star Space >> Lit fence)
                       (fence ++ sp1 ++ ("{"%char :: t ++ ["}"%char])
                              ++ sp2 ++ fence ++ post) = None).
    { rewrite fenced_alternative.
      change (fence ++ $"json") with (fence ++ "j"%char :: $"son").
      destruct sp1 as [|c sp1]; cbn [app].
      - now rewrite eat_after_fail.
      - rewrite eat_after_fail; [reflexivity|].
        inversion Hsp1 as [|? ? Hc _]; subst.
        apply neq_eqc. intros <-. discriminate. }
    rewrite Hfirst. now rewrite fenced_block.
Qed.

Lemma extract_json_fenced_object_witness :
  extract_json
    ($"Here is the plan:" ++ [newline] ++ fence ++ $"json" ++ [newline]
       ++ $"{}" ++ [newline] ++ fence ++ $" Enjoy!")
  = $"{}".
Proof.
  apply (extract_json_fenced_object true ($"Here is the plan:" ++ [newline])
           [newline] [] [newline] $" Enjoy!").
  - vm_compute. intuition discriminate.
  - vm_compute. intuition discriminate.
  - repeat constructor.
  - repeat constructor.
  - intros [].
Defined.

(** X5: a reply made of prose without backtick or opening brace, then a
    text from an opening brace to a closing brace, then prose without
    closing brace: the text handed to the decoder is the text between the
    two braces, braces included. *)
Theorem extract_json_object_in_prose (pre t post : str) :
  ~ In backtick pre -> ~ In "{"%char pre -> ~ In "}"%char post ->
  extract_json (pre ++ "{"%char :: t ++ "}"%char :: post)
  = "{"%char :: t ++ ["}"%char].
Proof.
  intros Hpre1 Hpre2 Hpost.
  apply (extract_from_group _ [(3, "{"%char :: t ++ ["}"%char])]);
    [|reflexivity].
  rewrite search_after_prose by assumption.
  apply search_here with post. unfold json_pattern.
  rewrite !match_here_alt, !fenced_alternative, brace_alternative.
  change (fence ++ $"json") with (backtick :: [backtick; backtick] ++ $"json").
  change fence with (backtick :: [backtick; backtick]).
  rewrite !eat_head_fail by reflexivity.
  change (eat json_flags $"{" ("{"%char :: t ++ "}"%char :: post))
    with (Some (t ++ "}"%char :: post)).
  apply greedy_app; [apply dot_all|].
  cbn [greedy]. change (in_cls json_flags Dot "}"%char) with true. cbv iota.
  rewrite greedy_none.
  - change (eat json_flags $"}" ("}"%char :: post)) with (Some post).
    change ("{"%char :: t ++ "}"%char :: post)
      with (("{"%char :: t) ++ "}"%char :: post).
    replace (("{"%char :: t) ++ "}"%char :: post)
      with ((("{"%char :: t) ++ ["}"%char]) ++ post) by now rewrite <- app_assoc.
    now rewrite consumed_app.
  - intros i. destruct (skipn i post) as [|c u] eqn:E; [reflexivity|].
    change $"}" with ["}"%char]. rewrite eat_head_fail; [reflexivity|].
    apply neq_eqc. intros <-. apply Hpost.
    rewrite <- (firstn_skipn i post), E. apply in_or_app. right. now left.
Qed.

Lemma extract_json_object_in_prose_witness :
  extract_json ($"Sure! " ++ $"{" ++ [quote] ++ $"day1" ++ [quote] ++ $": {}}"
                  ++ $" Hope this helps.")
  = $"{" ++ [quote] ++ $"day1" ++ [quote] ++ $": {}}".
Proof.
  apply (extract_json_object_in_prose $"Sure! "
           ([quote] ++ $"day1" ++ [quote] ++ $": {}") $" Hope this helps.").
  - vm_compute. intuition discriminate.
  - vm_compute. intuition discriminate.
  - vm_compute. intuition discriminate.
Defined.

End Stage0Props.

(** ** Stage 1: values that are not the expected objects *)

Module Stage1Facts.

Import PyFacts DictFacts Json Nutrition Recommendation Vocabulary NutritionFacts.

(** The loop of Stage 1 on an object whose days, where present, are
    objects. *)
Lemma stage1_loop_days_ok (days : list nat) (top : Dict.dict value)
      (acc : Dict.dict (Dict.dict value)) :
  (forall n v, In n days -> Dict.get top (day_key_of n) = Some v ->
               exists d, v = Obj d) ->
  stage1_loop days (Obj top) acc
  = Return (fold_left (fun sr n => Dict.set sr (day_key_of n) (canon (day_of top n)))
                      days acc).
Proof.
  revert acc. induction days as [|n days IH]; intros acc Hall; [reflexivity|].
  cbn [stage1_loop fold_left not_in subscript bind]. unfold Dict.mem, day_of.
  destruct (Dict.get top (day_key_of n)) as [v|] eqn:E; cbn [negb bind].
  - destruct (Hall n v (or_introl eq_refl) E) as [d ->].
    rewrite day_entry_canon. cbn [bind].
    apply IH. intros m v Hm. apply Hall. now right.
  - apply IH. intros m v Hm. apply Hall. now right.
Qed.

(** The loop on a value in which no day key is found. *)
Lemma stage1_loop_all_absent (days : list nat) (j : value)
      (acc : Dict.dict (Dict.dict value)) :
  (forall n, In n days -> not_in (day_key_of n) j = Return true) ->
  stage1_loop days j acc
  = Return (fold_left (fun sr n => Dict.set sr (day_key_of n) default_day) days acc).
Proof.
  revert acc. induction days as [|n days IH]; intros acc Hall; [reflexivity|].
  cbn [stage1_loop fold_left]. rewrite (Hall n (or_introl eq_refl)). cbn [bind].
  apply IH. intros m Hm. apply Hall. now right.
Qed.

End Stage1Facts.

Module Stage1Props.

Import PyFacts DictFacts Json Nutrition Recommendation Vocabulary NutritionFacts
  Stage1Facts Shapes.

(** X6: when the extracted text decodes to an object, the parser returns
    a mapping if and only if every value present under a key [day1] ..
    [day7] is itself an object; otherwise it raises [AttributeError]. *)
Theorem object_reply_returns_iff_days_are_objects
        (reply region : str) (top : Dict.dict value) :
  loads (extract_json reply) = Some (Obj top) ->
  ((exists r, parse_reply reply region = Return r)
   <-> (forall n v, In n day_range -> Dict.get top (day_key_of n) = Some v ->
                    exists d, v = Obj d))
  /\ ((forall r, parse_reply reply region <> Return r)
      -> parse_reply reply region = Raise AttributeError).
Proof.
  intros Hloads. unfold parse_reply. rewrite Hloads. unfold stage1.
  assert (Hdec : (forall n v, In n day_range -> Dict.get top (day_key_of n) = Some v ->
                              exists d, v = Obj d)
                 \/ exists n v, In n day_range /\ Dict.get top (day_key_of n) = Some v
                                /\ forall d, v <> Obj d).
  { generalize day_range. intros days. induction days as [|n days IH].
    - left. intros n v [].
    - destruct IH as [IH|(m & v & Hm & Hget & Hv)].
      + destruct (Dict.get top (day_key_of n)) as [v|] eqn:E.
        * destruct v as [| | | | |d];
            try (right; exists n; eexists; split; [now left|];
                 split; [exact E | discriminate]).
          left. intros m v [<-|Hm] Hget; [|now apply (IH m v)].
          rewrite E in Hget. injection Hget as <-. now exists d.
        * left. intros m v [<-|Hm] Hget; [congruence | now apply (IH m v)].
      + right. exists m, v. split; [now right | now split]. }
  destruct Hdec as [Hok|(n & v & Hn & Hget & Hv)].
  - rewrite (stage1_loop_days_ok _ _ _ Hok). cbn [bind].
    split; [split; [intros _; exact Hok | intros _; eexists; reflexivity]|].
    intros H. now destruct (H _ eq_refl).
  - rewrite (NutritionProps.stage1_loop_raises _ _ _ n v Hn Hget Hv). cbn [bind].
    split; [|reflexivity].
    split; [intros [r Hr]; discriminate|].
    intros H. destruct (H n v Hn Hget) as [d ->]. now destruct (Hv d).
Qed.

Lemma object_reply_returns_iff_days_are_objects_witness :
  exists r, parse_reply idli_reply $"kerala" = Return r.
Proof.
  apply (proj1 (object_reply_returns_iff_days_are_objects idli_reply $"kerala"
                  [($"day1", Obj [($"breakfast", Str $"Idli")])]
                  ltac:(vm_compute; reflexivity))).
  intros n v Hn Hget.
  cbn in Hn.
  repeat (destruct Hn as [<-|Hn]; [vm_compute in Hget; try discriminate;
                                   injection Hget as <-; eexists; reflexivity|]).
  destruct Hn.
Defined.

(** X7: when the extracted text decodes to [null], a boolean or a number,
    the request raises [TypeError]: the membership test of the first day
    key fails, and the fallback is not entered. *)
Theorem scalar_reply_raises_TypeError (w : world) (query : str) (limit : Z)
        (reply : str) (v : value) :
  completion w query limit = Return reply ->
  loads (extract_json reply) = Some v ->
  v = Null \/ (exists b, v = Bool b) \/ (exists lexeme, v = Num lexeme) ->
  get_nutrition_recommendation w query limit = Raise TypeError.
Proof.
  intros Hreply Hloads Hv.
  unfold get_nutrition_recommendation. rewrite Hreply. cbn [bind].
  unfold parse_reply. rewrite Hloads.
  destruct Hv as [->|[[b ->]|[lexeme ->]]]; reflexivity.
Qed.

Lemma scalar_reply_raises_TypeError_witness :
  get_nutrition_recommendation (answering $"42") $"from Kerala" 3 = Raise TypeError.
Proof.
  apply (scalar_reply_raises_TypeError (answering $"42") $"from Kerala" 3
           $"42" (Num $"42")).
  - reflexivity.
  - vm_compute. reflexivity.
  - right. right. now exists $"42".
Defined.

(** X8: when the extracted text decodes to an array or to a string: if
    none of [day1] .. [day7] is found in it (as an element, as a
    substring), the seven days are returned with every meal
    [Not specified] and without the note; if one is found, subscripting
    the value raises [TypeError]. *)
Theorem keyless_array_or_string_reply_gives_defaults
        (reply region : str) (v : value) :
  loads (extract_json reply) = Some v ->
  (exists items, v = Arr items) \/ (exists s, v = Str s) ->
  ((forall n, In n day_range -> not_in (day_key_of n) v = Return true) ->
   parse_reply reply region
   = Return {| diet_plan := map (fun k => (k, default_day)) day_keys;
               region := region;
               note := None |})
  /\ ((exists n, In n day_range /\ not_in (day_key_of n) v = Return false) ->
      parse_reply reply region = Raise TypeError).
Proof.
  intros Hloads Hv. unfold parse_reply. rewrite Hloads. unfold stage1. split.
  - intros Habsent. rewrite (stage1_loop_all_absent _ _ _ Habsent). reflexivity.
  - intros (n & Hn & Hin).
    assert (Hsub : forall k, subscript v k = Raise TypeError)
      by (destruct Hv as [[items ->]|[s ->]]; reflexivity).
    assert (Hnot : forall k, exists b, not_in k v = Return b)
      by (destruct Hv as [[items ->]|[s ->]]; intros k; eexists; reflexivity).
    revert Hn. generalize (@nil (str * Dict.dict value)).
    generalize day_range. intros days.
    induction days as [|m days IH]; intros acc Hn; [destruct Hn|].
    cbn [stage1_loop].
    destruct (Hnot (day_key_of m)) as [[|] Hb]; rewrite Hb; cbn [bind].
    + destruct Hn as [->|Hn]; [congruence|]. now apply IH.
    + now rewrite Hsub.
Qed.

Lemma keyless_array_or_string_reply_gives_defaults_witness :
  parse_reply $"[]" $"kerala"
  = Return {| diet_plan := map (fun k => (k, default_day)) day_keys;
              region := $"kerala";
              note := None |}.
Proof.
  apply (proj1 (keyless_array_or_string_reply_gives_defaults $"[]" $"kerala" (Arr [])
                  ltac:(vm_compute; reflexivity)
                  (or_introl (ex_intro _ [] eq_refl)))).
  intros n _. reflexivity.
Defined.

(** X9: the region of a returned mapping is the region extracted from
    the query, the one that went into the prompt: the mapping is the
    parse, for that region, of the reply to the query, the joined
    retrieved texts and that region. *)
Theorem response_region_comes_from_the_query (w : world) (query : str) (limit : Z)
        (r : response) :
  get_nutrition_recommendation w query limit = Return r ->
  Nutrition.region r = Region.extract_region query
  /\ exists nutrition_info reply,
       retrieve w query limit = Return nutrition_info
       /\ chat w query (join [newline; newline] nutrition_info)
               (Region.extract_region query) = Return reply
       /\ parse_reply reply (Region.extract_region query) = Return r.
Proof.
  unfold get_nutrition_recommendation, completion.
  destruct (unset w "QDRANT_URL" || unset w "QDRANT_API_KEY"
            || unset w "LLAMA_API_KEY" || unset w "E2E_NETWORKS_URL");
    [discriminate|].
  destruct (get_collections w) as [collections|e]; [|discriminate]. cbn [bind].
  destruct (negb (existsb (fun name => eqs name COLLECTION_NAME) collections));
    [discriminate|].
  destruct (retrieve w query limit) as [nutrition_info|e]; [|discriminate].
  cbn [bind].
  destruct (chat w query _ (Region.extract_region query)) as [reply|e] eqn:Echat;
    [|discriminate].
  cbn [bind]. intros Hparse. split; [|now exists nutrition_info, reply].
  revert Hparse. unfold parse_reply.
  destruct (loads (extract_json reply)) as [j|].
  - unfold stage1. destruct (stage1_loop day_range j []); cbn [bind];
      [now intros [= <-] | discriminate].
  - now intros [= <-].
Qed.

Lemma response_region_comes_from_the_query_witness :
  exists r,
    get_nutrition_recommendation (answering idli_reply) $"I am from Kerala" 3
    = Return r
    /\ Nutrition.region r = $"kerala".
Proof.
  destruct (get_nutrition_recommendation (answering idli_reply) $"I am from Kerala" 3)
    as [r|e] eqn:E; [|vm_compute in E; discriminate].
  exists r. split; [reflexivity|].
  now destruct (response_region_comes_from_the_query _ _ _ _ E) as [-> _].
Defined.

End Stage1Props.

(** ** Stages 2 and 3: the plan of the fallback *)

Module FallbackFacts.

Import PyFacts DictFacts Json Nutrition Vocabulary NutritionFacts Shapes
  ReFacts StringFacts DictMore.

(** One day block: the five meal keys, each meal a stripped string. *)
Lemma parse_day_shape (day_content : str) :
  Dict.keys (parse_day day_content) = meal_keys
  /\ forall m v, In (m, v) (parse_day day_content) -> meal_text v.
Proof.
  unfold parse_day.
  assert (Hinv : forall pats d,
             (forall kp, In kp pats -> Dict.mem (fst kp) d = true) ->
             (forall m v, In (m, v) d -> meal_text v) ->
             Dict.keys (fold_left (apply_meal day_content) pats d) = Dict.keys d
             /\ forall m v, In (m, v) (fold_left (apply_meal day_content) pats d) ->
                            meal_text v).
  { induction pats as [|kp pats IH]; intros d Hmem Hval; cbn [fold_left].
    - now split.
    - assert (Hstep : Dict.keys (apply_meal day_content d kp) = Dict.keys d
                      /\ forall m v, In (m, v) (apply_meal day_content d kp) ->
                                     meal_text v).
      { unfold apply_meal. destruct (search re_flags (snd kp) day_content) as [caps|];
          [|now split].
        split.
        - rewrite keys_set. now rewrite (Hmem kp (or_introl eq_refl)).
        - intros m v Hin. apply in_set in Hin as [[= -> ->]|Hin]; [|now apply Hval in Hin].
          eexists. split; [reflexivity | apply strip_idem]. }
      destruct Hstep as [Hk Hv].
      destruct (IH (apply_meal day_content d kp)) as [IHk IHv].
      + intros kp' Hin. apply mem_true_iff. rewrite Hk. apply mem_true_iff.
        apply Hmem. now right.
      + exact Hv.
      + split; [now rewrite IHk | exact IHv]. }
  destruct (Hinv meal_patterns default_day) as [Hk Hv].
  - intros kp Hin. cbn in Hin.
    repeat (destruct Hin as [<-|Hin]; [reflexivity|]). destruct Hin.
  - intros m v Hin. cbn in Hin.
    repeat (destruct Hin as [[= <- <-]|Hin];
            [eexists; split; [reflexivity | reflexivity]|]).
    destruct Hin.
  - split; [now rewrite Hk | exact Hv].
Qed.

(** The first group of a day block is a run of digits. *)
Lemma day_pattern_number (pattern : regex) (s rest : str) (caps : captures) :
  In pattern day_patterns ->
  match_here re_flags pattern s = Some (caps, rest) ->
  exists ds, group caps 1 = Some ds /\ ds <> []
             /\ Forall (fun c => is_digit c = true) ds.
Proof.
  intros Hin. unfold match_here.
  assert (Hgen : forall (l : str) (tail : regex),
             no_group 1 tail = true ->
             exec re_flags (Lit l >> Group 1 (Plus Digit) >> tail) s []
                  (fun s' caps' => Some (caps', s')) = Some (caps, rest) ->
             exists ds, group caps 1 = Some ds /\ ds <> []
                        /\ Forall (fun c => is_digit c = true) ds).
  { intros l tail Htail. cbn [exec].
    destruct (eat re_flags l s) as [s1|]; [|discriminate].
    destruct s1 as [|c s1]; [discriminate|].
    destruct (in_cls re_flags Digit c) eqn:Ec; [|discriminate].
    intros H. apply greedy_inv in H as (n & Hn & Hall & H).
    apply exec_inv in H as (s' & caps' & [= -> ->] & Hg).
    rewrite (Hg 1 Htail). cbn [group Nat.eqb].
    eexists. split; [reflexivity|].
    unfold consumed. rewrite length_skipn. cbn [length].
    replace (S (length s1) - (length s1 - n)) with (S n) by lia.
    cbn [firstn]. split; [discriminate|]. constructor; [exact Ec | exact Hall]. }
  cbn in Hin. destruct Hin as [<-|[<-|[<-|[]]]]; apply Hgen; reflexivity.
Qed.

Lemma fold_apply_day_in (writes : list (str * str))
      (acc : Dict.dict (Dict.dict value)) (k : str) (d : Dict.dict value) :
  In (k, d) (fold_left apply_day writes acc) ->
  In (k, d) acc
  \/ exists m, In m writes /\ k = $"day" ++ fst m /\ d = parse_day (snd m).
Proof.
  revert acc. induction writes as [|m writes IH]; intros acc; cbn [fold_left].
  - now left.
  - intros H. apply IH in H as [H|(m' & Hm' & Hk & Hd)].
    + unfold apply_day in H. apply in_set in H as [[= -> ->]|H]; [|now left].
      right. exists m. repeat split. now left.
    + right. exists m'. repeat split; try assumption. now right.
Qed.

Lemma fold_apply_day_nodup (writes : list (str * str))
      (acc : Dict.dict (Dict.dict value)) :
  NoDup (Dict.keys acc) -> NoDup (Dict.keys (fold_left apply_day writes acc)).
Proof.
  revert acc. induction writes as [|m writes IH]; intros acc Hnd; cbn [fold_left].
  - exact Hnd.
  - apply IH. unfold apply_day. now apply nodup_keys_set.
Qed.

Lemma stage2_shape (text : str) :
  NoDup (Dict.keys (stage2 text))
  /\ forall k d, In (k, d) (stage2 text) ->
       day_label k /\ Dict.keys d = meal_keys
       /\ forall m v, In (m, v) d -> meal_text v.
Proof.
  rewrite stage2_all_matches. split.
  - apply fold_apply_day_nodup. constructor.
  - intros k d Hin. apply fold_apply_day_in in Hin as [[]|(m & Hm & -> & ->)].
    split; [|apply parse_day_shape].
    unfold all_day_matches in Hm. apply in_flat_map in Hm as (pattern & Hp & Hm).
    apply findall_go_in in Hm as (s' & caps & rest & Hmatch & ->).
    destruct (day_pattern_number _ _ _ _ Hp Hmatch) as (ds & Hg & Hne & Hds).
    exists ds. unfold pair_of. cbn [fst]. rewrite Hg. now repeat split.
Qed.

Lemma default_plan_shape :
  NoDup (Dict.keys (stage3 []))
  /\ forall k d, In (k, d) (stage3 []) ->
       day_label k /\ Dict.keys d = meal_keys
       /\ forall m v, In (m, v) d -> meal_text v.
Proof.
  split.
  - cbn. repeat (constructor; [cbn; intuition discriminate|]). constructor.
  - intros k d Hin. cbn in Hin.
    repeat (destruct Hin as [[= <- <-]|Hin];
            [split; [eexists; split; [reflexivity|]; split;
                       [discriminate | repeat constructor]|];
             split; [reflexivity|];
             intros m v Hm; cbn in Hm;
             repeat (destruct Hm as [[= <- <-]|Hm];
                     [eexists; split; reflexivity|]); destruct Hm|]).
    destruct Hin.
Qed.

Lemma findall_go_no_day (pattern : regex) (s : str) (skip : nat) :
  In pattern day_patterns ->
  find $"day" (lower s) = None ->
  findall_go re_flags pattern s skip = [].
Proof.
  intros Hp. revert skip.
  assert (Hhere : forall t, startswith $"day" (lower t) = false ->
                            match_here re_flags pattern t = None).
  { intros t Ht.
    assert (Hlit : forall l tail, eat re_flags l t = None ->
                                  match_here re_flags (Lit l >> tail) t = None).
    { intros l tail E. unfold match_here. cbn [exec]. now rewrite E. }
    cbn in Hp. destruct Hp as [<-|[<-|[<-|[]]]]; apply Hlit.
    - destruct (eat re_flags $"Day " t) as [t1|] eqn:E; [|exact E].
      apply (eat_ignorecase re_flags) in E; [|reflexivity].
      apply (startswith_prefix $"day" $" ") in E. congruence.
    - destruct (eat re_flags $"day" t) as [t1|] eqn:E; [|exact E].
      apply (eat_ignorecase re_flags) in E; [|reflexivity].
      change (lower $"day") with $"day" in E. congruence.
    - destruct (eat re_flags $"DAY " t) as [t1|] eqn:E; [|exact E].
      apply (eat_ignorecase re_flags) in E; [|reflexivity].
      apply (startswith_prefix $"day" $" ") in E. congruence. }
  induction s as [|c s IH]; intros skip Hfind.
  - destruct skip; cbn [findall_go]; [|reflexivity].
    rewrite Hhere; [reflexivity|].
    now apply find_none_startswith in Hfind as [H _].
  - apply find_none_startswith in Hfind as [Hs Hfind].
    destruct skip; cbn [findall_go]; [|now apply IH].
    rewrite (Hhere _ Hs). now apply IH.
Qed.

End FallbackFacts.

Module FallbackProps.

Import PyFacts DictFacts Json Nutrition Vocabulary NutritionFacts Shapes
  FallbackFacts.

(** X10: when [json.loads] raises [json.JSONDecodeError] on the text
    extracted from an ASCII reply, the parser returns, with the note, a
    plan that is not empty and has no repeated key; every key is [day]
    followed by decimal digits, every day holds exactly the five meal keys
    in their order, and every meal is a string without white space around
    it. *)
Theorem fallback_plan_shape (json_loads : str -> result value)
        (reply region : str) :
  isascii reply = true ->
  json_loads (extract_json reply) = Raise JSONDecodeError ->
  exists r,
    Limits.parse_reply json_loads reply region = Return r
    /\ note r = Some NOTE
    /\ Nutrition.region r = region
    /\ diet_plan r <> []
    /\ NoDup (Dict.keys (diet_plan r))
    /\ forall k d, In (k, d) (diet_plan r) ->
         day_label k /\ Dict.keys d = meal_keys
         /\ forall m v, In (m, v) d -> meal_text v.
Proof.
  intros _ Hloads. unfold Limits.parse_reply. rewrite Hloads.
  eexists. split; [reflexivity|]. cbn [fallback note Nutrition.region diet_plan].
  split; [reflexivity|]. split; [reflexivity|].
  destruct (stage2 (extract_json reply)) as [|kd plan] eqn:E.
  - split; [discriminate|]. apply default_plan_shape.
  - split; [discriminate|]. cbn [stage3]. rewrite <- E. apply stage2_shape.
Qed.

Lemma fallback_plan_shape_witness :
  exists r,
    Limits.parse_reply (Limits.loads Limits.cpython) prose_reply $"kerala"
    = Return r
    /\ note r = Some NOTE
    /\ Nutrition.region r = $"kerala"
    /\ diet_plan r <> []
    /\ NoDup (Dict.keys (diet_plan r))
    /\ forall k d, In (k, d) (diet_plan r) ->
         day_label k /\ Dict.keys d = meal_keys
         /\ forall m v, In (m, v) d -> meal_text v.
Proof.
  apply (fallback_plan_shape (Limits.loads Limits.cpython) prose_reply $"kerala").
  - reflexivity.
  - vm_compute. reflexivity.
Defined.

(** X11: when [json.loads] raises [json.JSONDecodeError] on the extracted
    text and that text does not hold [day] in any case, no day block is
    found and the seven days are returned with every meal
    [Not specified], with the note. *)
Theorem reply_without_day_gives_default_plan
        (json_loads : str -> result value) (reply region : str) :
  json_loads (extract_json reply) = Raise JSONDecodeError ->
  contains $"day" (lower (extract_json reply)) = false ->
  Limits.parse_reply json_loads reply region
  = Return {| diet_plan := map (fun k => (k, default_day)) day_keys;
              region := region;
              note := Some NOTE |}.
Proof.
  intros Hloads Hday. unfold Limits.parse_reply. rewrite Hloads.
  unfold fallback. rewrite stage2_all_matches.
  assert (Hnone : all_day_matches (extract_json reply) = []).
  { unfold all_day_matches, contains in *.
    destruct (find $"day" (lower (extract_json reply))) eqn:E; [discriminate|].
    cbn [flat_map day_patterns].
    unfold findall.
    rewrite !(fun p Hp => findall_go_no_day p _ 0 Hp E); cbn; auto. }
  rewrite Hnone. reflexivity.
Qed.

Lemma reply_without_day_gives_default_plan_witness :
  Limits.parse_reply (Limits.loads Limits.cpython)
    $"I cannot help with that." $"kerala"
  = Return {| diet_plan := map (fun k => (k, default_day)) day_keys;
              region := $"kerala";
              note := Some NOTE |}.
Proof.
  apply (reply_without_day_gives_default_plan (Limits.loads Limits.cpython)
           $"I cannot help with that." $"kerala");
    vm_compute; reflexivity.
Defined.

End FallbackProps.

(** ** Scheme records *)

Module SearchMore.

Import PyFacts DictFacts Search SearchFacts Shapes ReFacts StringFacts
  DictMore.

Lemma parse_as_filter (content : str) :
  parse_health_scheme content
  = filter (fun kv : str * str => negb (is_empty (snd kv)))
           (after_patterns content
              ++ if fields_empty content then [(raw_content, content)] else []).
Proof.
  rewrite parse_health_scheme_unfold. unfold finish.
  rewrite all_empty_unfold. destruct (fields_empty content).
  - reflexivity.
  - now rewrite app_nil_r.
Qed.

Section Labelled.
Variable fl : flags.

(** What a labelled pattern captures: a non-empty piece of one line. *)
Lemma labelled_capture (label : string) (s : str) (caps : captures) :
  search fl (labelled label) s = Some caps ->
  group1 caps <> [] /\ ~ In newline (group1 caps).
Proof.
  intros H. apply search_inv in H as (n & rest & H).
  revert H. generalize (skipn n s). clear s n. intros s.
  unfold match_here, labelled. cbn [exec].
  destruct (eat fl $label s) as [s1|]; [|discriminate].
  intros H. apply greedy_inv in H as (n & _ & _ & H).
  destruct (skipn n s1) as [|c s2]; [discriminate|].
  destruct (in_cls fl (Not (Ch newline)) c) eqn:Ec; [|discriminate].
  apply greedy_inv in H as (m & Hm & Hall & [= <- _]).
  unfold group1. cbn [group Nat.eqb].
  unfold consumed. rewrite length_skipn. cbn [length].
  replace (S (length s2) - (length s2 - m)) with (S m) by lia.
  cbn [firstn]. split; [discriminate|].
  assert (Hcls : forall x, in_cls fl (Not (Ch newline)) x = true -> x <> newline).
  { intros x Hx ->. cbn [in_cls] in Hx.
    destruct (IGNORECASE fl); vm_compute in Hx; discriminate. }
  intros [E|Hin]; [now apply (Hcls _ Ec)|].
  rewrite Forall_forall in Hall. now apply (Hcls _ (Hall _ Hin)).
Qed.
End Labelled.

Lemma extracted_one_line (content : str) (label : string) :
  extracted content (labelled label) = []
  \/ one_line (extracted content (labelled label)).
Proof.
  unfold extracted.
  destruct (search re_flags (labelled label) content) as [caps|] eqn:E; [|now left].
  destruct (strip (group1 caps)) eqn:Es; [now left|]. right. rewrite <- Es.
  apply labelled_capture in E as [_ Hnl].
  split; [rewrite Es; discriminate|]. split; [apply strip_idem|].
  intros Hin.
  assert (Hall : Forall (fun c => c <> newline) (strip (group1 caps))).
  { apply strip_forall, Forall_forall. intros c Hc ->. contradiction. }
  rewrite Forall_forall in Hall. now apply (Hall _ Hin).
Qed.

Lemma in_after_patterns (content k v : str) :
  In (k, v) (after_patterns content) ->
  (k = $"scheme_name"
   /\ v = strip (nth 0 (split [newline] (strip content)) []))
  \/ (exists label, In (k, labelled label) patterns
                    /\ v = extracted content (labelled label)).
Proof.
  unfold after_patterns. cbn [In].
  intros [H|H].
  - injection H as <- <-. left. split; [reflexivity|].
    now destruct (split [newline] (strip content)).
  - right.
    repeat (destruct H as [[= <- <-]|H];
            [eexists; split; [|reflexivity]; cbn; tauto|]).
    destruct H.
Qed.

(** The value the parser returns under a labelled key. *)
Lemma get_labelled (content : str) (kp : str * regex) :
  In kp patterns ->
  Dict.get (parse_health_scheme content) (fst kp)
  = match extracted content (snd kp) with
    | [] => None
    | v => Some v
    end.
Proof.
  intros Hin. rewrite parse_as_filter.
  assert (Hnd : NoDup (Dict.keys
                         (after_patterns content
                            ++ if fields_empty content then [(raw_content, content)]
                               else []))).
  { destruct (fields_empty content);
      [apply nodup_keys_after | rewrite app_nil_r; apply (nodup_keys_after content [])]. }
  rewrite get_filter by exact Hnd.
  assert (Hget : Dict.get (after_patterns content
                             ++ if fields_empty content then [(raw_content, content)]
                                else []) (fst kp)
                 = Some (extracted content (snd kp))).
  { apply get_in; [exact Hnd|]. apply in_or_app. left.
    unfold patterns in Hin. cbn [In] in Hin. unfold after_patterns. cbn [In].
    repeat (destruct Hin as [<-|Hin]; [cbn [fst snd]; tauto|]).
    destruct Hin. }
  rewrite Hget. now destruct (extracted content (snd kp)).
Qed.

Lemma get_scheme_name (content : str) :
  Dict.get (parse_health_scheme content) $"scheme_name"
  = match strip (nth 0 (split [newline] (strip content)) []) with
    | [] => None
    | name => Some name
    end.
Proof.
  rewrite parse_as_filter.
  assert (Hnd : NoDup (Dict.keys
                         (after_patterns content
                            ++ if fields_empty content then [(raw_content, content)]
                               else []))).
  { destruct (fields_empty content);
      [apply nodup_keys_after | rewrite app_nil_r; apply (nodup_keys_after content [])]. }
  rewrite get_filter by exact Hnd.
  change (Dict.get _ $"scheme_name")
    with (Some (match split [newline] (strip content) with
                | [] => []
                | line0 :: _ => strip line0
                end)).
  cbv beta iota.
  destruct (split [newline] (strip content)) as [|line0 lines]; cbn [nth];
    [reflexivity|].
  now destruct (strip line0).
Qed.

Lemma parse_keys_known (content k : str) :
  In k (Dict.keys (parse_health_scheme content)) -> In k record_keys.
Proof.
  rewrite parse_as_filter. unfold Dict.keys.
  intros Hin. apply in_map_iff in Hin as ([k' v] & <- & Hin).
  apply filter_In in Hin as [Hin _]. cbn [fst].
  apply in_app_or in Hin as [Hin|Hin].
  - apply in_after_patterns in Hin as [[-> _]|(label & Hp & _)]; [now left|].
    right. apply in_or_app. left. unfold labelled_fields.
    apply in_map_iff. now exists (k', labelled label).
  - destruct (fields_empty content); [|destruct Hin].
    destruct Hin as [[= <- <-]|[]]. right. apply in_or_app. right. now left.
Qed.

Lemma nodup_keys_parse (content : str) :
  NoDup (Dict.keys (parse_health_scheme content)).
Proof.
  rewrite parse_as_filter. apply nodup_keys_filter.
  destruct (fields_empty content);
    [apply nodup_keys_after | rewrite app_nil_r; apply (nodup_keys_after content [])].
Qed.

End SearchMore.

Module SearchMoreProps.

Import PyFacts DictFacts Search SearchFacts Shapes ReFacts StringFacts
  SearchMore.

(** X13: in a parsed scheme record no key occurs twice, every key is
    [scheme_name], one of the seven labelled fields or [raw_content], no
    value is empty, and the value of a labelled field is a single line
    without white space around it. *)
Theorem scheme_record_invariant (content : str) :
  NoDup (Dict.keys (parse_health_scheme content))
  /\ forall k v, In (k, v) (parse_health_scheme content) ->
       v <> [] /\ In k record_keys
       /\ (In k labelled_fields -> one_line v).
Proof.
  split; [apply nodup_keys_parse|].
  intros k v Hin.
  assert (Hk : In k record_keys).
  { apply parse_keys_known with content. unfold Dict.keys.
    apply in_map_iff. now exists (k, v). }
  rewrite parse_as_filter in Hin.
  apply filter_In in Hin as [Hin Hne]. cbn [snd] in Hne.
  split; [now destruct v|]. split; [exact Hk|].
  intros Hlab.
  apply in_app_or in Hin as [Hin|Hin].
  - apply in_after_patterns in Hin as [[-> ->]|(label & Hp & ->)].
    + cbn in Hlab. repeat (destruct Hlab as [H|Hlab]; [discriminate|]). destruct Hlab.
    + destruct (extracted_one_line content label) as [E|H]; [|exact H].
      rewrite E in Hne. discriminate.
  - destruct (fields_empty content); [|destruct Hin].
    destruct Hin as [[= <- <-]|[]].
    cbn in Hlab. repeat (destruct Hlab as [H|Hlab]; [discriminate|]). destruct Hlab.
Qed.

(** X14: [scheme_name] is in the record exactly when the text holds a
    character that is not white space; it is then the first line of the
    stripped text, stripped: one line, no white space around it. *)
Theorem scheme_name_is_first_line (content : str) :
  Dict.mem $"scheme_name" (parse_health_scheme content)
  = negb (is_empty (strip content))
  /\ forall name,
       Dict.get (parse_health_scheme content) $"scheme_name" = Some name ->
       name = strip (nth 0 (split [newline] (strip content)) [])
       /\ strip name = name /\ ~ In newline name.
Proof.
  unfold Dict.mem. rewrite get_scheme_name. split.
  - pose proof (rstrip_keeps_head (lstrip content) (lstrip_clean content)) as Hhead.
    fold (strip content) in Hhead.
    destruct (strip content) as [|c t]; [reflexivity|].
    assert (Hc : startswith [newline] (c :: t) = false).
    { cbn [startswith]. rewrite andb_true_r.
      destruct (eqc newline c) eqn:E; [|reflexivity].
      apply eqc_eq in E. subst c. discriminate. }
    unfold split. cbn [split_go]. rewrite Hc.
    destruct (split_go_head [newline] t 0 [c]) as (t' & rest & ->).
    cbn [nth rev app]. destruct (strip_head c t' Hhead) as [u ->]. reflexivity.
  - intros name Hname.
    assert (E : name = strip (nth 0 (split [newline] (strip content)) [])).
    { destruct (strip (nth 0 (split [newline] (strip content)) []));
        [discriminate | now injection Hname]. }
    split; [exact E|]. subst name. split; [apply strip_idem|].
    assert (Hnl : Forall (fun c => c <> newline)
                         (nth 0 (split [newline] (strip content)) [])).
    { pose proof (split_char_pieces newline (strip content) [] (fun H => H)) as Hp.
      fold (split [newline] (strip content)) in Hp.
      destruct (split [newline] (strip content)) as [|p ps]; cbn [nth]; [constructor|].
      inversion Hp as [|? ? Hp0 _]; subst.
      apply Forall_forall. intros c Hc ->. contradiction. }
    apply (strip_forall _ _) in Hnl. rewrite Forall_forall in Hnl.
    intros Hin. now apply (Hnl _ Hin).
Qed.

(** X15: in an ASCII text, when the first occurrence of a label, spelt
    in any case, is followed by white space (line breaks included) and
    then by a piece of line that starts with a character that is not white
    space and runs to the end of the line or of the text, the field of
    that label is that piece, stripped. *)
Theorem labelled_field_value (key : str) (label : string)
        (content pre spelt ws v rest : str) :
  In (key, labelled label) patterns ->
  isascii content = true ->
  content = pre ++ spelt ++ ws ++ v ++ rest ->
  lower spelt = lower $label ->
  find (lower $label) (lower content) = Some (length pre) ->
  Forall (fun c => is_space c = true) ws ->
  match v with [] => False | c :: _ => is_space c = false end ->
  ~ In newline v ->
  match rest with [] => True | c :: _ => c = newline end ->
  Dict.get (parse_health_scheme content) key = Some (strip v).
Proof.
  intros Hin _ -> Hspelt Hfind Hws Hv Hnl Hrest.
  rewrite (get_labelled _ _ Hin). cbn [snd]. unfold extracted.
  assert (Hsearch : search re_flags (labelled label) (pre ++ spelt ++ ws ++ v ++ rest)
                    = Some [(1, v)]).
  { rewrite (search_skip re_flags _ (length pre)).
    - rewrite skipn_app, skipn_all, Nat.sub_diag. cbn [app skipn].
      assert (Hhere : match_here re_flags (labelled label) (spelt ++ ws ++ v ++ rest)
                      = Some ([(1, v)], rest)).
      { unfold match_here, labelled. cbn [exec].
        rewrite (eat_any_case re_flags _ _ _ eq_refl Hspelt).
        destruct v as [|c v']; [destruct Hv|].
        assert (Hnot : forall x, x <> newline ->
                                 in_cls re_flags (Not (Ch newline)) x = true).
        { intros x Hx. cbn [in_cls IGNORECASE re_flags].
          change (lower_char newline) with newline.
          destruct (eqc newline (lower_char x)) eqn:E; [|reflexivity].
          apply eqc_eq in E. symmetry in E. now apply lower_char_newline in E. }
        apply greedy_run; [exact Hws | exact Hv |].
        cbn [app]. rewrite Hnot by (intros ->; apply Hnl; now left).
        apply greedy_run.
        - apply Forall_forall. intros x Hx. apply Hnot. intros ->. apply Hnl. now right.
        - destruct rest as [|x rest']; [exact I|]. now subst x.
        - unfold consumed. cbn [length]. rewrite length_app.
          replace (S (length v' + length rest) - length rest) with (S (length v'))
            by lia.
          cbn [firstn]. now rewrite firstn_app, firstn_all, Nat.sub_diag, app_nil_r. }
      destruct (spelt ++ ws ++ v ++ rest) as [|x t] eqn:E; cbn [search];
        now rewrite Hhere.
    - intros i Hi. pose proof (find_first _ _ _ Hfind i Hi) as Hstart.
      rewrite <- lower_skipn in Hstart.
      unfold match_here, labelled. cbn [exec].
      destruct (eat re_flags $label _) as [s1|] eqn:E; [|reflexivity].
      apply (eat_ignorecase re_flags) in E; [congruence | reflexivity]. }
  rewrite Hsearch. unfold group1. cbn [group Nat.eqb].
  destruct v as [|c v']; [destruct Hv|].
  destruct (strip_head c v' Hv) as [u ->]. reflexivity.
Qed.

Lemma labelled_field_value_witness :
  Dict.get
    (parse_health_scheme
       ($"PM Matru Vandana" ++ [newline] ++ $"STATE:" ++ [newline]
          ++ $"  Maharashtra " ++ [newline] ++ $"Benefits: Cash incentive"))
    $"state"
  = Some $"Maharashtra".
Proof.
  apply (labelled_field_value $"state" "State:"
           ($"PM Matru Vandana" ++ [newline] ++ $"STATE:" ++ [newline]
              ++ $"  Maharashtra " ++ [newline] ++ $"Benefits: Cash incentive")
           ($"PM Matru Vandana" ++ [newline]) $"STATE:" ([newline] ++ $"  ")
           $"Maharashtra " ([newline] ++ $"Benefits: Cash incentive")).
  - left. reflexivity.
  - reflexivity.
  - reflexivity.
  - reflexivity.
  - vm_compute. reflexivity.
  - repeat constructor.
  - reflexivity.
  - vm_compute. intuition discriminate.
  - reflexivity.
Defined.

End SearchMoreProps.

(** ** Scheme search *)

Module SemanticSearchProps.

Import PyFacts DictFacts Search SearchFacts Shapes SearchMore SemanticSearch.

Section Facts.
Variable vector : Type.

Lemma format_result_entries (i : Z) (res : hit) :
  format_result i res
  = map (fun kv => (fst kv, Text (snd kv))) (parse_health_scheme (content_of res))
      ++ [($"result_id", Int (i + 1))].
Proof.
  unfold format_result. apply set_fresh.
  unfold Dict.keys. rewrite map_map. cbn [fst].
  intros Hin. apply (parse_keys_known (content_of res)) in Hin.
  cbn in Hin. repeat (destruct Hin as [H|Hin]; [discriminate|]). destruct Hin.
Qed.

Lemma format_results_nth (results : list hit) :
  forall (i : Z) (formatted : list (Dict.dict field)),
    length (format_results i results formatted) = length formatted + length results
    /\ (forall n, n < length formatted ->
                  nth_error (format_results i results formatted) n
                  = nth_error formatted n)
    /\ forall n res, nth_error results n = Some res ->
         nth_error (format_results i results formatted) (length formatted + n)
         = Some (format_result (i + Z.of_nat n) res).
Proof.
  induction results as [|r results IH]; intros i formatted; cbn [format_results].
  - split; [cbn; lia|]. split; [reflexivity|]. intros [|n] res; discriminate.
  - destruct (IH (i + 1)%Z (formatted ++ [format_result i r])) as (Hlen & Hold & Hnew).
    rewrite length_app in *. cbn [length] in *.
    split; [lia|]. split.
    + intros n Hn. rewrite Hold by lia. now rewrite nth_error_app1.
    + intros [|n] res; cbn [nth_error].
      * intros [= <-]. rewrite Hold by lia.
        rewrite Nat.add_0_r, nth_error_app2, Nat.sub_diag by lia.
        cbn. now rewrite Z.add_0_r.
      * intros Hres. specialize (Hnew n res Hres).
        replace (length formatted + S n) with (length formatted + 1 + n) by lia.
        rewrite Hnew. do 2 f_equal. lia.
Qed.

(** X16: a search that returns gives one result per hit of the store, in
    the order of the hits; the result of the hit at position [n] (from 0)
    is the parsed record of the hit's text (of the empty text when the
    payload has none) followed by [result_id] with the value [n + 1]. *)
Theorem search_results_numbered (w : world vector) (query collection_name : str)
        (limit : Z) (results : list (Dict.dict field)) :
  semantic_search vector w query collection_name limit = Return results ->
  exists query_vector hits,
    search vector w collection_name query_vector limit = Return hits
    /\ length results = length hits
    /\ forall n res, nth_error hits n = Some res ->
         nth_error results n
         = Some (map (fun kv => (fst kv, Text (snd kv)))
                     (parse_health_scheme (content_of res))
                   ++ [($"result_id", Int (Z.of_nat n + 1))]).
Proof.
  unfold semantic_search.
  destruct (unset vector w "QDRANT_URL" || unset vector w "QDRANT_API_KEY");
    [discriminate|].
  destruct (get_collections vector w) as [collections|e]; [|discriminate].
  cbn [bind].
  destruct (negb (existsb (fun name => eqs name collection_name) collections));
    [discriminate|].
  destruct (get_embedding_model vector w) as [[]|e]; [|discriminate]. cbn [bind].
  destruct (encode vector w [query]) as [[|query_vector vectors]|e];
    try discriminate.
  cbn [bind].
  destruct (search vector w collection_name query_vector limit) as [hits|e] eqn:E;
    [|discriminate].
  cbn [bind]. intros [= <-]. exists query_vector, hits.
  destruct (format_results_nth hits 0 []) as (Hlen & _ & Hnth).
  split; [exact E|]. split; [exact Hlen|].
  intros n res Hres. specialize (Hnth n res Hres). cbn [length Nat.add] in Hnth.
  rewrite Hnth, format_result_entries. now rewrite Z.add_0_l.
Qed.
End Facts.

Lemma search_results_numbered_witness :
  exists query_vector hits,
    search unit (serving [$"health_schemes"] [{| text := None |}])
           $"health_schemes" query_vector 3 = Return hits
    /\ length [[($"result_id", Int 1)]] = length hits
    /\ forall n res, nth_error hits n = Some res ->
         nth_error [[($"result_id", Int 1)]] n
         = Some (map (fun kv => (fst kv, Text (snd kv)))
                     (parse_health_scheme (content_of res))
                   ++ [($"result_id", Int (Z.of_nat n + 1))]).
Proof.
  apply (search_results_numbered unit (serving [$"health_schemes"] [{| text := None |}])
           $"maternity benefit" $"health_schemes" 3).
  reflexivity.
Defined.

End SemanticSearchProps.

(** ** PDF ingestion: the calls, the chunks, the temporary file *)

Module IngestMore.

Import PyFacts Ingest.

Section Facts.
Variable vector : Type.
Implicit Types (w : world vector) (st : state vector).

Lemma mbind_lift {A B : Type} (r : result A) (f : A -> M vector B) st :
  mbind vector (lift vector r) f st
  = match r with
    | Return a => f a st
    | Raise e => (Raise e, st)
    end.
Proof. unfold mbind, lift. now destruct r. Qed.

(** Pairing embeddings with chunks. *)
Lemma make_points_combine (chunks : list chunk) :
  forall embeddings : list vector,
    make_points vector embeddings chunks
    = if length chunks <=? length embeddings
      then Return (combine (firstn (length chunks) embeddings) chunks)
      else Raise IndexError.
Proof.
  induction chunks as [|c chunks IH]; intros embeddings;
    [now destruct embeddings|].
  destruct embeddings as [|e embeddings]; [reflexivity|].
  cbn [make_points length]. rewrite IH. cbn [length firstn combine].
  change (S (length chunks) <=? S (length embeddings))
    with (length chunks <=? length embeddings).
  now destruct (length chunks <=? length embeddings).
Qed.

Lemma page_chunks_from_nth (file : upload_file) (p : page) (page_chunks : list str) :
  forall (i : Z),
    length (page_chunks_from i file p page_chunks) = length page_chunks
    /\ forall n c, nth_error page_chunks n = Some c ->
         nth_error (page_chunks_from i file p page_chunks) n
         = Some {| text := c;
                   source := filename file;
                   page_no := (match page_index p with
                               | Some k => k
                               | None => 0
                               end + 1)%Z;
                   chunk_no := (i + Z.of_nat n + 1)%Z |}.
Proof.
  induction page_chunks as [|c0 rest IH]; intros i; cbn [page_chunks_from length].
  - split; [reflexivity|]. intros [|n] c; discriminate.
  - destruct (IH (i + 1)%Z) as [Hlen Hnth]. split; [now rewrite Hlen|].
    intros [|n] c; cbn [nth_error].
    + intros [= <-]. now rewrite Z.add_0_r.
    + intros H. rewrite (Hnth n c H). do 2 f_equal. lia.
Qed.

(** The splitter is the only collaborator the collecting loop calls: the
    store and the temporary file are left as they were. *)
Lemma collect_chunks_pages w (chunk_size chunk_overlap : Z) (file : upload_file)
      (pages : list page) :
  forall (chunks : list chunk) st (r : result (list chunk)) st',
    collect_chunks vector w chunk_size chunk_overlap file pages chunks st = (r, st') ->
    st' = st
    /\ forall out, r = Return out ->
         exists pieces,
           Forall2 (fun p ps => split_text vector w chunk_size chunk_overlap
                                           (page_content p) = Return ps)
                   pages pieces
           /\ out = chunks
                      ++ concat (map (fun pp => page_chunks_from 0 file (fst pp) (snd pp))
                                     (combine pages pieces)).
Proof.
  induction pages as [|p pages IH]; intros chunks st r st'; cbn [collect_chunks].
  - intros [= <- <-]. split; [reflexivity|]. intros out [= <-].
    exists []. split; [constructor | cbn; now rewrite app_nil_r].
  - rewrite mbind_lift.
    destruct (split_text vector w chunk_size chunk_overlap (page_content p))
      as [page_chunks|e] eqn:E.
    + intros H. apply IH in H as [-> H]. split; [reflexivity|].
      intros out Hout. destruct (H out Hout) as (pieces & Hall & ->).
      exists (page_chunks :: pieces). split; [now constructor|].
      cbn [combine map concat fst snd]. now rewrite <- app_assoc.
    + intros [= <- <-]. split; [reflexivity | discriminate].
Qed.

Lemma collect_chunks_any w (chunk_size chunk_overlap : Z) (file : upload_file)
      (pages : list page) :
  forall (chunks : list chunk) st (r : result (list chunk)) st',
    collect_chunks vector w chunk_size chunk_overlap file pages chunks st = (r, st') ->
    forall st0,
      collect_chunks vector w chunk_size chunk_overlap file pages chunks st0 = (r, st0).
Proof.
  induction pages as [|p pages IH]; intros chunks st r st'; cbn [collect_chunks].
  - now intros [= <- <-] st0.
  - rewrite mbind_lift.
    destruct (split_text vector w chunk_size chunk_overlap (page_content p))
      as [page_chunks|e] eqn:E.
    + intros H st0. rewrite mbind_lift. now apply IH with st st'.
    + intros [= <- <-] st0. now rewrite mbind_lift.
Qed.

(** The [try] block: no call of the store but one upsert, made once the
    points are there. *)
Lemma process_loaded_calls w (file : upload_file) (collection_name : str)
      (chunk_size chunk_overlap : Z) (content : str) st
      (r : result response) st' :
  process_loaded vector w file collection_name chunk_size chunk_overlap content st
  = (r, st') ->
  temp_file vector st' = temp_file vector st
  /\ exists upserts,
       store_calls vector st' = store_calls vector st ++ upserts
       /\ (upserts = []
           \/ exists points, upserts = [Upsert collection_name points] /\ points <> [])
       /\ forall resp, r = Return resp ->
            (status resp = $"success"
             /\ exists points, upserts = [Upsert collection_name points]
                               /\ chunks_count resp = Some (length points))
            \/ (status resp = $"warning" /\ upserts = [] /\ chunks_count resp = None).
Proof.
  unfold process_loaded. rewrite mbind_lift.
  assert (Hquiet : forall r0 : result response,
             (forall resp, r0 = Return resp ->
                           status resp = $"warning" /\ chunks_count resp = None) ->
             (r0, st) = (r, st') ->
             temp_file vector st' = temp_file vector st
             /\ exists upserts,
                  store_calls vector st' = store_calls vector st ++ upserts
                  /\ (upserts = []
                      \/ exists points, upserts = [Upsert collection_name points]
                                        /\ points <> [])
                  /\ forall resp, r = Return resp ->
                       (status resp = $"success"
                        /\ exists points, upserts = [Upsert collection_name points]
                                          /\ chunks_count resp = Some (length points))
                       \/ (status resp = $"warning" /\ upserts = []
                           /\ chunks_count resp = None)).
  { intros r0 Hr0 [= <- <-]. split; [reflexivity|]. exists [].
    split; [now rewrite app_nil_r|]. split; [now left|].
    intros resp Hresp. right. destruct (Hr0 resp Hresp) as [H1 H2]. now repeat split. }
  destruct (load vector w content) as [[|p pages]|e].
  - apply Hquiet. intros resp [= <-]. now split.
  - unfold mbind at 1.
    destruct (collect_chunks vector w chunk_size chunk_overlap file (p :: pages) [] st)
      as [[chunks|e] st1] eqn:Ec.
    + apply collect_chunks_pages in Ec as [-> _].
      destruct chunks as [|c chunks].
      * apply Hquiet. intros resp [= <-]. now split.
      * rewrite mbind_lift.
        destruct (encode vector w (map text (c :: chunks))) as [embeddings|e];
          [|apply Hquiet; discriminate].
        rewrite mbind_lift, make_points_combine.
        destruct (length (c :: chunks) <=? length embeddings) eqn:Elen;
          [|apply Hquiet; discriminate].
        apply Nat.leb_le in Elen.
        set (points := combine (firstn (length (c :: chunks)) embeddings) (c :: chunks)).
        assert (Hpoints : points <> []).
        { subst points. destruct embeddings as [|e embeddings];
            [cbn in Elen; lia | discriminate]. }
        unfold mbind at 1, store at 1. unfold mbind at 1, lift at 1.
        destruct (upsert vector w collection_name points) as [[]|e].
        -- unfold ret. intros [= <- <-]. cbn [temp_file store_calls].
           split; [reflexivity|]. exists [Upsert collection_name points].
           split; [reflexivity|]. split; [right; now exists points|].
           intros resp [= <-]. left. split; [reflexivity|]. now exists points.
        -- intros [= <- <-]. cbn [temp_file store_calls].
           split; [reflexivity|]. exists [Upsert collection_name points].
           split; [reflexivity|]. split; [right; now exists points|]. discriminate.
    + apply collect_chunks_pages in Ec as [-> _]. apply Hquiet. discriminate.
  - apply Hquiet. discriminate.
Qed.

(** The whole of one upload: the calls of the store it adds, the mapping
    it returns, and the temporary file. *)
Lemma process_pdf_outcome w (file : upload_file) (collection_name : str)
      st (r : result response) st' :
  process_pdf vector w file collection_name st = (r, st') ->
  exists creates upserts,
    store_calls vector st' = store_calls vector st ++ creates ++ upserts
    /\ (creates = []
        \/ (creates = [CreateCollection collection_name]
            /\ listed vector w collection_name = false))
    /\ (upserts = []
        \/ exists points, upserts = [Upsert collection_name points] /\ points <> [])
    /\ (forall resp, r = Return resp ->
          (status resp = $"success"
           /\ exists points, upserts = [Upsert collection_name points]
                             /\ chunks_count resp = Some (length points))
          \/ (status resp = $"warning" /\ upserts = [] /\ chunks_count resp = None))
    /\ ((temp_file vector st' = temp_file vector st /\ upserts = []
         /\ exists e, r = Raise e)
        \/ temp_file vector st' = false
        \/ (temp_file vector st' = true /\ upserts = []
            /\ exists e, r = Raise e
                         /\ (read file = Raise e
                             \/ exists content,
                                  read file = Return content
                                  /\ write_temp vector w content = Raise e))).
Proof.
  unfold process_pdf.
  assert (Hstop : forall (e : exn) (creates : list (store_call vector)) st1,
             store_calls vector st1 = store_calls vector st ++ creates ->
             creates = []
             \/ (creates = [CreateCollection collection_name]
                 /\ listed vector w collection_name = false) ->
             (temp_file vector st1 = temp_file vector st
              \/ (temp_file vector st1 = true
                  /\ (read file = Raise e
                      \/ exists content,
                           read file = Return content
                           /\ write_temp vector w content = Raise e))) ->
             (Raise e, st1) = (r, st') ->
             exists creates upserts,
               store_calls vector st' = store_calls vector st ++ creates ++ upserts
               /\ (creates = []
                   \/ (creates = [CreateCollection collection_name]
                       /\ listed vector w collection_name = false))
               /\ (upserts = []
                   \/ exists points, upserts = [Upsert collection_name points]
                                     /\ points <> [])
               /\ (forall resp, r = Return resp ->
                     (status resp = $"success"
                      /\ exists points, upserts = [Upsert collection_name points]
                                        /\ chunks_count resp = Some (length points))
                     \/ (status resp = $"warning" /\ upserts = []
                         /\ chunks_count resp = None))
               /\ ((temp_file vector st' = temp_file vector st /\ upserts = []
                    /\ exists e, r = Raise e)
                   \/ temp_file vector st' = false
                   \/ (temp_file vector st' = true /\ upserts = []
                       /\ exists e, r = Raise e
                                    /\ (read file = Raise e
                                        \/ exists content,
                                             read file = Return content
                                             /\ write_temp vector w content
                                                = Raise e)))).
  { intros e creates st1 Hcalls Hcreates Htemp [= <- <-]. exists creates, [].
    rewrite app_nil_r. split; [exact Hcalls|]. split; [exact Hcreates|].
    split; [now left|]. split; [discriminate|].
    destruct Htemp as [Htemp|[Htemp Hwhy]].
    - left. split; [exact Htemp|]. split; [reflexivity | now exists e].
    - right. right. split; [exact Htemp|]. split; [reflexivity | now exists e]. }
  destruct (unset vector w "QDRANT_URL" || unset vector w "QDRANT_API_KEY").
  { apply (Hstop ValueError [] st); [now rewrite app_nil_r | now left | now left]. }
  rewrite mbind_lift.
  destruct (int_of vector w _) as [chunk_size|e];
    [|apply (Hstop e [] st); [now rewrite app_nil_r | now left | now left]].
  rewrite mbind_lift.
  destruct (int_of vector w _) as [chunk_overlap|e];
    [|apply (Hstop e [] st); [now rewrite app_nil_r | now left | now left]].
  rewrite mbind_lift.
  destruct (get_collections vector w) as [collections|e] eqn:Ecols;
    [|apply (Hstop e [] st); [now rewrite app_nil_r | now left | now left]].
  unfold mbind at 1.
  assert (Hcreate : exists creates st1 (r1 : result unit),
             (if negb (existsb (fun name => eqs name collection_name) collections)
              then mbind vector (store vector (CreateCollection collection_name))
                         (fun _ => lift vector (create_collection vector w collection_name))
              else ret vector tt) st = (r1, st1)
             /\ store_calls vector st1 = store_calls vector st ++ creates
             /\ temp_file vector st1 = temp_file vector st
             /\ (creates = []
                 \/ (creates = [CreateCollection collection_name]
                     /\ listed vector w collection_name = false))).
  { destruct (existsb (fun name => eqs name collection_name) collections) eqn:Eex;
      cbn [negb].
    - exists [], st, (Return tt). rewrite app_nil_r. repeat split. now left.
    - exists [CreateCollection collection_name]. unfold mbind, store, lift.
      eexists _, _. split; [reflexivity|]. cbn [store_calls temp_file].
      repeat split. right. split; [reflexivity|].
      unfold listed. now rewrite Ecols. }
  destruct Hcreate as (creates & st1 & r1 & -> & Hcalls & Htemp1 & Hcreates).
  destruct r1 as [[]|e]; [|apply (Hstop e creates st1); auto].
  rewrite mbind_lift.
  destruct (get_embedding_model vector w) as [[]|e];
    [|apply (Hstop e creates st1); auto].
  unfold mbind at 1, set_temp at 1.
  rewrite mbind_lift.
  revert Hstop. destruct (read file) as [content|e]; intros Hstop;
    [|apply (Hstop e creates);
      [exact Hcalls | exact Hcreates | right; split; [reflexivity | now left]]].
  rewrite mbind_lift.
  destruct (write_temp vector w content) as [[]|e] eqn:Ewrite;
    [|apply (Hstop e creates);
      [exact Hcalls | exact Hcreates
       | right; split; [reflexivity|]; right; now exists content]].
  unfold try_finally.
  destruct (process_loaded vector w file collection_name chunk_size chunk_overlap
              content _) as [r0 st2] eqn:Eloaded.
  apply process_loaded_calls in Eloaded
    as (_ & upserts & Hup & Hupserts & Hresp).
  cbn [store_calls] in Hup.
  unfold set_temp. intros [= <- <-]. cbn [store_calls temp_file].
  exists creates, upserts. rewrite Hup, Hcalls, <- app_assoc.
  split; [reflexivity|]. split; [exact Hcreates|]. split; [exact Hupserts|].
  split; [exact Hresp|]. right. now left.
Qed.

(** A returned mapping comes out of the [try] block. *)
Lemma process_pdf_returns w (file : upload_file) (collection_name : str)
      st (resp : response) st' :
  process_pdf vector w file collection_name st = (Return resp, st') ->
  exists content chunk_size chunk_overlap st1 st2,
    read file = Return content
    /\ process_loaded vector w file collection_name chunk_size chunk_overlap content st1
       = (Return resp, st2)
    /\ store_calls vector st' = store_calls vector st2.
Proof.
  unfold process_pdf.
  destruct (unset vector w "QDRANT_URL" || unset vector w "QDRANT_API_KEY");
    [discriminate|].
  rewrite mbind_lift.
  destruct (int_of vector w _) as [chunk_size|e]; [|discriminate].
  rewrite mbind_lift.
  destruct (int_of vector w _) as [chunk_overlap|e]; [|discriminate].
  rewrite mbind_lift.
  destruct (get_collections vector w) as [collections|e]; [|discriminate].
  unfold mbind at 1.
  match goal with
  | |- context [match ?m st with _ => _ end] => destruct (m st) as [[[]|e] st0]
  end; [|discriminate].
  rewrite mbind_lift.
  destruct (get_embedding_model vector w) as [[]|e]; [|discriminate].
  unfold mbind at 1, set_temp at 1. rewrite mbind_lift.
  destruct (read file) as [content|e]; [|discriminate].
  rewrite mbind_lift.
  destruct (write_temp vector w content) as [[]|e]; [|discriminate].
  unfold try_finally.
  destruct (process_loaded vector w file collection_name chunk_size chunk_overlap
              content _) as [r0 st2] eqn:Eloaded.
  unfold set_temp. intros [= -> <-].
  eexists content, chunk_size, chunk_overlap, _, st2.
  split; [reflexivity|]. split; [exact Eloaded | reflexivity].
Qed.

(** What the [try] block has done when it reports success. *)
Lemma process_loaded_success w (file : upload_file) (collection_name : str)
      (chunk_size chunk_overlap : Z) (content : str) st (resp : response) st' :
  process_loaded vector w file collection_name chunk_size chunk_overlap content st
  = (Return resp, st') ->
  status resp = $"success" ->
  exists pages chunks embeddings,
    load vector w content = Return pages
    /\ collect_chunks vector w chunk_size chunk_overlap file pages [] st
       = (Return chunks, st)
    /\ chunks <> []
    /\ encode vector w (map text chunks) = Return embeddings
    /\ length chunks <= length embeddings
    /\ store_calls vector st'
       = store_calls vector st
           ++ [Upsert collection_name
                      (combine (firstn (length chunks) embeddings) chunks)]
    /\ chunks_count resp = Some (length chunks)
    /\ message resp
       = $"Uploaded " ++ nat_str (length chunks) ++ $" chunks from "
           ++ filename file ++ $".".
Proof.
  unfold process_loaded. rewrite mbind_lift.
  destruct (load vector w content) as [[|p pages]|e];
    [intros [= <- _]; discriminate | | discriminate].
  unfold mbind at 1.
  destruct (collect_chunks vector w chunk_size chunk_overlap file (p :: pages) [] st)
    as [[chunks|e] st1] eqn:Ec; [|discriminate].
  pose proof Ec as Hst. apply collect_chunks_pages in Hst as [-> _].
  destruct chunks as [|c chunks]; [intros [= <- _]; discriminate|].
  rewrite mbind_lift.
  destruct (encode vector w (map text (c :: chunks))) as [embeddings|e] eqn:Eenc;
    [|discriminate].
  rewrite mbind_lift, make_points_combine.
  destruct (length (c :: chunks) <=? length embeddings) eqn:Elen; [|discriminate].
  apply Nat.leb_le in Elen.
  remember (combine (firstn (length (c :: chunks)) embeddings) (c :: chunks))
    as points eqn:Hpoints.
  assert (Hlen : length points = length (c :: chunks)).
  { subst points. rewrite length_combine, firstn_length_le by exact Elen.
    apply Nat.min_id. }
  unfold mbind at 1, store at 1. unfold mbind at 1, lift at 1.
  destruct (upsert vector w collection_name points) as [[]|e]; [|discriminate].
  unfold ret. intros [= <- <-] _.
  exists (p :: pages), (c :: chunks), embeddings.
  rewrite <- Hpoints. cbn [store_calls chunks_count message]. rewrite Hlen.
  split; [reflexivity|]. split; [exact Ec|]. split; [discriminate|].
  split; [exact Eenc|]. split; [exact Elen|]. now repeat split.
Qed.
(** Once the store and the model are set up, the call that creates the
    collection is made and the temporary file is there; then the upload
    is read, saved and handed to the [try] block. *)
Lemma process_pdf_from_upload w (file : upload_file) (collection_name : str) st :
  reaches_upload vector w collection_name ->
  exists chunk_size chunk_overlap,
    process_pdf vector w file collection_name st
    = let st1 := {| store_calls :=
                      store_calls vector st
                        ++ (if listed vector w collection_name then []
                            else [CreateCollection collection_name]);
                    temp_file := true |} in
      match read file with
      | Raise e => (Raise e, st1)
      | Return content =>
          match write_temp vector w content with
          | Raise e => (Raise e, st1)
          | Return _ =>
              try_finally vector
                (process_loaded vector w file collection_name chunk_size
                                chunk_overlap content)
                (set_temp vector false) st1
          end
      end.
Proof.
  intros (Hurl & Hkey & [cs Hcs] & [co Hco] & [cols Hcols] & Hcreate & Hmodel).
  exists cs, co.
  unfold listed in *. rewrite Hcols in *.
  unfold process_pdf. rewrite Hurl, Hkey. cbn [orb].
  rewrite mbind_lift, Hcs, mbind_lift, Hco, mbind_lift, Hcols.
  unfold mbind at 1.
  destruct (existsb (fun name => eqs name collection_name) cols); cbn [negb].
  - unfold ret at 1. rewrite mbind_lift, Hmodel.
    unfold mbind at 1, set_temp at 1. rewrite mbind_lift, app_nil_r.
    destruct (read file) as [content|e]; [|reflexivity].
    rewrite mbind_lift. now destruct (write_temp vector w content).
  - unfold mbind at 1, store at 1. rewrite (Hcreate eq_refl).
    unfold lift at 1. rewrite mbind_lift, Hmodel.
    unfold mbind at 1, set_temp at 1. cbn [store_calls temp_file].
    rewrite mbind_lift.
    destruct (read file) as [content|e]; [|reflexivity].
    rewrite mbind_lift. now destruct (write_temp vector w content).
Qed.
End Facts.

End IngestMore.

Module IngestMoreProps.

Import PyFacts Ingest IngestMore.

Section Facts.
Variable vector : Type.
Implicit Types (w : world vector) (st : state vector).

(** C7, as amended: when the configuration is there, the store answers
    and the model loads, [process_pdf] asks [create_collection] exactly
    when the store did not list the collection, and before the upload is
    read and loaded: the call is there whatever reading, saving and
    loading do, followed by one upsert at most.  When the loader then
    returns zero pages, [process_pdf] returns status [warning] with a
    message that contains the file name, and asks nothing more of the
    store: no upsert. *)
Theorem C7_zero_pages_warning w file collection_name st :
  reaches_upload vector w collection_name ->
  exists r st' more,
    process_pdf vector w file collection_name st = (r, st')
    /\ store_calls vector st'
       = store_calls vector st
         ++ (if listed vector w collection_name then []
             else [CreateCollection collection_name])
         ++ more
    /\ (more = [] \/ exists points, more = [Upsert collection_name points])
    /\ forall content,
         read file = Return content ->
         write_temp vector w content = Return tt ->
         load vector w content = Return [] ->
         more = []
         /\ exists resp,
              r = Return resp
              /\ status resp = $"warning"
              /\ contains (filename file) (message resp) = true
              /\ chunks_count resp = None.
Proof.
  intros Hsetup.
  destruct (process_pdf_from_upload vector w file collection_name st Hsetup)
    as (cs & co & ->).
  cbv zeta.
  set (st1 := {| store_calls := _; temp_file := true |}).
  destruct (read file) as [content|e] eqn:Hread.
  2:{ exists (Raise e), st1, []. split; [reflexivity|].
      split; [now rewrite app_nil_r|]. split; [now left|]. discriminate. }
  destruct (write_temp vector w content) as [[]|e] eqn:Hwrite.
  2:{ exists (Raise e), st1, []. split; [reflexivity|].
      split; [now rewrite app_nil_r|]. split; [now left|].
      intros content' [= <-]. congruence. }
  unfold try_finally.
  destruct (process_loaded vector w file collection_name cs co content st1)
    as [r st2] eqn:Eloaded.
  pose proof (process_loaded_calls vector w file collection_name cs co content
                st1 r st2 Eloaded) as (_ & upserts & Hcalls & Hups & _).
  unfold set_temp. cbn [store_calls].
  exists r, {| store_calls := store_calls vector st2; temp_file := false |}, upserts.
  split; [reflexivity|]. cbn [store_calls].
  split; [rewrite Hcalls; subst st1; cbn [store_calls]; now rewrite app_assoc|].
  split; [destruct Hups as [->|(points & -> & _)]; [now left | right; now exists points]|].
  intros content' [= <-] _ Hload.
  unfold process_loaded in Eloaded. rewrite mbind_lift, Hload in Eloaded.
  unfold ret in Eloaded. injection Eloaded as <- <-.
  split.
  - rewrite <- (app_nil_r (store_calls vector st1)) in Hcalls at 1.
    now apply app_inv_head in Hcalls.
  - eexists. split; [reflexivity|]. cbn [status message chunks_count].
    split; [reflexivity|]. split; [|reflexivity].
    exact (contains_app (filename file) $"No content found in " $".").
Qed.

(** X17: one upload adds to the calls of the store at most one
    [create_collection], made only when the store did not list the
    collection, followed by at most one [upsert], of a non-empty list of
    points, both for the collection asked for; a returned mapping has
    status [success], with [chunks_count] the number of points of the
    upsert, or status [warning], without count, after no upsert. *)
Theorem store_calls_of_one_upload w (file : upload_file) (collection_name : str)
        st (r : result response) st' :
  process_pdf vector w file collection_name st = (r, st') ->
  exists creates upserts,
    store_calls vector st' = store_calls vector st ++ creates ++ upserts
    /\ (creates = []
        \/ (creates = [CreateCollection collection_name]
            /\ listed vector w collection_name = false))
    /\ (upserts = []
        \/ exists points, upserts = [Upsert collection_name points] /\ points <> [])
    /\ forall resp, r = Return resp ->
         (status resp = $"success"
          /\ exists points, upserts = [Upsert collection_name points]
                            /\ chunks_count resp = Some (length points))
         \/ (status resp = $"warning" /\ upserts = [] /\ chunks_count resp = None).
Proof.
  intros H. apply process_pdf_outcome in H
    as (creates & upserts & Hcalls & Hcreates & Hupserts & Hresp & _).
  now exists creates, upserts.
Qed.

(** X18: when an upload reports [success], the upload was read, the
    loader gave pages, the splitter gave at least one chunk, the encoder
    gave embeddings for the chunk texts, and the points of the upsert are
    the chunks in their order, each with the embedding at its position;
    [chunks_count] is the number of chunks and the message names it and
    the file. *)
Theorem successful_upload_stores_every_chunk w (file : upload_file)
        (collection_name : str) st (resp : response) st' :
  process_pdf vector w file collection_name st = (Return resp, st') ->
  status resp = $"success" ->
  exists content chunk_size chunk_overlap pages chunks embeddings,
    read file = Return content
    /\ load vector w content = Return pages
    /\ (forall st0, collect_chunks vector w chunk_size chunk_overlap file pages [] st0
                    = (Return chunks, st0))
    /\ chunks <> []
    /\ encode vector w (map text chunks) = Return embeddings
    /\ In (Upsert collection_name
                 (combine (firstn (length chunks) embeddings) chunks))
          (store_calls vector st')
    /\ map snd (combine (firstn (length chunks) embeddings) chunks) = chunks
    /\ chunks_count resp = Some (length chunks)
    /\ message resp
       = $"Uploaded " ++ nat_str (length chunks) ++ $" chunks from "
           ++ filename file ++ $".".
Proof.
  intros H Hstatus.
  apply process_pdf_returns in H
    as (content & chunk_size & chunk_overlap & st1 & st2 & Hread & Hloaded & Hcalls).
  apply process_loaded_success in Hloaded
    as (pages & chunks & embeddings & Hload & Hchunks & Hne & Henc & Hlen & Hup
        & Hcount & Hmsg); [|exact Hstatus].
  exists content, chunk_size, chunk_overlap, pages, chunks, embeddings.
  split; [exact Hread|]. split; [exact Hload|].
  split; [now apply collect_chunks_any with st1 st1|].
  split; [exact Hne|]. split; [exact Henc|].
  split; [rewrite Hcalls, Hup; apply in_or_app; right; now left|].
  split; [|now split].
  assert (Hl : length (firstn (length chunks) embeddings) = length chunks)
    by (apply firstn_length_le, Hlen).
  revert Hl. generalize (firstn (length chunks) embeddings). clear.
  induction chunks as [|c chunks IH]; intros [|e l] Hl; try discriminate;
    [reflexivity|]. cbn. f_equal. apply IH. now injection Hl.
Qed.

(** X19: building the points raises [IndexError] when there are fewer
    embeddings than chunks; otherwise there is one point per chunk, in
    order, with the embedding at the same position, and embeddings beyond
    the chunks are left out. *)
Theorem points_pair_chunks_with_embeddings (embeddings : list vector)
        (chunks : list chunk) :
  (length embeddings < length chunks ->
   make_points vector embeddings chunks = Raise IndexError)
  /\ (length chunks <= length embeddings ->
      exists points,
        make_points vector embeddings chunks = Return points
        /\ map snd points = chunks
        /\ map fst points = firstn (length chunks) embeddings).
Proof.
  rewrite make_points_combine. split.
  - intros Hlt. apply Nat.leb_gt in Hlt. now rewrite Hlt.
  - intros Hle. pose proof Hle as Hb. apply Nat.leb_le in Hb. rewrite Hb.
    eexists. split; [reflexivity|].
    assert (Hlen : length (firstn (length chunks) embeddings) = length chunks)
      by (apply firstn_length_le, Hle).
    split.
    + revert Hlen. generalize (firstn (length chunks) embeddings). clear.
      induction chunks as [|c chunks IH]; intros [|e l] Hlen; try discriminate;
        [reflexivity|]. cbn. f_equal. apply IH. now injection Hlen.
    + revert Hlen. generalize (firstn (length chunks) embeddings). clear.
      induction chunks as [|c chunks IH]; intros [|e l] Hlen; try discriminate;
        [reflexivity|]. cbn. f_equal. apply IH. now injection Hlen.
Qed.

(** X20: the chunks collected from the pages are, page after page, the
    pieces the splitter made of the page, each with the file name, the
    page index plus one (1 when the loader gives no index) and its
    position among the pieces of its page, counted from 1; collecting
    calls neither the store nor the temporary file. *)
Theorem chunks_numbered_per_page w (chunk_size chunk_overlap : Z)
        (file : upload_file) (pages : list page) st
        (chunks : list chunk) st' :
  collect_chunks vector w chunk_size chunk_overlap file pages [] st
  = (Return chunks, st') ->
  st' = st
  /\ exists pieces,
       Forall2 (fun p ps => split_text vector w chunk_size chunk_overlap
                                       (page_content p) = Return ps)
               pages pieces
       /\ chunks = concat (map (fun pp => page_chunks_from 0 file (fst pp) (snd pp))
                               (combine pages pieces))
       /\ forall p ps, In (p, ps) (combine pages pieces) ->
            length (page_chunks_from 0 file p ps) = length ps
            /\ forall n c, nth_error ps n = Some c ->
                 nth_error (page_chunks_from 0 file p ps) n
                 = Some {| text := c;
                           source := filename file;
                           page_no := (match page_index p with
                                       | Some k => k
                                       | None => 0
                                       end + 1)%Z;
                           chunk_no := (Z.of_nat n + 1)%Z |}.
Proof.
  intros H. apply collect_chunks_pages in H as [-> H]. split; [reflexivity|].
  destruct (H chunks eq_refl) as (pieces & Hall & ->).
  exists pieces. split; [exact Hall|]. split; [reflexivity|].
  intros p ps _. destruct (page_chunks_from_nth file p ps 0) as [Hlen Hnth].
  split; [exact Hlen|]. intros n c Hc. now rewrite (Hnth n c Hc).
Qed.

(** X21: when no temporary file was there before, one is left behind by
    an upload only if reading the upload or writing it to the file
    raised; that exception is the one that leaves [process_pdf], and no
    upsert was made. *)
Theorem temp_file_left_only_when_saving_raises w (file : upload_file)
        (collection_name : str) st (r : result response) st' :
  temp_file vector st = false ->
  process_pdf vector w file collection_name st = (r, st') ->
  temp_file vector st' = true ->
  exists e,
    r = Raise e
    /\ (read file = Raise e
        \/ exists content, read file = Return content
                           /\ write_temp vector w content = Raise e)
    /\ existsb (is_upsert vector) (store_calls vector st')
       = existsb (is_upsert vector) (store_calls vector st).
Proof.
  intros Hst H Hleft. apply process_pdf_outcome in H
    as (creates & upserts & Hcalls & Hcreates & _ & _ & Htemp).
  destruct Htemp as [(Hsame & _)|[Hgone|(_ & -> & e & -> & Hwhy)]];
    [congruence | congruence |].
  exists e. split; [reflexivity|]. split; [exact Hwhy|].
  rewrite Hcalls, app_nil_r, existsb_app.
  destruct Hcreates as [->|[-> _]]; cbn; now rewrite ?orb_false_r.
Qed.
End Facts.

Lemma C7_zero_pages_warning_witness :
  exists r st' more,
    process_pdf unit (plain_world [$"health_schemes"] []) leaflet $"health_schemes" idle
    = (r, st')
    /\ store_calls unit st' = [] ++ [] ++ more
    /\ (more = [] \/ exists points, more = [Upsert $"health_schemes" points])
    /\ forall content,
         read leaflet = Return content ->
         write_temp unit (plain_world [$"health_schemes"] []) content = Return tt ->
         load unit (plain_world [$"health_schemes"] []) content = Return [] ->
         more = []
         /\ exists resp,
              r = Return resp
              /\ status resp = $"warning"
              /\ contains (filename leaflet) (message resp) = true
              /\ chunks_count resp = None.
Proof.
  apply (C7_zero_pages_warning unit (plain_world [$"health_schemes"] []) leaflet
           $"health_schemes" idle).
  repeat split; try reflexivity; eexists; reflexivity.
Defined.

Lemma store_calls_of_one_upload_witness :
  exists creates upserts,
    store_calls unit
      (snd (process_pdf unit
              (plain_world [] [{| page_content := $"Janani Suraksha";
                                  page_index := Some 0%Z |}])
              leaflet $"health_schemes" idle))
    = store_calls unit idle ++ creates ++ upserts
    /\ (creates = []
        \/ (creates = [CreateCollection $"health_schemes"]
            /\ listed unit
                 (plain_world [] [{| page_content := $"Janani Suraksha";
                                     page_index := Some 0%Z |}])
                 $"health_schemes" = false))
    /\ (upserts = []
        \/ exists points, upserts = [Upsert $"health_schemes" points] /\ points <> [])
    /\ forall resp,
         fst (process_pdf unit
                (plain_world [] [{| page_content := $"Janani Suraksha";
                                    page_index := Some 0%Z |}])
                leaflet $"health_schemes" idle) = Return resp ->
         (status resp = $"success"
          /\ exists points, upserts = [Upsert $"health_schemes" points]
                            /\ chunks_count resp = Some (length points))
         \/ (status resp = $"warning" /\ upserts = [] /\ chunks_count resp = None).
Proof.
  apply (store_calls_of_one_upload unit
           (plain_world [] [{| page_content := $"Janani Suraksha";
                               page_index := Some 0%Z |}])
           leaflet $"health_schemes" idle).
  reflexivity.
Defined.

Lemma successful_upload_stores_every_chunk_witness :
  exists content chunk_size chunk_overlap pages chunks embeddings,
    read leaflet = Return content
    /\ load unit
            (plain_world [] [{| page_content := $"Janani Suraksha";
                                page_index := Some 0%Z |}]) content
       = Return pages
    /\ (forall st0,
          collect_chunks unit
            (plain_world [] [{| page_content := $"Janani Suraksha";
                                page_index := Some 0%Z |}])
            chunk_size chunk_overlap leaflet pages [] st0
          = (Return chunks, st0))
    /\ chunks <> []
    /\ encode unit
              (plain_world [] [{| page_content := $"Janani Suraksha";
                                  page_index := Some 0%Z |}])
              (map text chunks) = Return embeddings
    /\ In (Upsert $"health_schemes"
                 (combine (firstn (length chunks) embeddings) chunks))
          [CreateCollection $"health_schemes";
           Upsert $"health_schemes"
                  [(tt, {| text := $"Janani Suraksha"; source := $"leaflet.pdf";
                           page_no := 1; chunk_no := 1 |})]]
    /\ map snd (combine (firstn (length chunks) embeddings) chunks) = chunks
    /\ Some 1 = Some (length chunks)
    /\ $"Uploaded 1 chunks from leaflet.pdf."
       = $"Uploaded " ++ nat_str (length chunks) ++ $" chunks from "
           ++ filename leaflet ++ $".".
Proof.
  apply (successful_upload_stores_every_chunk unit
           (plain_world [] [{| page_content := $"Janani Suraksha";
                               page_index := Some 0%Z |}])
           leaflet $"health_schemes" idle
           {| status := $"success";
              message := $"Uploaded 1 chunks from leaflet.pdf.";
              chunks_count := Some 1 |}
           {| store_calls :=
                [CreateCollection $"health_schemes";
                 Upsert $"health_schemes"
                        [(tt, {| text := $"Janani Suraksha"; source := $"leaflet.pdf";
                                 page_no := 1; chunk_no := 1 |})]];
              temp_file := false |}).
  - reflexivity.
  - reflexivity.
Defined.

Lemma chunks_numbered_per_page_witness :
  exists pieces,
    Forall2 (fun p ps => split_text unit (plain_world [] []) 500 100
                                    (page_content p) = Return ps)
            [{| page_content := $"Janani Suraksha"; page_index := None |}] pieces
    /\ [{| text := $"Janani Suraksha"; source := $"leaflet.pdf";
           page_no := 1; chunk_no := 1 |}]
       = concat (map (fun pp => page_chunks_from 0 leaflet (fst pp) (snd pp))
                     (combine [{| page_content := $"Janani Suraksha";
                                  page_index := None |}] pieces)).
Proof.
  destruct (chunks_numbered_per_page unit (plain_world [] []) 500 100 leaflet
              [{| page_content := $"Janani Suraksha"; page_index := None |}] idle
              [{| text := $"Janani Suraksha"; source := $"leaflet.pdf";
                  page_no := 1; chunk_no := 1 |}] idle eq_refl)
    as (_ & pieces & Hall & Hchunks & _).
  now exists pieces.
Defined.

Lemma temp_file_left_only_when_saving_raises_witness :
  exists e,
    @Raise response (UpstreamError 1) = Raise e
    /\ (read broken_upload = Raise e
        \/ exists content, read broken_upload = Return content
                           /\ write_temp unit (plain_world [$"health_schemes"] [])
                                         content = Raise e)
    /\ existsb (is_upsert unit) [] = existsb (is_upsert unit) (store_calls unit idle).
Proof.
  apply (temp_file_left_only_when_saving_raises unit
           (plain_world [$"health_schemes"] []) broken_upload $"health_schemes" idle
           (Raise (UpstreamError 1)) {| store_calls := []; temp_file := true |}).
  - reflexivity.
  - reflexivity.
  - reflexivity.
Defined.

End IngestMoreProps.

(** ** The encoder: batches *)

Module EmbeddingMore.

Import Embedding Shapes.

Section Encode.
Variables encoded_input model_output vector : Type.
Variable tokenizer : list str -> result encoded_input.
Variable model : encoded_input -> result model_output.
Variable pool : model_output -> encoded_input -> result (list vector).

Lemma tokenized_app (a b : list (call encoded_input)) :
  tokenized (a ++ b) = tokenized a ++ tokenized b.
Proof. apply flat_map_app. Qed.

Lemma encode_batch_calls (batch : list str) (log : list (call encoded_input))
      (r : result (list vector)) (log' : list (call encoded_input)) :
  encode_batch _ _ _ tokenizer model pool batch log = (r, log') ->
  exists calls,
    log' = log ++ calls
    /\ tokenized calls = [batch]
    /\ forall embeddings, r = Return embeddings ->
                       encoded tokenizer model pool batch embeddings.
Proof.
  unfold encode_batch, mbind, tell, lift.
  destruct (tokenizer batch) as [input|e] eqn:Et.
  - destruct (model input) as [output|e] eqn:Em.
    + intros [= <- <-]. exists [Tokenize _ batch; Forward _ input].
      rewrite <- app_assoc. split; [reflexivity|]. split; [reflexivity|].
      intros embeddings Hp. now exists input, output.
    + intros [= <- <-]. exists [Tokenize _ batch; Forward _ input].
      rewrite <- app_assoc. split; [reflexivity|]. split; [reflexivity | discriminate].
  - intros [= <- <-]. exists [Tokenize _ batch].
    split; [reflexivity|]. split; [reflexivity | discriminate].
Qed.

Lemma encode_loop_batches (batch_size : nat) (fuel : nat) :
  0 < batch_size ->
  forall (rest : list str) (all_embeddings : list vector)
         (log : list (call encoded_input))
         (r : result (list vector)) (log' : list (call encoded_input)),
    length rest <= fuel ->
    encode_loop _ _ _ tokenizer model pool fuel batch_size rest all_embeddings log
    = (r, log') ->
    exists calls remaining,
      log' = log ++ calls
      /\ rest = concat (tokenized calls) ++ remaining
      /\ Forall (fun batch => batch <> [] /\ length batch <= batch_size)
                (tokenized calls)
      /\ forall embeddings, r = Return embeddings ->
           remaining = []
           /\ exists per_batch,
                Forall2 (encoded tokenizer model pool) (tokenized calls) per_batch
                /\ embeddings = all_embeddings ++ concat per_batch.
Proof.
  intros Hpos. induction fuel as [|fuel IH];
    intros rest all_embeddings log r log' Hfuel.
  - destruct rest as [|x rest]; [|cbn in Hfuel; lia].
    cbn [encode_loop]. intros [= <- <-]. exists [], [].
    rewrite app_nil_r. split; [reflexivity|]. split; [reflexivity|].
    split; [constructor|]. intros embeddings [= <-]. split; [reflexivity|].
    exists []. split; [constructor | cbn; now rewrite app_nil_r].
  - destruct rest as [|x rest].
    { cbn [encode_loop]. intros [= <- <-]. exists [], [].
      rewrite app_nil_r. split; [reflexivity|]. split; [reflexivity|].
      split; [constructor|]. intros embeddings [= <-]. split; [reflexivity|].
      exists []. split; [constructor | cbn; now rewrite app_nil_r]. }
    cbn [encode_loop]. unfold mbind at 1.
    destruct (encode_batch _ _ _ tokenizer model pool (firstn batch_size (x :: rest)) log)
      as [[sentence_embeddings|e] log1] eqn:Eb.
    + apply encode_batch_calls in Eb as (calls1 & -> & Htok1 & Henc).
      intros H. apply IH in H as (calls2 & remaining & -> & Hrest & Hall & Hret).
      * exists (calls1 ++ calls2), remaining.
        rewrite tokenized_app, Htok1, app_assoc.
        split; [reflexivity|]. split.
        { cbn [app concat]. rewrite <- app_assoc, <- Hrest. symmetry.
          apply firstn_skipn. }
        split.
        { cbn [app]. constructor; [|exact Hall].
          destruct batch_size as [|n]; [lia|]. split; [discriminate|].
          apply firstn_le_length. }
        intros embeddings Hr. destruct (Hret embeddings Hr) as (-> & per_batch & H2 & ->).
        split; [reflexivity|]. exists (sentence_embeddings :: per_batch).
        split; [constructor; [now apply Henc | exact H2]|].
        cbn [concat]. now rewrite <- app_assoc.
      * rewrite length_skipn. cbn [length] in *. lia.
    + apply encode_batch_calls in Eb as (calls1 & -> & Htok1 & _).
      intros [= <- <-]. exists calls1, (skipn batch_size (x :: rest)).
      rewrite Htok1. split; [reflexivity|]. split.
      { cbn [concat]. rewrite app_nil_r. symmetry. apply firstn_skipn. }
      split; [|discriminate].
      constructor; [|constructor].
      destruct batch_size as [|n]; [lia|]. split; [discriminate|].
      apply firstn_le_length.
Qed.

(** X22: with a positive batch size, the batches handed to the
    tokenizer are not empty, hold at most [batch_size] sentences, and
    their concatenation is a prefix of the input, the whole input when
    [encode] returns; the returned list is then the concatenation, in
    order, of what the pooling gave for each batch. *)
Theorem encode_batches_partition_the_input (sentences : list str) (batch_size : Z)
        (log : list (call encoded_input))
        (r : result (list vector)) (log' : list (call encoded_input)) :
  (0 < batch_size)%Z ->
  encode _ _ _ tokenizer model pool sentences batch_size log = (r, log') ->
  exists calls remaining,
    log' = log ++ calls
    /\ sentences = concat (tokenized calls) ++ remaining
    /\ Forall (fun batch => batch <> [] /\ (Z.of_nat (length batch) <= batch_size)%Z)
              (tokenized calls)
    /\ forall embeddings, r = Return embeddings ->
         remaining = []
         /\ exists per_batch,
              Forall2 (encoded tokenizer model pool) (tokenized calls) per_batch
              /\ embeddings = concat per_batch.
Proof.
  intros Hpos. unfold encode.
  destruct sentences as [|s rest].
  - intros [= <- <-]. exists [], []. rewrite app_nil_r.
    split; [reflexivity|]. split; [reflexivity|]. split; [constructor|].
    intros embeddings [= <-]. split; [reflexivity|]. exists []. now split.
  - destruct (batch_size =? 0)%Z eqn:E0; [apply Z.eqb_eq in E0; lia|].
    destruct (batch_size <? 0)%Z eqn:E1; [apply Z.ltb_lt in E1; lia|].
    intros H. apply encode_loop_batches in H; [|lia|apply le_n].
    destruct H as (calls & remaining & Hlog & Hrest & Hall & Hret).
    exists calls, remaining. split; [exact Hlog|]. split; [exact Hrest|].
    split; [|exact Hret].
    eapply Forall_impl; [|exact Hall]. intros batch [Hne Hlen]. split; [exact Hne|]. lia.
Qed.

(** X23: on a non-empty input, a batch size of 0 raises [ValueError]
    (the step of the range) and a negative one returns the empty list;
    neither the tokenizer nor the model is called. *)
Theorem encode_without_a_positive_batch_size (sentences : list str)
        (batch_size : Z) (log : list (call encoded_input)) :
  sentences <> [] ->
  (batch_size <= 0)%Z ->
  encode _ _ _ tokenizer model pool sentences batch_size log
  = (if (batch_size =? 0)%Z then Raise ValueError else Return [], log).
Proof.
  intros Hne Hle. unfold encode. destruct sentences as [|s rest]; [contradiction|].
  destruct (batch_size =? 0)%Z eqn:E0; [reflexivity|].
  apply Z.eqb_neq in E0.
  destruct (batch_size <? 0)%Z eqn:E1; [reflexivity|].
  apply Z.ltb_ge in E1. lia.
Qed.
End Encode.

Lemma encode_batches_partition_the_input_witness :
  exists calls remaining,
    [Tokenize nat [$"a"; $"b"]; Forward nat 2; Tokenize nat [$"c"]; Forward nat 1]
    = [] ++ calls
    /\ [$"a"; $"b"; $"c"] = concat (tokenized calls) ++ remaining
    /\ Forall (fun batch => batch <> [] /\ (Z.of_nat (length batch) <= 2)%Z)
              (tokenized calls)
    /\ forall embeddings, Return [true; true; true] = Return embeddings ->
         remaining = []
         /\ exists per_batch,
              Forall2 (encoded
                         (fun batch => Return (length batch))
                         (fun input => Return input)
                         (fun output _ => Return (repeat true output)))
                      (tokenized calls) per_batch
              /\ embeddings = concat per_batch.
Proof.
  apply (encode_batches_partition_the_input nat nat bool
           (fun batch => Return (length batch))
           (fun input => Return input)
           (fun output _ => Return (repeat true output))
           [$"a"; $"b"; $"c"] 2 []).
  - reflexivity.
  - reflexivity.
Defined.

Lemma encode_without_a_positive_batch_size_witness :
  encode nat nat bool (fun batch => Return (length batch)) (fun input => Return input)
         (fun output _ => Return (repeat true output)) [$"a"; $"b"] (-1) []
  = (Return [], []).
Proof.
  apply (encode_without_a_positive_batch_size nat nat bool
           (fun batch => Return (length batch)) (fun input => Return input)
           (fun output _ => Return (repeat true output)) [$"a"; $"b"] (-1) []).
  - discriminate.
  - lia.
Defined.

End EmbeddingMore.

(** ** The shared model, the loggers, the upload endpoint *)

Module LoaderProps.

Import Loader.

Section Facts.
Variables tokenizer_t model_t : Type.

Lemma serve_loaded (disks : list (disk tokenizer_t model_t))
      (m : EmbeddingModel tokenizer_t model_t) :
  serve _ _ disks (Some m)
  = (repeat (inl m : EmbeddingModel tokenizer_t model_t + load_error) (length disks),
     Some m).
Proof.
  induction disks as [|d disks IH]; [reflexivity|].
  cbn [serve get_embedding_model length repeat]. now rewrite IH.
Qed.

(** X24: over successive calls of [get_embedding_model], every call
    before the first construction that succeeds answers with the error of
    its own construction and leaves the variable unset; from that
    construction on every call answers with the same instance, whatever
    is on the disk by then. *)
Theorem model_is_loaded_once (disks : list (disk tokenizer_t model_t))
        (answers : list (EmbeddingModel tokenizer_t model_t + load_error))
        (final : option (EmbeddingModel tokenizer_t model_t)) :
  serve _ _ disks None = (answers, final) ->
  exists errors : list load_error,
    (answers = map inr errors /\ final = None
     /\ Forall2 (fun d e => init _ _ d = inr e) disks errors)
    \/ exists d m later,
         answers = map inr errors ++ repeat (inl m) (S later)
         /\ final = Some m
         /\ nth_error disks (length errors) = Some d
         /\ init _ _ d = inl m
         /\ Forall2 (fun d e => init _ _ d = inr e)
                    (firstn (length errors) disks) errors.
Proof.
  revert answers final. induction disks as [|d disks IH]; intros answers final.
  - intros [= <- <-]. exists []. left. repeat split. constructor.
  - cbn [serve get_embedding_model].
    destruct (init _ _ d) as [m|e] eqn:E.
    + rewrite serve_loaded. intros [= <- <-]. exists []. right.
      exists d, m, (length disks). repeat split; [exact E | constructor].
    + destruct (serve _ _ disks None) as [answers0 final0] eqn:Es.
      intros [= <- <-].
      destruct (IH answers0 final0 eq_refl)
        as [errors [(-> & -> & Hall)|(d' & m & later & -> & -> & Hd & Hm & Hall)]].
      * exists (e :: errors). left. repeat split. now constructor.
      * exists (e :: errors). right. exists d', m, later.
        repeat split; try assumption. cbn [length firstn]. now constructor.
Qed.
End Facts.

Lemma model_is_loaded_once_witness :
  exists errors : list load_error,
    (fst (serve nat nat [missing; installed; missing] None) = map inr errors
     /\ snd (serve nat nat [missing; installed; missing] None) = None
     /\ Forall2 (fun d e => init nat nat d = inr e)
                [missing; installed; missing] errors)
    \/ exists d m later,
         fst (serve nat nat [missing; installed; missing] None)
         = map inr errors ++ repeat (inl m) (S later)
         /\ snd (serve nat nat [missing; installed; missing] None) = Some m
         /\ nth_error [missing; installed; missing] (length errors) = Some d
         /\ init nat nat d = inl m
         /\ Forall2 (fun d e => init nat nat d = inr e)
                    (firstn (length errors) [missing; installed; missing]) errors.
Proof.
  apply (model_is_loaded_once nat nat [missing; installed; missing]).
  reflexivity.
Defined.

End LoaderProps.

Module LoggingProps.

Import PyFacts DictFacts Logging.

Lemma getLogger_setup_other (today name other : str) (lg : logging) :
  other <> name ->
  getLogger name (setup_logger today other lg) = getLogger name lg.
Proof.
  intros Hne. unfold getLogger, setup_logger. cbn [loggers].
  rewrite get_set. apply eqs_neq in Hne. now rewrite Hne.
Qed.

Lemma handlers_setup_same (today name : str) (lg : logging) :
  handlers (getLogger name (setup_logger today name lg))
  = match handlers (getLogger name lg) with
    | [] => [FileHandler ($"logs/" ++ today ++ $".log"); StreamHandler]
    | h :: hs => h :: hs
    end.
Proof.
  unfold setup_logger. unfold getLogger at 1. cbn [loggers].
  rewrite get_set, eqs_refl. cbn [handlers].
  now destruct (handlers (getLogger name lg)).
Qed.

Lemma handlers_kept (name : str) (calls : list (str * str)) :
  forall lg, handlers (getLogger name lg) <> [] ->
             handlers (getLogger name (setup_all calls lg))
             = handlers (getLogger name lg).
Proof.
  induction calls as [|[today other] calls IH]; intros lg Hne; [reflexivity|].
  unfold setup_all in *. cbn [fold_left fst snd].
  assert (Hstep : handlers (getLogger name (setup_logger today other lg))
                  = handlers (getLogger name lg)).
  { destruct (list_eq_dec ascii_dec other name) as [->|Hother].
    - rewrite handlers_setup_same. now destruct (handlers (getLogger name lg)).
    - now rewrite getLogger_setup_other. }
  rewrite IH; [exact Hstep | now rewrite Hstep].
Qed.

Lemma opened_setup_all (calls : list (str * str)) :
  forall lg, opened (setup_all calls lg)
             = opened lg ++ map (fun call => $"logs/" ++ fst call ++ $".log") calls.
Proof.
  induction calls as [|call calls IH]; intros lg.
  - cbn. now rewrite app_nil_r.
  - unfold setup_all in *. cbn [fold_left map]. rewrite IH.
    cbn [setup_logger opened]. now rewrite <- app_assoc.
Qed.

(** X25: a logger that had no handler keeps, through any later calls of
    [setup_logger], for its name or for others, on that day or on later
    ones, the two handlers of the first call for its name: the file of
    that day and the console; yet every call opens the file of its own
    day. *)
Theorem handlers_are_those_of_the_first_setup
        (before rest : list (str * str)) (today name : str) (lg : logging) :
  handlers (getLogger name lg) = [] ->
  (forall call, In call before -> snd call <> name) ->
  handlers (getLogger name (setup_all (before ++ (today, name) :: rest) lg))
  = [FileHandler ($"logs/" ++ today ++ $".log"); StreamHandler]
  /\ opened (setup_all (before ++ (today, name) :: rest) lg)
     = opened lg
         ++ map (fun call => $"logs/" ++ fst call ++ $".log")
                (before ++ (today, name) :: rest).
Proof.
  intros Hnone Hbefore. split; [|apply opened_setup_all].
  unfold setup_all. rewrite fold_left_app. cbn [fold_left fst snd].
  fold (setup_all before lg).
  fold (setup_all rest (setup_logger today name (setup_all before lg))).
  assert (Hstill : handlers (getLogger name (setup_all before lg)) = []).
  { clear rest. revert lg Hnone. induction before as [|[d other] before IH];
      intros lg Hnone; [exact Hnone|].
    unfold setup_all in *. cbn [fold_left fst snd]. apply IH.
    - intros call Hin. apply Hbefore. now right.
    - rewrite getLogger_setup_other; [exact Hnone|].
      apply (Hbefore (d, other)). now left. }
  rewrite handlers_kept; rewrite handlers_setup_same, Hstill;
    [reflexivity | discriminate].
Qed.

Lemma handlers_are_those_of_the_first_setup_witness :
  handlers (getLogger $"api.search"
              (setup_all [($"2025-01-01", $"app"); ($"2025-01-01", $"api.search");
                          ($"2025-01-02", $"api.search")]
                         {| loggers := []; opened := [] |}))
  = [FileHandler $"logs/2025-01-01.log"; StreamHandler]
  /\ opened (setup_all [($"2025-01-01", $"app"); ($"2025-01-01", $"api.search");
                        ($"2025-01-02", $"api.search")]
                       {| loggers := []; opened := [] |})
     = [$"logs/2025-01-01.log"; $"logs/2025-01-01.log"; $"logs/2025-01-02.log"].
Proof.
  apply (handlers_are_those_of_the_first_setup
           [($"2025-01-01", $"app")] [($"2025-01-02", $"api.search")]
           $"2025-01-01" $"api.search" {| loggers := []; opened := [] |}).
  - reflexivity.
  - intros call [<-|[]]. discriminate.
Defined.

End LoggingProps.

Module AppProps.

Import PyFacts Ingest IngestMore App.

Section Facts.
Variable vector : Type.
Variable str_of : exn -> str.

(** X26: the upload endpoint answers 400, without any call of the store
    and without a temporary file, when the file name does not end in
    [.pdf] (in lower case); otherwise it answers with the mapping of
    [process_pdf], whose status is [success] or [warning] and after which
    no temporary file is left, or with 500 and the text of the exception
    that [process_pdf] raised. *)
Theorem upload_endpoint_outcomes
        (w : world vector) (file : upload_file) (collection_name : str)
        (st : state vector) (a : answer response) (st' : state vector) :
  temp_file vector st = false ->
  upload_pdf_endpoint vector str_of w file collection_name st = (a, st') ->
  (endswith $".pdf" (filename file) = false ->
   a = HTTPException 400 $"Only PDF files are supported" /\ st' = st)
  /\ (forall result, a = Ok result ->
        endswith $".pdf" (filename file) = true
        /\ temp_file vector st' = false
        /\ (status result = $"success" \/ status result = $"warning"))
  /\ (forall status_code detail, a = HTTPException status_code detail ->
        (status_code = 400%Z /\ endswith $".pdf" (filename file) = false)
        \/ (status_code = 500%Z
            /\ exists e, detail = str_of e
                         /\ process_pdf vector w file collection_name st
                            = (Raise e, st'))).
Proof.
  intros Hst. unfold upload_pdf_endpoint.
  destruct (endswith $".pdf" (filename file)); cbn [negb].
  - destruct (process_pdf vector w file collection_name st) as [[result|e] st1] eqn:E.
    + intros [= <- <-]. split; [discriminate|]. split; [|discriminate].
      intros result' [= <-]. split; [reflexivity|].
      apply process_pdf_outcome in E
        as (creates & upserts & _ & _ & _ & Hresp & Htemp).
      split.
      * destruct Htemp as [(_ & _ & e & He)|[Hgone|(_ & _ & e & He & _)]];
          [discriminate | exact Hgone | discriminate].
      * destruct (Hresp result eq_refl) as [[H _]|[H _]]; [now left | now right].
    + intros [= <- <-]. split; [discriminate|]. split; [discriminate|].
      intros status_code detail [= <- <-]. right. split; [reflexivity|]. now exists e.
  - intros [= <- <-]. split; [now split|]. split; [discriminate|].
    intros status_code detail [= <- <-]. left. now split.
Qed.
End Facts.

Lemma upload_endpoint_outcomes_witness :
  fst (upload_pdf_endpoint unit (fun _ => []) (plain_world [] [])
         {| filename := $"LEAFLET.PDF"; read := Return $"%PDF-1.4" |}
         $"health_schemes" idle)
  = HTTPException 400 $"Only PDF files are supported"
  /\ snd (upload_pdf_endpoint unit (fun _ => []) (plain_world [] [])
            {| filename := $"LEAFLET.PDF"; read := Return $"%PDF-1.4" |}
            $"health_schemes" idle)
     = idle.
Proof.
  apply (proj1 (upload_endpoint_outcomes unit (fun _ => []) (plain_world [] [])
                  {| filename := $"LEAFLET.PDF"; read := Return $"%PDF-1.4" |}
                  $"health_schemes" idle _ _ eq_refl eq_refl)).
  reflexivity.
Defined.

End AppProps.
